(** * scan-receipts: the extraction client, the edit form and the receipt store

    A shallow embedding of [services/geminiService.ts] ([processReceipt]),
    [components/ReceiptEdit.tsx] (the form state and [handleSubmit]) and
    [App.tsx] (the view state, [handleCapture], [saveReceipt],
    [simulateSync] and the two persistence effects),
    [components/HistoryView.tsx] (the texts and marks of the list and
    the upload of a dropped or chosen file) and
    [components/CameraView.tsx] (the camera stream and [capturePhoto]),
    together with the
    parts of the JavaScript run time they rest on: truthiness and [||],
    [String.prototype.split], IEEE binary64 numbers with [parseFloat] and
    [Number.prototype.toString], [JSON.parse] / [JSON.stringify] and
    [Date.prototype.toISOString], the [+] of the list total,
    [Number.prototype.toFixed], the data URLs of a canvas and of a
    file reader, and the value an HTML input field hands over.

    Conventions.
    - A JavaScript string is represented by the bytes of its UTF-8
      encoding (a Rocq [string]); a surrogate that is not half of a
      pair is represented by the three bytes of its code unit.
    - A JavaScript number is a [spec_float] of the Standard Library at
      precision 53 and maximal exponent 1024 (binary64).
    - A JavaScript object is an association list of own properties in
      property order; the values that flow through the program are the
      ones [JSON.parse] can build, plus [undefined].
    - A call that can throw, and a promise that can reject, returns a sum:
      [inl] carries the [Error], [inr] the value. *)

From Stdlib Require Import ZArith List String Ascii Bool Lia DecimalString.
From Stdlib Require Import DecimalN DecimalPos SpecFloat.
From Stdlib.Strings Require Import Byte.
Import ListNotations.

Open Scope string_scope.
Open Scope list_scope.
Open Scope Z_scope.

(** ** Characters and strings *)

Module JSString.

Definition chars (s : string) : list ascii := list_ascii_of_string s.
Definition of_chars (l : list ascii) : string := string_of_list_ascii l.

Definition code (c : ascii) : Z := Z.of_N (N_of_ascii c).
Definition char_of_code (n : Z) : ascii := ascii_of_N (Z.to_N n).

Definition is_digit (c : ascii) : bool := (48 <=? code c) && (code c <=? 57).
Definition digit_value (c : ascii) : Z := code c - 48.

(** The longest prefix of [l] whose characters satisfy [p], and the rest. *)
Fixpoint span (p : ascii -> bool) (l : list ascii) : list ascii * list ascii :=
  match l with
  | [] => ([], [])
  | c :: r => if p c then let '(a, b) := span p r in (c :: a, b) else ([], l)
  end.

(** The value of a run of decimal digits. *)
Definition digits_value (ds : list ascii) : Z :=
  fold_left (fun acc c => 10 * acc + digit_value c) ds 0.

(** The decimal numeral of a non-negative integer, without leading zeros. *)
Definition decimal (n : Z) : string := NilZero.string_of_uint (N.to_uint (Z.to_N n)).

Fixpoint repeat_char (c : ascii) (n : nat) : string :=
  match n with O => EmptyString | S k => String c (repeat_char c k) end.

(** The decimal numeral of an integer, with a minus sign when negative:
    what [toString] gives for an integral Number below 10^21. *)
Definition integer (n : Z) : string :=
  if n <? 0 then "-" ++ decimal (- n) else decimal n.

(** [decimal n] left-padded with zeros to at least [w] characters. *)
Definition pad (w : nat) (n : Z) : string :=
  let d := decimal n in repeat_char "0" (w - String.length d) ++ d.

(** [s.split(sep)] for a separator of one character: the pieces of [s]
    between the occurrences of [sep]; never the empty list. *)
Fixpoint split_chars (sep : ascii) (l : list ascii) (cur : list ascii) : list string :=
  match l with
  | [] => [of_chars (rev cur)]
  | c :: r =>
      if Ascii.eqb c sep then of_chars (rev cur) :: split_chars sep r []
      else split_chars sep r (c :: cur)
  end.

Definition split (sep : ascii) (s : string) : list string :=
  split_chars sep (chars s) [].

(** The double quote character. *)
Definition dquote : ascii := "034"%char.

Fixpoint starts_with (p l : list ascii) : option (list ascii) :=
  match p, l with
  | [], _ => Some l
  | a :: p', b :: l' => if Ascii.eqb a b then starts_with p' l' else None
  | _ :: _, [] => None
  end.

End JSString.

(** ** Numbers: IEEE 754 binary64 *)

Module JSNumber.
Import JSString.

Definition number := spec_float.

Definition prec : Z := 53.
Definition emax : Z := 1024.

Definition NaN : number := S754_nan.
Definition Infinity (neg : bool) : number := S754_infinity neg.
Definition zero : number := S754_zero false.

(** Structural equality; every number the model builds is in normal form. *)
Definition eqb (x y : number) : bool :=
  match x, y with
  | S754_zero a, S754_zero b => Bool.eqb a b
  | S754_infinity a, S754_infinity b => Bool.eqb a b
  | S754_nan, S754_nan => true
  | S754_finite a m e, S754_finite b m' e' => Bool.eqb a b && Pos.eqb m m' && Z.eqb e e'
  | _, _ => false
  end.

Definition is_nan (x : number) : bool :=
  match x with S754_nan => true | _ => false end.
Definition is_zero (x : number) : bool :=
  match x with S754_zero _ => true | _ => false end.
Definition is_finite (x : number) : bool :=
  match x with S754_zero _ | S754_finite _ _ _ => true | _ => false end.
(** [x < 0] as JavaScript compares: false for both zeros and for NaN. *)
Definition is_negative (x : number) : bool :=
  match x with S754_finite true _ _ | S754_infinity true => true | _ => false end.

(** The Number value for the mathematical value [(-1)^neg * m * 10^e]
    ([m >= 0]): round to nearest, ties to even. *)
Definition of_decimal (neg : bool) (m e : Z) : number :=
  match m with
  | Zpos p =>
      if 0 <=? e then binary_round prec emax neg (p * Z.to_pos (10 ^ e)) 0
      else
        let '(q, e', l) := SFdiv_core_binary prec emax (Zpos p) 0 (10 ^ (- e)) 0 in
        binary_round_aux prec emax neg q e' l
  | _ => S754_zero neg
  end.

Definition of_Z (z : Z) : number := of_decimal (z <? 0) (Z.abs z) 0.

(** *** Decimal literals *)

(** [digits [. digits] [e [+-] digits]] read from the front of [l] as far
    as it goes: the mantissa, the decimal exponent and the unread rest.
    At least one digit must stand before or after the ['.']; an exponent
    part is read only when it has digits. *)
Definition read_decimal (l : list ascii) : option (Z * Z * list ascii) :=
  let '(ip, r1) := span is_digit l in
  let '(fp, r2) :=
    match r1 with
    | "."%char :: r => span is_digit r
    | _ => ([], r1)
    end in
  match (ip ++ fp)%list with
  | [] => None
  | ds =>
      let '(ex, r3) :=
        match r2 with
        | c :: r =>
            if Ascii.eqb c "e" || Ascii.eqb c "E" then
              let '(neg, r') :=
                match r with
                | "+"%char :: r' => (false, r')
                | "-"%char :: r' => (true, r')
                | _ => (false, r)
                end in
              match span is_digit r' with
              | ([], _) => (0, r2)
              | (es, r'') => ((if neg then - digits_value es else digits_value es), r'')
              end
            else (0, r2)
        | [] => (0, r2)
        end in
      Some (digits_value ds, ex - Z.of_nat (List.length fp), r3)
  end.

(** *** [parseFloat] *)

(** One WhiteSpace or LineTerminator code point at the front of [l]
    (TAB, LF, VT, FF, CR, SP, U+00A0, U+1680, U+2000..U+200A, U+2028,
    U+2029, U+202F, U+205F, U+3000, U+FEFF), in UTF-8. *)
Definition strip_space (l : list ascii) : option (list ascii) :=
  match List.map code l with
  | c :: _ =>
      if (9 <=? c) && (c <=? 13) || (c =? 32) then Some (tl l)
      else
        match List.map code l with
        | 194 :: 160 :: _ => Some (skipn 2 l)
        | 225 :: 154 :: 128 :: _ => Some (skipn 3 l)
        | 226 :: 128 :: d :: _ =>
            if (128 <=? d) && (d <=? 138) || (d =? 168) || (d =? 169) || (d =? 175)
            then Some (skipn 3 l) else None
        | 226 :: 129 :: 159 :: _ => Some (skipn 3 l)
        | 227 :: 128 :: 128 :: _ => Some (skipn 3 l)
        | 239 :: 187 :: 191 :: _ => Some (skipn 3 l)
        | _ => None
        end
  | [] => None
  end.

Fixpoint trim_start (fuel : nat) (l : list ascii) : list ascii :=
  match fuel with
  | O => l
  | S f => match strip_space l with Some r => trim_start f r | None => l end
  end.

(** [parseFloat(s)]: the longest prefix of the trimmed string that is a
    StrDecimalLiteral, as a Number; NaN when there is none. *)
Definition parseFloat (s : string) : number :=
  let l := trim_start (String.length s) (chars s) in
  let '(neg, r) :=
    match l with
    | "+"%char :: r => (false, r)
    | "-"%char :: r => (true, r)
    | _ => (false, l)
    end in
  match starts_with (chars "Infinity") r with
  | Some _ => Infinity neg
  | None =>
      match read_decimal r with
      | Some (m, e, _) => of_decimal neg m e
      | None => NaN
      end
  end.

(** *** [Number.prototype.toString] (radix 10) *)

(** A positive finite number as an exact fraction. *)
Definition fraction (m : positive) (e : Z) : Z * Z :=
  if 0 <=? e then (Zpos m * 2 ^ e, 1) else (Zpos m, 2 ^ (- e)).

Definition scale10 (x : Z * Z) (p : Z) : Z * Z :=
  let '(a, b) := x in
  if 0 <=? p then (a * 10 ^ p, b) else (a, b * 10 ^ (- p)).

(** The least [n' >= n] with [x < 10^n']. *)
Fixpoint decimal_exponent (fuel : nat) (x : Z * Z) (n : Z) : Z :=
  match fuel with
  | O => n
  | S f =>
      let '(a, b) := scale10 x (- n) in
      if a <? b then n else decimal_exponent f x (n + 1)
  end.

(** A lower bound of the decimal exponent of [m * 2^e], from its binary
    exponent and [30102 / 100000 < log10 2 < 30103 / 100000]; it is at
    most two below the exponent itself. *)
Definition exponent_estimate (m : positive) (e : Z) : Z :=
  (Zpos (digits2_pos m) + e - 1) * 30102 / 100000 - 1.

(** Integers [(s, n, k')] for the least [k' >= k] such that [s] has [k']
    digits and [s * 10^(n-k')] reads back as [x]; of two candidates the
    one nearer to [x], the even one on a tie. *)
Fixpoint shortest (fuel : nat) (x : number) (r : Z * Z) (n0 k : Z) : Z * Z * Z :=
  let '(a, b) := scale10 r (k - n0) in
  let lo := a / b in
  let rem := a mod b in
  let '(hi, nhi) := if lo + 1 =? 10 ^ k then (10 ^ (k - 1), n0 + 1) else (lo + 1, n0) in
  let ok_lo := eqb (of_decimal false lo (n0 - k)) x in
  let ok_hi := eqb (of_decimal false hi (nhi - k)) x in
  let up := (b <? 2 * rem) || ((b =? 2 * rem) && Z.odd lo) in
  if ok_lo && ok_hi then (if up then (hi, nhi, k) else (lo, n0, k))
  else if ok_lo then (lo, n0, k)
  else if ok_hi then (hi, nhi, k)
  else
    match fuel with
    | O => (lo, n0, k)
    | S f => shortest f x r n0 (k + 1)
    end.

Definition zeros (n : Z) : string := repeat_char "0" (Z.to_nat n).

Definition format (digits : string) (k n : Z) : string :=
  if (-5 <=? n) && (n <=? 21) then
    if k <=? n then digits ++ zeros (n - k)
    else if 0 <? n then
      substring 0 (Z.to_nat n) digits ++ "." ++ substring (Z.to_nat n) (Z.to_nat (k - n)) digits
    else "0." ++ zeros (- n) ++ digits
  else
    let sign := if n <? 0 then "-" else "+" in
    let ex := decimal (Z.abs (n - 1)) in
    if k =? 1 then digits ++ "e" ++ sign ++ ex
    else substring 0 1 digits ++ "." ++ substring 1 (Z.to_nat (k - 1)) digits ++ "e" ++ sign ++ ex.

Definition toString (x : number) : string :=
  match x with
  | S754_nan => "NaN"
  | S754_zero _ => "0"
  | S754_infinity neg => if neg then "-Infinity" else "Infinity"
  | S754_finite neg m e =>
      let r := fraction m e in
      let n0 := decimal_exponent 8 r (exponent_estimate m e) in
      let '(s, n, k) := shortest 16 (S754_finite false m e) r n0 1 in
      (if neg then "-" else EmptyString) ++ format (decimal s) k n
  end.

End JSNumber.

(** ** Values, truthiness and objects *)

Module JSValue.
Import JSString JSNumber.

#[local] Set Warnings "-register-all".

Inductive value : Type :=
| VUndefined
| VNull
| VBool (b : bool)
| VNum (x : number)
| VStr (s : string)
| VArr (l : list value)
| VObj (o : list (string * value)).

(** Induction on values that reaches the elements of arrays and the
    property values of objects. *)
Section ValueInduction.
Variable P : value -> Prop.
Hypothesis Hundef : P VUndefined.
Hypothesis Hnull : P VNull.
Hypothesis Hbool : forall b, P (VBool b).
Hypothesis Hnum : forall x, P (VNum x).
Hypothesis Hstr : forall s, P (VStr s).
Hypothesis Harr : forall l, Forall P l -> P (VArr l).
Hypothesis Hobj : forall o, Forall (fun kv => P (snd kv)) o -> P (VObj o).

Fixpoint value_nested_ind (v : value) : P v :=
  match v with
  | VUndefined => Hundef
  | VNull => Hnull
  | VBool b => Hbool b
  | VNum x => Hnum x
  | VStr s => Hstr s
  | VArr l =>
      Harr l
        ((fix go (l : list value) : Forall P l :=
            match l with
            | [] => Forall_nil P
            | x :: r => Forall_cons x (value_nested_ind x) (go r)
            end) l)
  | VObj o =>
      Hobj o
        ((fix go (o : list (string * value)) : Forall (fun kv => P (snd kv)) o :=
            match o with
            | [] => Forall_nil _
            | kv :: r => Forall_cons kv (value_nested_ind (snd kv)) (go r)
            end) o)
  end.
End ValueInduction.

(** Own properties, in property order. *)
Definition obj : Type := list (string * value).

Inductive Error : Type :=
| SyntaxError          (* JSON.parse on text that is not JSON *)
| TypeError            (* property read on null or undefined *)
| ServiceError (msg : string).  (* raised by the remote call *)

(** ToBoolean. *)
Definition truthy (v : value) : bool :=
  match v with
  | VUndefined | VNull => false
  | VBool b => b
  | VNum x => negb (is_zero x || is_nan x)
  | VStr s => negb (String.eqb s EmptyString)
  | VArr _ | VObj _ => true
  end.

(** [a || b]. *)
Definition or_else (a b : value) : value := if truthy a then a else b.

Fixpoint lookup (k : string) (o : obj) : option value :=
  match o with
  | [] => None
  | (k', v) :: r => if String.eqb k k' then Some v else lookup k r
  end.

(** [o.k] on an object; a property that is not there reads as undefined. *)
Definition get (o : obj) (k : string) : value :=
  match lookup k o with Some v => v | None => VUndefined end.

(** [v.k] for a name [k] that no prototype defines and that is neither
    an index nor ["length"]: only objects can have it. *)
Definition prop (v : value) (k : string) : value :=
  match v with VObj o => get o k | _ => VUndefined end.

(** The integer a property name denotes when it is an array index: a
    canonical numeral below 2^32 - 1. *)
Definition array_index (k : string) : option Z :=
  let l := chars k in
  match l with
  | [] => None
  | c :: r =>
      if forallb is_digit l && (negb (Ascii.eqb c "0") || match r with [] => true | _ => false end)
         && (digits_value l <=? 4294967294)
      then Some (digits_value l) else None
  end.

(** Property order: array indices ascending, then the other names in
    the order they were created. *)
Definition precedes (k k' : string) : bool :=
  match array_index k, array_index k' with
  | Some i, Some j => i <? j
  | Some _, None => true
  | None, _ => false
  end.

(** Define or overwrite property [k]; an existing property keeps its place. *)
Fixpoint set (k : string) (v : value) (o : obj) : obj :=
  match o with
  | [] => [(k, v)]
  | (k', v') :: r =>
      if String.eqb k k' then (k, v) :: r
      else if precedes k k' then (k, v) :: o
      else (k', v') :: set k v r
  end.

(** The object literal [{ k1: v1, ..., kn: vn }]. *)
Definition literal (kvs : list (string * value)) : obj :=
  fold_left (fun o kv => set (fst kv) (snd kv) o) kvs [].

(** [{ ...a, k1: v1, ..., kn: vn }] for an object [a]: the copy has the
    properties of [a] in their order, then the listed ones are set. *)
Definition spread (a : obj) (kvs : list (string * value)) : obj :=
  fold_left (fun o kv => set (fst kv) (snd kv) o) kvs a.

End JSValue.

(** ** JSON.parse and JSON.stringify *)

Module JSON.
Import JSString JSNumber JSValue.

Definition is_ws (c : ascii) : bool :=
  let n := code c in (n =? 32) || (n =? 9) || (n =? 10) || (n =? 13).

Fixpoint skip_ws (l : list ascii) : list ascii :=
  match l with
  | c :: r => if is_ws c then skip_ws r else l
  | [] => []
  end.

Definition hex_value (c : ascii) : option Z :=
  let n := code c in
  if (48 <=? n) && (n <=? 57) then Some (n - 48)
  else if (97 <=? n) && (n <=? 102) then Some (n - 87)
  else if (65 <=? n) && (n <=? 70) then Some (n - 55)
  else None.

Definition hex4 (a b c d : ascii) : option Z :=
  match hex_value a, hex_value b, hex_value c, hex_value d with
  | Some x, Some y, Some z, Some w => Some (((x * 16 + y) * 16 + z) * 16 + w)
  | _, _, _, _ => None
  end.

(** The UTF-8 bytes of a code point (a lone surrogate gets the three
    bytes of its value). *)
Definition utf8 (cp : Z) : list ascii :=
  if cp <? 128 then [char_of_code cp]
  else if cp <? 2048 then
    [char_of_code (192 + cp / 64); char_of_code (128 + cp mod 64)]
  else if cp <? 65536 then
    [char_of_code (224 + cp / 4096); char_of_code (128 + (cp / 64) mod 64);
     char_of_code (128 + cp mod 64)]
  else
    [char_of_code (240 + cp / 262144); char_of_code (128 + (cp / 4096) mod 64);
     char_of_code (128 + (cp / 64) mod 64); char_of_code (128 + cp mod 64)].

(** The characters of a JSON string after its opening quote, up to the
    closing one; [acc] holds what was read, newest first. *)
Fixpoint parse_string (l : list ascii) (acc : list ascii) : option (string * list ascii) :=
  match l with
  | [] => None
  | c :: r =>
      if Ascii.eqb c dquote then Some (of_chars (rev acc), r)
      else if Ascii.eqb c "\" then
        match r with
        | [] => None
        | e :: r1 =>
            if Ascii.eqb e dquote then parse_string r1 (e :: acc)
            else if Ascii.eqb e "\" then parse_string r1 (e :: acc)
            else if Ascii.eqb e "/" then parse_string r1 (e :: acc)
            else if Ascii.eqb e "b" then parse_string r1 (char_of_code 8 :: acc)
            else if Ascii.eqb e "f" then parse_string r1 (char_of_code 12 :: acc)
            else if Ascii.eqb e "n" then parse_string r1 (char_of_code 10 :: acc)
            else if Ascii.eqb e "r" then parse_string r1 (char_of_code 13 :: acc)
            else if Ascii.eqb e "t" then parse_string r1 (char_of_code 9 :: acc)
            else if Ascii.eqb e "u" then
              match r1 with
              | h1 :: h2 :: h3 :: h4 :: r2 =>
                  match hex4 h1 h2 h3 h4 with
                  | None => None
                  | Some u =>
                      let lone := parse_string r2 (rev (utf8 u) ++ acc) in
                      if (55296 <=? u) && (u <=? 56319) then
                        match r2 with
                        | b :: v :: g1 :: g2 :: g3 :: g4 :: r3 =>
                            if Ascii.eqb b "\" && Ascii.eqb v "u" then
                              match hex4 g1 g2 g3 g4 with
                              | Some w =>
                                  if (56320 <=? w) && (w <=? 57343) then
                                    parse_string r3
                                      (rev (utf8 (65536 + (u - 55296) * 1024 + (w - 56320))) ++ acc)
                                  else lone
                              | None => lone
                              end
                            else lone
                        | _ => lone
                        end
                      else lone
                  end
              | _ => None
              end
            else None
        end
      else if code c <? 32 then None
      else parse_string r (c :: acc)
  end.

Definition is_number_char (c : ascii) : bool :=
  is_digit c || Ascii.eqb c "-" || Ascii.eqb c "+" || Ascii.eqb c "."
  || Ascii.eqb c "e" || Ascii.eqb c "E".

(** The Number a complete JSON number token denotes: an optional minus
    sign, an integer part that is 0 or starts with a digit other than 0,
    an optional fraction (a point and digits) and an optional
    exponent (e or E, an optional sign, and digits). *)
Definition number_token (tok : list ascii) : option number :=
  let '(neg, r) :=
    match tok with
    | "-"%char :: r => (true, r)
    | _ => (false, tok)
    end in
  let '(ip, r1) := span is_digit r in
  let int_ok :=
    match ip with
    | [] => false
    | [_] => true
    | c :: _ => negb (Ascii.eqb c "0")
    end in
  let frac :=
    match r1 with
    | "."%char :: r' =>
        match span is_digit r' with
        | ([], _) => None
        | (fp, r2) => Some (fp, r2)
        end
    | _ => Some ([], r1)
    end in
  match int_ok, frac with
  | true, Some (fp, r2) =>
      let ex :=
        match r2 with
        | [] => Some 0
        | c :: r' =>
            if Ascii.eqb c "e" || Ascii.eqb c "E" then
              let '(eneg, r'') :=
                match r' with
                | "+"%char :: t => (false, t)
                | "-"%char :: t => (true, t)
                | _ => (false, r')
                end in
              match span is_digit r'' with
              | (d :: es, []) =>
                  Some (if eneg then - digits_value (d :: es) else digits_value (d :: es))
              | _ => None
              end
            else None
        end in
      match ex with
      | Some x => Some (of_decimal neg (digits_value (ip ++ fp)) (x - Z.of_nat (List.length fp)))
      | None => None
      end
  | _, _ => None
  end.

(** A JSON number at the front of [l]: the run of number characters there
    must be one number token (a number cannot be followed by another
    number character in JSON text). *)
Definition parse_number (l : list ascii) : option (value * list ascii) :=
  let '(tok, r) := span is_number_char l in
  match number_token tok with
  | Some x => Some (VNum x, r)
  | None => None
  end.

(** Recursive descent over the text; every call spends one unit of [fuel]. *)
Fixpoint parse_value (fuel : nat) (l : list ascii) {struct fuel} : option (value * list ascii) :=
  match fuel with
  | O => None
  | S f =>
      match skip_ws l with
      | [] => None
      | c :: r =>
          if Ascii.eqb c "{" then
            match skip_ws r with
            | c' :: r' => if Ascii.eqb c' "}" then Some (VObj [], r') else parse_members f r []
            | [] => None
            end
          else if Ascii.eqb c "[" then
            match skip_ws r with
            | c' :: r' => if Ascii.eqb c' "]" then Some (VArr [], r') else parse_elements f r []
            | [] => None
            end
          else if Ascii.eqb c dquote then
            match parse_string r [] with
            | Some (s, r') => Some (VStr s, r')
            | None => None
            end
          else
            match starts_with (chars "null") (c :: r),
                  starts_with (chars "true") (c :: r),
                  starts_with (chars "false") (c :: r) with
            | Some r', _, _ => Some (VNull, r')
            | _, Some r', _ => Some (VBool true, r')
            | _, _, Some r' => Some (VBool false, r')
            | None, None, None => parse_number (c :: r)
            end
      end
  end

(** The elements of an array after ['['] or [','], up to [']']. *)
with parse_elements (fuel : nat) (l : list ascii) (acc : list value) {struct fuel}
  : option (value * list ascii) :=
  match fuel with
  | O => None
  | S f =>
      match parse_value f l with
      | None => None
      | Some (v, r) =>
          match skip_ws r with
          | c :: r' =>
              if Ascii.eqb c "," then parse_elements f r' (v :: acc)
              else if Ascii.eqb c "]" then Some (VArr (rev (v :: acc)), r')
              else None
          | [] => None
          end
      end
  end

(** The members of an object after ['{'] or [','], up to ['}']; a
    repeated name overwrites the earlier value. *)
with parse_members (fuel : nat) (l : list ascii) (acc : obj) {struct fuel}
  : option (value * list ascii) :=
  match fuel with
  | O => None
  | S f =>
      match skip_ws l with
      | q :: r0 =>
          if Ascii.eqb q dquote then
            match parse_string r0 [] with
            | None => None
            | Some (k, r1) =>
                match skip_ws r1 with
                | colon :: r2 =>
                    if Ascii.eqb colon ":" then
                      match parse_value f r2 with
                      | None => None
                      | Some (v, r3) =>
                          match skip_ws r3 with
                          | c :: r' =>
                              if Ascii.eqb c "," then parse_members f r' (set k v acc)
                              else if Ascii.eqb c "}" then Some (VObj (set k v acc), r')
                              else None
                          | [] => None
                          end
                      end
                    else None
                | [] => None
                end
            end
          else None
      | [] => None
      end
  end.

(** [JSON.parse(text)]: the value, or a SyntaxError. *)
Definition parse (text : string) : Error + value :=
  match parse_value (S (String.length text)) (chars text) with
  | Some (v, r) => match skip_ws r with [] => inr v | _ => inl SyntaxError end
  | None => inl SyntaxError
  end.

(** *** JSON.stringify *)

Definition hex_digit (n : Z) : ascii :=
  if n <? 10 then char_of_code (48 + n) else char_of_code (87 + n).

(** QuoteJSONString, character by character. *)
Definition quote_char (c : ascii) : list ascii :=
  let n := code c in
  if n =? 8 then chars "\b"
  else if n =? 9 then chars "\t"
  else if n =? 10 then chars "\n"
  else if n =? 12 then chars "\f"
  else if n =? 13 then chars "\r"
  else if n =? 34 then ["\"%char; dquote]
  else if n =? 92 then chars "\\"
  else if n <? 32 then chars "\u00" ++ [hex_digit (n / 16); hex_digit (n mod 16)]
  else [c].

(** The code unit of a surrogate that stands alone: the bytes ED,
    A0..BF, 80..BF. *)
Definition surrogate (a b c : ascii) : option Z :=
  if (code a =? 237) && (160 <=? code b) && (code b <=? 191)
     && (128 <=? code c) && (code c <=? 191)
  then Some (53248 + (code b - 128) * 64 + (code c - 128))
  else None.

(** UnicodeEscape: [\u] and four hexadecimal digits in lower case. *)
Definition unicode_escape (u : Z) : list ascii :=
  chars "\u" ++ [hex_digit (u / 4096); hex_digit ((u / 256) mod 16);
                 hex_digit ((u / 16) mod 16); hex_digit (u mod 16)].

(** QuoteJSONString over the code points of the string: a surrogate
    that stands alone is written as its escape, every other code point
    character by character. *)
Fixpoint quote_chars (l : list ascii) : list ascii :=
  match l with
  | [] => []
  | a :: r =>
      match r with
      | b :: c :: r' =>
          match surrogate a b c with
          | Some u => unicode_escape u ++ quote_chars r'
          | None => quote_char a ++ quote_chars r
          end
      | _ => quote_char a ++ quote_chars r
      end
  end.

Definition quote (s : string) : list ascii :=
  dquote :: quote_chars (chars s) ++ [dquote].

(** SerializeJSONProperty without replacer or indentation.  In an array
    undefined is written as null; in an object a property whose value is
    undefined is left out; a number that is not finite is written as null. *)
Fixpoint print (v : value) : list ascii :=
  match v with
  | VUndefined | VNull => chars "null"
  | VBool b => if b then chars "true" else chars "false"
  | VNum x => if is_finite x then chars (toString x) else chars "null"
  | VStr s => quote s
  | VArr l =>
      "["%char ::
      (fix elements (l : list value) : list ascii :=
         match l with
         | [] => []
         | [x] => print x
         | x :: r => print x ++ ","%char :: elements r
         end) l ++ ["]"%char]
  | VObj o =>
      "{"%char ::
      (fix members (o : list (string * value)) (first : bool) : list ascii :=
         match o with
         | [] => []
         | (k, x) :: r =>
             match x with
             | VUndefined => members r first
             | _ => (if first then [] else [","%char])
                    ++ quote k ++ ":"%char :: print x ++ members r false
             end
         end) o true ++ ["}"%char]
  end.

(** [JSON.stringify(v)]; undefined at the top has no text. *)
Definition stringify (v : value) : option string :=
  match v with
  | VUndefined => None
  | _ => Some (of_chars (print v))
  end.

End JSON.

(** ** Date: the calendar day of a time value *)

Module JSDate.
Import JSString.

Definition msPerDay : Z := 86400000.

(** Year, month (1..12) and day of the month of day number [z], counted
    from 1970-01-01, in the proleptic Gregorian calendar.  Years are
    taken to start in March so that the leap day comes last; 146097 is
    the number of days of a 400-year cycle. *)
Definition civil_from_days (z : Z) : Z * Z * Z :=
  let z := z + 719468 in
  let era := z / 146097 in
  let doe := z - era * 146097 in
  let yoe := (doe - doe / 1460 + doe / 36524 - doe / 146096) / 365 in
  let doy := doe - (365 * yoe + yoe / 4 - yoe / 100) in
  let mp := (5 * doy + 2) / 153 in
  let d := doy - (153 * mp + 2) / 5 + 1 in
  let m := if mp <? 10 then mp + 3 else mp - 9 in
  (yoe + era * 400 + (if m <=? 2 then 1 else 0), m, d).

Definition year_string (y : Z) : string :=
  if (0 <=? y) && (y <=? 9999) then pad 4 y
  else (if y <? 0 then "-" else "+") ++ pad 6 (Z.abs y).

(** [new Date(t).toISOString()] for a time value [t] in milliseconds
    since the epoch: always the UTC fields. *)
Definition toISOString (t : Z) : string :=
  let '(y, m, d) := civil_from_days (t / msPerDay) in
  let ms := t mod msPerDay in
  year_string y ++ "-" ++ pad 2 m ++ "-" ++ pad 2 d ++ "T"
  ++ pad 2 (ms / 3600000) ++ ":" ++ pad 2 ((ms / 60000) mod 60) ++ ":"
  ++ pad 2 ((ms / 1000) mod 60) ++ "." ++ pad 3 (ms mod 1000) ++ "Z".

End JSDate.

(** ** types.ts *)

Module Types.
Import JSValue.

Inductive View : Type := scan | history | edit | settings.

Inductive Category : Type :=
| FOOD | TRANSPORT | SHOPPING | UTILITIES | ENTERTAINMENT | OTHER.

Definition Category_value (c : Category) : string :=
  match c with
  | FOOD => "Food & Dining"
  | TRANSPORT => "Transport"
  | SHOPPING => "Shopping"
  | UTILITIES => "Utilities"
  | ENTERTAINMENT => "Entertainment"
  | OTHER => "Other"
  end.

(** [Object.values(Category)]. *)
Definition Category_values : list string :=
  List.map Category_value [FOOD; TRANSPORT; SHOPPING; UTILITIES; ENTERTAINMENT; OTHER].

(** [xs[i]] on an array of strings. *)
Definition index (xs : list string) (i : nat) : value :=
  match nth_error xs i with Some s => VStr s | None => VUndefined end.

End Types.

(** ** services/geminiService.ts *)

Module GeminiService.
Import JSString JSNumber JSValue JSDate Types.

Inductive SchemaType : Type := STRING | NUMBER.

Record Schema : Type := {
  properties : list (string * SchemaType);
  required : list string
}.

Definition receiptSchema : Schema := {|
  properties := [("date", STRING); ("merchant", STRING); ("total", NUMBER);
                 ("category", STRING); ("paymentSource", STRING)];
  required := ["date"; "merchant"; "total"; "category"]
|}.

(** What [generateContent] is called with. *)
Record Request : Type := {
  model : string;
  mimeType : string;
  data : value;
  text : string;
  responseMimeType : string;
  responseSchema : Schema
}.

(** The remote call: it throws, or answers with a response whose [text]
    is a string or undefined. *)
Definition Service : Type := Request -> Error + option string.

(** [base64Image.split(',')[1] || base64Image]. *)
Definition inlineData (base64Image : string) : value :=
  or_else (index (split "," base64Image) 1) (VStr base64Image).

Definition request (base64Image : string) : Request := {|
  model := "gemini-3-flash-preview";
  mimeType := "image/jpeg";
  data := inlineData base64Image;
  text := "Analyze this receipt image and extract the key details in JSON format. If information is missing, provide your best guess or an empty string.";
  responseMimeType := "application/json";
  responseSchema := receiptSchema
|}.

(** [new Date().toISOString().split('T')[0]] at time [now]. *)
Definition today (now : Z) : value := index (split "T" (toISOString now)) 0.

(** The object literal returned from the parsed [result]; reading a
    property of null throws. *)
Definition defaults (result : value) (now : Z) : Error + obj :=
  match result with
  | VNull | VUndefined => inl TypeError
  | _ =>
      inr (literal
        [("date", or_else (prop result "date") (today now));
         ("merchant", or_else (prop result "merchant") (VStr "Unknown Merchant"));
         ("total", or_else (prop result "total") (VNum zero));
         ("category", or_else (prop result "category") (VStr "Other"));
         ("paymentSource", or_else (prop result "paymentSource") (VStr "Unknown"))])
  end.

(** [response.text || '{}']. *)
Definition response_text (t : option string) : string :=
  match t with
  | Some s => if String.eqb s EmptyString then "{}" else s
  | None => "{}"
  end.

(** [processReceipt(base64Image)], given the remote service and the
    clock: [inr] is the resolved value, [inl] the rejection.  The catch
    block logs the error and throws it again. *)
Definition processReceipt (ai : Service) (now : Z) (base64Image : string) : Error + obj :=
  match ai (request base64Image) with
  | inl e => inl e
  | inr t =>
      match JSON.parse (response_text t) with
      | inl e => inl e
      | inr result => defaults result now
      end
  end.

End GeminiService.

(** ** The values the fields of the form hand over

    An input element sanitises its text, as the HTML standard lays
    down for its type, before [e.target.value] is read: a text field
    drops line breaks, a number field and a date field hand over the
    empty string unless their text is a valid floating-point number or
    a valid date string. *)

Module Input.
Import JSString.

(** [<input type="text">]. *)
Definition text_value (typed : string) : string :=
  of_chars (filter (fun c => negb ((code c =? 10) || (code c =? 13))) (chars typed)).

(** A valid floating-point number: an optional minus sign; then digits,
    or a point and digits, or both; then, optionally, an exponent: e or
    E, an optional sign, and digits. *)
Definition valid_number (s : string) : bool :=
  let l := chars s in
  let r0 := match l with c :: r => if Ascii.eqb c "-" then r else l | [] => l end in
  let '(ip, r1) := span is_digit r0 in
  let frac :=
    match r1 with
    | c :: r =>
        if Ascii.eqb c "." then
          match span is_digit r with
          | ([], _) => None
          | (_ :: _, r2) => Some (true, r2)
          end
        else Some (false, r1)
    | [] => Some (false, r1)
    end in
  match frac with
  | None => false
  | Some (fraction, r2) =>
      (match ip with [] => fraction | _ :: _ => true end)
      && match r2 with
         | [] => true
         | c :: r =>
             (Ascii.eqb c "e" || Ascii.eqb c "E")
             && match span is_digit
                        (match r with
                         | sign :: t => if Ascii.eqb sign "-" || Ascii.eqb sign "+" then t else r
                         | [] => r
                         end) with
                | (_ :: _, []) => true
                | _ => false
                end
         end
  end.

(** [<input type="number">]. *)
Definition number_value (typed : string) : string :=
  if valid_number typed then typed else EmptyString.

Definition days_in_month (year month : Z) : Z :=
  if month =? 2 then
    if (year mod 400 =? 0) || ((year mod 4 =? 0) && negb (year mod 100 =? 0)) then 29 else 28
  else if (month =? 4) || (month =? 6) || (month =? 9) || (month =? 11) then 30
  else 31.

(** A valid date string: a year of four or more digits that is not
    zero, a month and a day of two digits each that exist in that
    year, with a hyphen on either side of the month. *)
Definition valid_date (s : string) : bool :=
  let '(ys, r) := span is_digit (chars s) in
  match r with
  | [h1; m1; m2; h2; d1; d2] =>
      Ascii.eqb h1 "-" && is_digit m1 && is_digit m2
      && Ascii.eqb h2 "-" && is_digit d1 && is_digit d2
      && (4 <=? Z.of_nat (List.length ys)) && (0 <? digits_value ys)
      && (1 <=? digits_value [m1; m2]) && (digits_value [m1; m2] <=? 12)
      && (1 <=? digits_value [d1; d2])
      && (digits_value [d1; d2] <=? days_in_month (digits_value ys) (digits_value [m1; m2]))
  | _ => false
  end.

(** [<input type="date">]. *)
Definition date_value (typed : string) : string :=
  if valid_date typed then typed else EmptyString.

End Input.

(** ** components/ReceiptEdit.tsx *)

Module ReceiptEdit.
Import JSString JSNumber JSValue JSDate Types Input.

(** [v.toString()] for a value that is not null or undefined, and
    ToString of an array element.  No value here is a function, so an
    object with an own [toString] property cannot be converted. *)
Fixpoint toString (v : value) : Error + string :=
  match v with
  | VUndefined => inr "undefined"
  | VNull => inr "null"
  | VBool b => inr (if b then "true" else "false")
  | VNum x => inr (JSNumber.toString x)
  | VStr s => inr s
  | VObj o =>
      match lookup "toString" o with
      | Some _ => inl TypeError
      | None => inr "[object Object]"
      end
  | VArr l =>
      (fix join (l : list value) (first : bool) : Error + string :=
         match l with
         | [] => inr EmptyString
         | x :: r =>
             let piece :=
               match x with
               | VUndefined | VNull => inr EmptyString
               | _ => toString x
               end in
             match piece, join r false with
             | inr a, inr b => inr ((if first then EmptyString else ",") ++ a ++ b)%string
             | inl e, _ => inl e
             | _, inl e => inl e
             end
         end) l true
  end.

(** The local state of the form.  [total] is always a string; the other
    fields hold what the draft held, or the text the user typed. *)
Record FormData : Type := {
  date : value;
  merchant : value;
  total : string;
  category : value;
  paymentSource : value
}.

(** The initial state, from [initialData] at time [now]; the
    initialiser throws when [initialData.total.toString()] does. *)
Definition initialFormData (initialData : obj) (now : Z) : Error + FormData :=
  let t :=
    match get initialData "total" with
    | VUndefined | VNull => inr VUndefined
    | v => match toString v with inr s => inr (VStr s) | inl e => inl e end
    end in
  match t with
  | inl e => inl e
  | inr t =>
      inr {|
        date := or_else (get initialData "date") (GeminiService.today now);
        merchant := or_else (get initialData "merchant") (VStr EmptyString);
        total := match or_else t (VStr EmptyString) with VStr s => s | _ => EmptyString end;
        category := or_else (get initialData "category") (VStr (Category_value OTHER));
        paymentSource := or_else (get initialData "paymentSource") (VStr "Credit Card")
      |}
  end.

(** The [onChange] handlers: [setFormData({...formData, field: e.target.value})].
    A change carries the text of the field after the user typed,
    pasted or picked, and [e.target.value] is what the field makes of
    it; the category comes from a select over [Object.values(Category)]. *)
Inductive Change : Type :=
| ChangeMerchant (text : string)
| ChangeTotal (text : string)
| ChangeDate (text : string)
| ChangeCategory (c : Category)
| ChangeSource (text : string).

Definition onChange (formData : FormData) (c : Change) : FormData :=
  match c with
  | ChangeMerchant s =>
      {| date := date formData; merchant := VStr (text_value s); total := total formData;
         category := category formData; paymentSource := paymentSource formData |}
  | ChangeTotal s =>
      {| date := date formData; merchant := merchant formData; total := number_value s;
         category := category formData; paymentSource := paymentSource formData |}
  | ChangeDate s =>
      {| date := VStr (date_value s); merchant := merchant formData; total := total formData;
         category := category formData; paymentSource := paymentSource formData |}
  | ChangeCategory c =>
      {| date := date formData; merchant := merchant formData; total := total formData;
         category := VStr (Category_value c); paymentSource := paymentSource formData |}
  | ChangeSource s =>
      {| date := date formData; merchant := merchant formData; total := total formData;
         category := category formData; paymentSource := VStr (text_value s) |}
  end.

(** The record [handleSubmit] passes to [onSave], at time [now]
    ([Date.now()]). *)
Definition handleSubmit (initialData : obj) (formData : FormData) (now : Z) : obj :=
  literal
    [("id", or_else (get initialData "id") (VStr (integer now)));
     ("date", date formData);
     ("merchant", merchant formData);
     ("total", VStr (total formData));
     ("category", category formData);
     ("paymentSource", paymentSource formData);
     ("total", or_else (VNum (parseFloat (total formData))) (VNum zero));
     ("status", VStr "pending");
     ("imageUrl", get initialData "imageUrl")].

End ReceiptEdit.

(** ** components/HistoryView.tsx

    The call of the component function on [receipts]: the texts and
    marks it computes for the elements it returns, or the exception
    that leaves the call.  How React lays the elements out and draws
    them is left out. *)

Module HistoryView.
Import JSString JSNumber JSValue.

(** ToPrimitive: an array or an object is converted through its
    [toString]. *)
Definition to_primitive (v : value) : Error + value :=
  match v with
  | VArr _ | VObj _ =>
      match ReceiptEdit.toString v with
      | inr s => inr (VStr s)
      | inl e => inl e
      end
  | _ => inr v
  end.

(** ToString of a primitive. *)
Definition primitive_text (v : value) : string :=
  match ReceiptEdit.toString v with inr s => s | inl _ => EmptyString end.

(** ToNumber of undefined, null, a boolean or a number. *)
Definition to_number (v : value) : number :=
  match v with
  | VNull => zero
  | VBool b => if b then of_Z 1 else zero
  | VNum x => x
  | _ => NaN
  end.

(** [a + b]: concatenation when either primitive is a string, the
    binary64 sum otherwise. *)
Definition plus (a b : value) : Error + value :=
  match to_primitive a with
  | inl e => inl e
  | inr pa =>
      match to_primitive b with
      | inl e => inl e
      | inr pb =>
          match pa, pb with
          | VStr _, _ | _, VStr _ => inr (VStr (primitive_text pa ++ primitive_text pb))
          | _, _ => inr (VNum (SFadd prec emax (to_number pa) (to_number pb)))
          end
      end
  end.

(** [receipts.reduce((sum, r) => sum + r.total, 0)]. *)
Definition totalSpent (receipts : list obj) : Error + value :=
  fold_left
    (fun acc r => match acc with inl e => inl e | inr sum => plus sum (get r "total") end)
    receipts (inr (VNum zero)).

(** [x.toFixed(f)] for [0 <= f <= 100]: the nearest multiple of
    [10^-f], the larger of two equally near, written with [f] digits
    after the point; a Number that is not finite, or is 10^21 or more
    in size, is written as [toString] writes it. *)
Definition toFixed (f : Z) (x : number) : string :=
  match x with
  | S754_nan | S754_infinity _ => toString x
  | S754_zero _ | S754_finite _ _ _ =>
      let sign := if is_negative x then "-" else EmptyString in
      let '(a, b) := match x with S754_finite _ m e => fraction m e | _ => (0, 1) end in
      if 10 ^ 21 * b <=? a then
        match x with
        | S754_finite _ m e => sign ++ toString (S754_finite false m e)
        | _ => toString x
        end
      else
        let n := (2 * 10 ^ f * a + b) / (2 * b) in
        let digits := pad (Z.to_nat (f + 1)) n in
        let k := String.length digits in
        if f =? 0 then sign ++ digits
        else sign ++ substring 0 (k - Z.to_nat f) digits ++ "."
                  ++ substring (k - Z.to_nat f) (Z.to_nat f) digits
  end.

(** [v.toFixed(2)]: only a Number has the method. *)
Definition toFixed2 (v : value) : Error + string :=
  match v with
  | VNum x => inr (toFixed 2 x)
  | _ => inl TypeError
  end.

(** The mark of the status column: [receipt.status === 'synced']. *)
Inductive Mark : Type := Synced | PendingSync.

Definition mark (r : obj) : Mark :=
  match get r "status" with
  | VStr s => if String.eqb s "synced" then Synced else PendingSync
  | _ => PendingSync
  end.

(** The key of a row, [key={receipt.id}]: undefined is no key, any
    other value is turned into a string when the element is made. *)
Definition key (r : obj) : Error + option string :=
  match get r "id" with
  | VUndefined => inr None
  | v =>
      match to_primitive v with
      | inl e => inl e
      | inr p => inr (Some (primitive_text p))
      end
  end.

(** One row of the table: its key, the values put in the date,
    merchant and category cells, the text of the total and the mark. *)
Record TableRow : Type := {
  row_key : option string;
  cell_date : value;
  cell_merchant : value;
  cell_total : string;
  cell_category : value;
  cell_status : Mark
}.

Definition row (r : obj) : Error + TableRow :=
  match toFixed2 (get r "total") with
  | inl e => inl e
  | inr t =>
      match key r with
      | inl e => inl e
      | inr k =>
          inr {| row_key := k; cell_date := get r "date"; cell_merchant := get r "merchant";
                 cell_total := t; cell_category := get r "category"; cell_status := mark r |}
      end
  end.

Fixpoint rows (receipts : list obj) : Error + list TableRow :=
  match receipts with
  | [] => inr []
  | r :: rest =>
      match row r with
      | inl e => inl e
      | inr x => match rows rest with inl e => inl e | inr xs => inr (x :: xs) end
      end
  end.

(** What the view shows: the total of the header, and the table, or
    the "No receipts yet" panel ([None]) when the list is empty. *)
Record Shown : Type := {
  header_total : string;
  table : option (list TableRow)
}.

Definition view (receipts : list obj) : Error + Shown :=
  match totalSpent receipts with
  | inl e => inl e
  | inr sum =>
      match toFixed2 sum with
      | inl e => inl e
      | inr h =>
          match receipts with
          | [] => inr {| header_total := h; table := None |}
          | _ :: _ =>
              match rows receipts with
              | inl e => inl e
              | inr t => inr {| header_total := h; table := Some t |}
              end
          end
      end
  end.

End HistoryView.

(** ** App.tsx

    An event is taken together with the asynchronous work its handler
    starts (the awaited extraction, the two-second timer of the sync):
    nothing else happens in between.  Effects run once per render, and
    the storage slot has room for whatever is written to it.  Of what
    the views draw, the calls that can throw are kept: the call of the
    list view on the records the process loads, and the [useState]
    argument of the edit form on a draft that is new. *)

Module App.
Import JSString JSNumber JSValue JSDate Types.
Import ReceiptEdit.

(** The state of [App], with the local state of the [ReceiptEdit] it
    renders ([form] is [None] while no edit form is mounted). *)
Record State : Type := {
  activeView : View;
  receipts : list obj;
  isScanning : bool;
  isProcessing : bool;
  currentEdit : option obj;
  form : option FormData
}.

(** The state with what lies outside the component: the
    ['scansheet_data'] slot of local storage and the alerts shown so
    far, newest first. *)
Record World : Type := {
  app : State;
  storage : option string;
  alerts : list string
}.

Inductive Outcome : Type :=
| Running (w : World)
| Threw (e : Error)             (* an exception left an effect or a render *)
| LoadedOther (v : value).      (* the stored JSON is not an array of objects *)

Definition initial : State := {|
  activeView := history; receipts := []; isScanning := false;
  isProcessing := false; currentEdit := None; form := None
|}.

Definition array (rs : list obj) : value := VArr (List.map VObj rs).

(** The second effect: [localStorage.setItem('scansheet_data', JSON.stringify(receipts))]. *)
Definition persist (rs : list obj) : option string := JSON.stringify (array rs).

(** The first effect: what [getItem] returned, and then [inr None] when
    [setReceipts] is not called, [inr (Some v)] when it is called with
    [v], [inl e] when [JSON.parse] throws. *)
Definition load (saved : option string) : Error + option value :=
  match saved with
  | None => inr None
  | Some s =>
      if String.eqb s EmptyString then inr None
      else match JSON.parse s with
           | inl e => inl e
           | inr v => inr (Some v)
           end
  end.

Fixpoint objects (l : list value) : option (list obj) :=
  match l with
  | [] => Some []
  | VObj o :: r => match objects r with Some os => Some (o :: os) | None => None end
  | _ :: _ => None
  end.

(** Start of the process on a given slot content: the first render,
    on the empty list; then both effects; then, when the first effect
    called [setReceipts], the render of the list view on the loaded
    list, which throws when the call of [HistoryView] does, and the
    second effect again. *)
Definition start (slot : option string) : Outcome :=
  match load slot with
  | inl e => Threw e
  | inr None =>
      Running {| app := initial; storage := persist []; alerts := [] |}
  | inr (Some (VArr l)) =>
      match objects l with
      | Some rs =>
          match HistoryView.view rs with
          | inl e => Threw e
          | inr _ =>
              Running {| app := {| activeView := history; receipts := rs; isScanning := false;
                                   isProcessing := false; currentEdit := None; form := None |};
                         storage := persist rs; alerts := [] |}
          end
      | None => LoadedOther (VArr l)
      end
  | inr (Some v) => LoadedOther v
  end.

(** The render after a state change: the edit form is mounted while
    [activeView === 'edit' && currentEdit]; a new one is initialised
    from [currentEdit].  A form that stays mounted keeps its state: its
    [useState] argument is evaluated again and the value dropped, and
    on the draft the form was mounted on it returns as it did then
    ([FlowFacts.run_mounted]). *)
Definition render (s : State) (now : Z) : Error + State :=
  match activeView s, currentEdit s with
  | edit, Some d =>
      match form s with
      | Some f => inr s
      | None =>
          match initialFormData d now with
          | inl e => inl e
          | inr f =>
              inr {| activeView := activeView s; receipts := receipts s; isScanning := isScanning s;
                     isProcessing := isProcessing s; currentEdit := currentEdit s; form := Some f |}
          end
      end
  | _, _ =>
      inr {| activeView := activeView s; receipts := receipts s; isScanning := isScanning s;
             isProcessing := isProcessing s; currentEdit := currentEdit s; form := None |}
  end.

(** The render after [handleCapture], which can have replaced the draft
    under a form that stays mounted: the [useState] argument is
    evaluated on the draft of this render, and throws when
    [initialData.total.toString()] does. *)
Definition render_draft (s : State) (now : Z) : Error + State :=
  match activeView s, currentEdit s, form s with
  | edit, Some d, Some _ =>
      match initialFormData d now with
      | inl e => inl e
      | inr _ => render s now
      end
  | _, _, _ => render s now
  end.

(** [s.startsWith(p)]. *)
Definition is_prefix (p s : string) : bool :=
  match starts_with (chars p) (chars s) with Some _ => true | None => false end.

(** [handleCapture(base64)] with the awaited [processReceipt(base64)],
    given the remote service and the clock: the state and the alerts
    when it is done. *)
Definition handleCapture (s : State) (al : list string) (ai : GeminiService.Service)
    (now : Z) (base64 : string) : State * list string :=
  match GeminiService.processReceipt ai now base64 with
  | inr extractedData =>
      ({| activeView := edit; receipts := receipts s; isScanning := false;
          isProcessing := false;
          currentEdit := Some (spread extractedData
                                 [("imageUrl", VStr base64); ("id", VStr (integer now))]);
          form := form s |}, al)
  | inl _ =>
      ({| activeView := activeView s; receipts := receipts s; isScanning := false;
          isProcessing := false; currentEdit := currentEdit s; form := form s |},
       "Failed to analyze receipt. Please try again." :: al)
  end.

(** [handleFileUpload(file)] for a file of MIME type [type] that the
    reader turns into [dataUrl] ([None] when reading fails). *)
Definition handleFileUpload (s : State) (al : list string) (ai : GeminiService.Service)
    (now : Z) (type : string) (dataUrl : option string) : State * list string :=
  if negb (is_prefix "image/" type) then (s, "Please upload an image file." :: al)
  else
    match dataUrl with
    | Some base64 =>
        if String.eqb base64 EmptyString then (s, al) else handleCapture s al ai now base64
    | None => (s, al)
    end.

(** [saveReceipt(data)]. *)
Definition saveReceipt (s : State) (data : obj) : State :=
  {| activeView := history; receipts := data :: receipts s; isScanning := isScanning s;
     isProcessing := isProcessing s; currentEdit := None; form := form s |}.

(** The update [simulateSync] schedules:
    [prev.map(r => ({ ...r, status: 'synced' }))]. *)
Definition markAllSynced (prev : list obj) : list obj :=
  List.map (fun r => spread r [("status", VStr "synced")]) prev.

(** [simulateSync()] with its timer run to the end. *)
Definition simulateSync (s : State) (al : list string) : State * list string :=
  match receipts s with
  | [] => (s, al)
  | _ :: _ =>
      ({| activeView := activeView s; receipts := markAllSynced (receipts s);
          isScanning := isScanning s; isProcessing := false;
          currentEdit := currentEdit s; form := form s |},
       "Successfully synced with Google Sheets!" :: al)
  end.

Definition with_view (s : State) (v : View) : State :=
  {| activeView := v; receipts := receipts s; isScanning := isScanning s;
     isProcessing := isProcessing s; currentEdit := currentEdit s; form := form s |}.

Definition with_scanning (s : State) (b : bool) : State :=
  {| activeView := activeView s; receipts := receipts s; isScanning := b;
     isProcessing := isProcessing s; currentEdit := currentEdit s; form := form s |}.

Definition with_form (s : State) (f : option FormData) : State :=
  {| activeView := activeView s; receipts := receipts s; isScanning := isScanning s;
     isProcessing := isProcessing s; currentEdit := currentEdit s; form := f |}.

(** What can happen to the running application.  A capture carries the
    remote service it will talk to and the time on the clock, which
    stands still while the event is handled. *)
Inductive Event : Type :=
| TapSheet                       (* setActiveView('history') *)
| TapCamera                      (* setIsScanning(true) *)
| CancelCamera                   (* CameraView onCancel *)
| Capture (base64 : string) (ai : GeminiService.Service) (now : Z)   (* CameraView onCapture *)
| Upload (type : string) (dataUrl : option string) (ai : GeminiService.Service) (now : Z)
| Edit (c : Change)              (* a field of the form changes *)
| Done (now : Z)                 (* the form is submitted *)
| CancelEdit                     (* ReceiptEdit onCancel *)
| Sync                           (* HistoryView onSync, up to the timer *)
| TapSetup.                      (* the alert of the third tab *)

(** One event: the handler, the render that follows, and the second
    effect when [receipts] was replaced.  The list view is called in
    [start] only: on the records of a process that has started it
    returns at every later render ([RecordFacts.run_listable]). *)
Definition step (w : World) (ev : Event) : Outcome :=
  let s := app w in
  let shown (drawn : Error + State) (al : list string) (stored : bool) : Outcome :=
    match drawn with
    | inl e => Threw e
    | inr s'' =>
        Running {| app := s'';
                   storage := if stored then persist (receipts s'') else storage w;
                   alerts := al |}
    end in
  let finish (s' : State) (al : list string) (now : Z) (stored : bool) : Outcome :=
    shown (render s' now) al stored in
  match ev with
  | TapSheet => finish (with_view s history) (alerts w) 0 false
  | TapCamera => finish (with_scanning s true) (alerts w) 0 false
  | CancelCamera => finish (with_scanning s false) (alerts w) 0 false
  | Capture base64 ai now =>
      if isScanning s then
        let '(s', al) := handleCapture s (alerts w) ai now base64 in
        shown (render_draft s' now) al false
      else Running w
  | Upload type dataUrl ai now =>
      match activeView s with
      | history =>
          let '(s', al) := handleFileUpload s (alerts w) ai now type dataUrl in
          shown (render_draft s' now) al false
      | _ => Running w
      end
  | Edit c =>
      match form s with
      | Some f => finish (with_form s (Some (onChange f c))) (alerts w) 0 false
      | None => Running w
      end
  | Done now =>
      match form s, currentEdit s with
      | Some f, Some d => finish (saveReceipt s (handleSubmit d f now)) (alerts w) now true
      | _, _ => Running w
      end
  | CancelEdit =>
      match form s with
      | Some _ => finish (with_view s history) (alerts w) 0 false
      | None => Running w
      end
  | Sync =>
      match activeView s with
      | history =>
          let '(s', al) := simulateSync s (alerts w) in
          finish s' al 0 (match receipts s with [] => false | _ => true end)
      | _ => Running w
      end
  | TapSetup =>
      finish s ("Setting up Google Sheets OAuth integration..." :: alerts w) 0 false
  end.

(** A run: events in order, stopping at the first exception. *)
Fixpoint run (w : World) (evs : list Event) : Outcome :=
  match evs with
  | [] => Running w
  | ev :: r =>
      match step w ev with
      | Running w' => run w' r
      | o => o
      end
  end.

End App.

(** ** The browser interfaces behind the camera and the file reader *)

Module Browser.
Import JSString.

Definition alphabet : string :=
  "ABCDEFGHIJKLMNOPQRSTUVWXYZabcdefghijklmnopqrstuvwxyz0123456789+/".

(** The character of a six-bit group. *)
Definition sextet (n : Z) : ascii := nth (Z.to_nat n) (chars alphabet) "A"%char.

Definition octet (b : byte) : Z := Z.of_N (Byte.to_N b).

(** Base64 (RFC 4648) with padding. *)
Fixpoint base64 (bytes : list byte) : list ascii :=
  match bytes with
  | [] => []
  | [a] =>
      [sextet (octet a / 4); sextet (octet a mod 4 * 16); "="%char; "="%char]
  | [a; b] =>
      [sextet (octet a / 4); sextet (octet a mod 4 * 16 + octet b / 16);
       sextet (octet b mod 16 * 4); "="%char]
  | a :: b :: c :: rest =>
      sextet (octet a / 4) :: sextet (octet a mod 4 * 16 + octet b / 16)
      :: sextet (octet b mod 16 * 4 + octet c / 64) :: sextet (octet c mod 64)
      :: base64 rest
  end.

(** [canvas.toDataURL('image/jpeg', quality)] for a canvas of the given
    size, [encoded] being the JPEG file the encoder makes of its
    bitmap: a canvas without pixels gives ["data:,"]. *)
Definition toDataURL (width height : Z) (encoded : list byte) : string :=
  if (width =? 0) || (height =? 0) then "data:,"
  else "data:image/jpeg;base64," ++ of_chars (base64 encoded).

(** The result of [reader.readAsDataURL(file)] for a file with a type. *)
Definition readAsDataURL (type : string) (content : list byte) : string :=
  "data:" ++ type ++ ";base64," ++ of_chars (base64 content).

End Browser.

(** ** components/CameraView.tsx *)

Module CameraView.
Import JSString JSValue Browser.

Definition Track : Type := nat.

(** A media stream, as the list [getTracks()] returns. *)
Definition MediaStream : Type := list Track.

(** The state one render of the component sees. *)
Record Render : Type := {
  stream : option MediaStream;
  isInitializing : bool
}.

(** The video element: the size of its frames, zero by zero before
    the first one arrives, and the JPEG file the encoder of the browser
    makes of the frame it shows. *)
Record Video : Type := {
  videoWidth : Z;
  videoHeight : Z;
  frame : list byte
}.

(** The mounted component: the state of the latest render, the render
    in which the lifecycle effect ran (its dependency list is empty, so
    the first one), and [videoRef.current.srcObject]. *)
Record Camera : Type := {
  shown : Render;
  installed : Render;
  srcObject : option MediaStream
}.

Definition mount : Camera :=
  let first := {| stream := None; isInitializing := true |} in
  {| shown := first; installed := first; srcObject := None |}.

(** [startCamera()] once [getUserMedia] has settled: the component, the
    alerts, and whether [onCancel] was called. *)
Definition startCamera (access : Error + MediaStream) (c : Camera) (alerts : list string)
  : Camera * list string * bool :=
  match access with
  | inr mediaStream =>
      ({| shown := {| stream := Some mediaStream; isInitializing := false |};
          installed := installed c;
          srcObject := Some mediaStream |}, alerts, false)
  | inl _ => (c, "Please enable camera access to scan receipts." :: alerts, true)
  end.

(** The cleanup of the lifecycle effect, in the render [seen] that ran
    the effect: [stream?.getTracks().forEach(track => track.stop())].
    [stopped] lists the tracks that were stopped. *)
Definition cleanup (seen : Render) (stopped : list Track) : list Track :=
  match stream seen with
  | Some tracks => fold_left (fun acc track => track :: acc) tracks stopped
  | None => stopped
  end.

Definition unmount (c : Camera) (stopped : list Track) : list Track :=
  cleanup (installed c) stopped.

(** [capturePhoto()] while the component is mounted (both refs and
    the 2D context are there): the canvas takes the size of the video,
    the frame is drawn on it, and [onCapture] is called with the data
    URL of the canvas. *)
Definition capturePhoto (video : Video) : string :=
  toDataURL (videoWidth video) (videoHeight video) (frame video).

End CameraView.

(** ** Files dropped on the list view or chosen in its file input *)

Module Files.
Import JSString JSValue GeminiService App Browser.

(** A file: its type, and its bytes when they can be read. *)
Record File : Type := {
  type : string;
  content : option (list byte)
}.

(** [handleDrop] and [handleFileChange] of the list view:
    [onUpload(files[0])] when there is a first file, with the reader of
    [handleFileUpload] run to the end. *)
Definition onUpload (s : State) (al : list string) (ai : Service) (now : Z) (files : list File)
  : State * list string :=
  match files with
  | file :: _ =>
      handleFileUpload s al ai now (type file)
        (option_map (readAsDataURL (type file)) (content file))
  | [] => (s, al)
  end.

End Files.

(** ** Values that JSON text represents exactly *)

Module Exact.
Import JSString JSNumber JSValue JSON.

(** The decimal text of [x] is a JSON number that denotes [x] again. *)
Definition reads_back (x : number) : bool :=
  let t := chars (toString x) in
  forallb is_number_char t
  && match number_token t with Some y => eqb y x | None => false end.

Definition plain_key (k : string) : bool :=
  match array_index k with None => true | Some _ => false end.

Fixpoint distinct (ks : list string) : bool :=
  match ks with
  | [] => true
  | k :: r => negb (existsb (String.eqb k) r) && distinct r
  end.

(** No two surrogates that stand alone are next to each other as the
    halves of a pair would be: every string of the program is such,
    since a pair is represented by the four bytes of its code point. *)
Fixpoint paired (l : list ascii) : bool :=
  match l with
  | [] => true
  | a :: r =>
      match r with
      | b :: c :: d :: e :: f :: _ =>
          match surrogate a b c, surrogate d e f with
          | Some u, Some w => negb ((u <=? 56319) && (56320 <=? w)) && paired r
          | _, _ => paired r
          end
      | _ => paired r
      end
  end.

Definition paired_string (s : string) : bool := paired (chars s).

(** No undefined, no NaN, infinity or negative zero; the names of an
    object are distinct and none is an array index; the strings are
    [paired], as every string is. *)
Fixpoint exact (v : value) : bool :=
  match v with
  | VUndefined => false
  | VNull | VBool _ => true
  | VStr s => paired_string s
  | VNum x => is_finite x && reads_back x
  | VArr l => forallb exact l
  | VObj o =>
      forallb (fun kv => plain_key (fst kv) && paired_string (fst kv) && exact (snd kv)) o
      && distinct (List.map fst o)
  end.

Definition exact_record (r : obj) : bool := exact (VObj r).

(** The text [print] puts between the brackets of an array and between
    the braces of an object. *)
Definition elements_text : list value -> list ascii :=
  fix elements (l : list value) : list ascii :=
    match l with
    | [] => []
    | [x] => print x
    | x :: r => print x ++ ","%char :: elements r
    end.

Definition members_text : list (string * value) -> bool -> list ascii :=
  fix members (o : list (string * value)) (first : bool) : list ascii :=
    match o with
    | [] => []
    | (k, x) :: r =>
        match x with
        | VUndefined => members r first
        | _ => (if first then [] else [","%char])
               ++ quote k ++ ":"%char :: print x ++ members r false
        end
    end.

(** The text at [l] starts with the escape of a trailing surrogate. *)
Definition starts_low (l : list ascii) : bool :=
  match l with
  | b :: v :: g1 :: g2 :: g3 :: g4 :: _ =>
      Ascii.eqb b "\" && Ascii.eqb v "u"
      && match hex4 g1 g2 g3 g4 with
         | Some w => (56320 <=? w) && (w <=? 57343)
         | None => false
         end
  | _ => false
  end.

(** A number can end where [rest] begins. *)
Definition delimited (rest : list ascii) : Prop :=
  match rest with
  | [] => True
  | c :: _ => is_number_char c = false
  end.

(** What a printed value starts with. *)
Definition starts_value (l : list ascii) : Prop :=
  match l with
  | c :: _ => is_ws c = false /\ Ascii.eqb c "]" = false /\ Ascii.eqb c "}" = false
  | [] => False
  end.

(** The round trip of one value through [print] and [parse_value]. *)
Definition reparses (v : value) : Prop :=
  forall fuel rest,
    (List.length (print v) <= fuel)%nat -> delimited rest ->
    parse_value fuel (print v ++ rest) = Some (v, rest).

End Exact.

(** ** The calendar day *)

Module Calendar.
Import JSString JSDate.

(** [c] does not occur in [l]. *)
Definition free_of (c : ascii) (l : list ascii) : bool :=
  forallb (fun x => negb (Ascii.eqb x c)) l.

(** The ISO 8601 calendar day ([YYYY-MM-DD]) of time value [t] in UTC. *)
Definition utc_day (t : Z) : string :=
  let '(y, m, d) := civil_from_days (t / msPerDay) in
  year_string y ++ "-" ++ pad 2 m ++ "-" ++ pad 2 d.

(** The calendar day of [t] on a clock that runs [offset] minutes ahead
    of UTC: the day in the caller's local zone. *)
Definition local_day (t : Z) (offset : Z) : string :=
  utc_day (t + offset * 60000).

End Calendar.

(** ** The documented defaults *)

Module Defaults.
Import JSNumber JSValue Calendar.

(** The five fields of an extraction result. *)
Definition field_names : list string :=
  ["date"; "merchant"; "total"; "category"; "paymentSource"].

(** The default of each field: today in UTC, ["Unknown Merchant"], the
    number 0, ["Other"] and ["Unknown"]. *)
Definition default_of (now : Z) (k : string) : value :=
  if String.eqb k "date" then VStr (utc_day now)
  else if String.eqb k "merchant" then VStr "Unknown Merchant"
  else if String.eqb k "total" then VNum zero
  else if String.eqb k "category" then VStr "Other"
  else VStr "Unknown".

(** The number stored for the text of the total field:
    [parseFloat(text) || 0]. *)
Definition total_of_text (text : string) : number :=
  let x := parseFloat text in
  if is_zero x || is_nan x then zero else x.

Definition notice_failed : string := "Failed to analyze receipt. Please try again.".

End Defaults.

(** ** Inputs and states used in examples *)

Module Examples.
Import JSString JSNumber JSValue GeminiService ReceiptEdit App.

(** JSON text written with single quotes in place of double quotes. *)
Definition json (s : string) : string :=
  of_chars (List.map (fun c => if Ascii.eqb c "'" then dquote else c) (chars s)).

(** A service that answers every request with the text [t]. *)
Definition answers (t : string) : Service := fun _ => inr (Some t).

(** A service whose call throws. *)
Definition unreachable : Service := fun _ => inl (ServiceError "fetch failed").

Definition photo : string := "data:image/jpeg;base64,/9j/4AAQ".

Definition cafe_luna : string := json "{'merchant': 'Cafe Luna', 'total': 12.5}".

(** What [cafe_luna] parses to. *)
Definition cafe_luna_object : obj :=
  [("merchant", VStr "Cafe Luna"); ("total", VNum (of_decimal false 125 (-1)))].

Definition groceries : string := json "{'category': 'Groceries', 'total': -5}".

(** An answer whose total is beyond the largest finite Number. *)
Definition huge_total : string := json "{'merchant': 'Metro', 'total': 1e999}".

(** An answer whose total has no text: its [toString] is not a function. *)
Definition unprintable_total : string := json "{'total': {'toString': 1}}".

(** A leading surrogate that stands alone, and its JSON text. *)
Definition lone_surrogate : string :=
  of_chars [char_of_code 237; char_of_code 160; char_of_code 189].

Definition lone_surrogate_text : string := json "'\ud83d'".

(** The running application on a process that found [rs] stored. *)
Definition loaded (rs : list obj) : World :=
  {| app := {| activeView := Types.history; receipts := rs; isScanning := false;
               isProcessing := false; currentEdit := None; form := None |};
     storage := persist rs; alerts := [] |}.

(** The running application on a process that found nothing stored. *)
Definition fresh : World := loaded [].

(** The list view with the camera overlay open. *)
Definition scanning : World :=
  {| app := {| activeView := Types.history; receipts := []; isScanning := true;
               isProcessing := false; currentEdit := None; form := None |};
     storage := persist []; alerts := [] |}.

(** A draft with nothing but a merchant, and the form as it opens on
    it at time 0. *)
Definition bare_draft : obj := [("merchant", VStr "Cafe Luna")].

Definition bare_form : FormData :=
  {| date := VStr "1970-01-01"; merchant := VStr "Cafe Luna"; total := EmptyString;
     category := VStr "Other"; paymentSource := VStr "Credit Card" |}.

(** Two confirmed records. *)
Definition receipt1 : obj :=
  handleSubmit [("id", VStr "1710036000000"); ("imageUrl", VStr photo)]
    {| date := VStr "2024-03-10"; merchant := VStr "Cafe Luna"; total := "12.5";
       category := VStr "Food & Dining"; paymentSource := VStr "Visa 1234" |} 1710036000001.

Definition receipt2 : obj :=
  handleSubmit [("id", VStr "1710036060000"); ("imageUrl", VStr photo)]
    {| date := VStr "2024-03-09"; merchant := VStr "Metro"; total := "2.75";
       category := VStr "Transport"; paymentSource := VStr "Cash" |} 1710036060001.

End Examples.

(** ** The store, the records and the screens *)

Module Store.
Import JSValue Types ReceiptEdit App.

(** The events whose handlers call [setReceipts]. *)
Definition writes_store (ev : Event) : bool :=
  match ev with Done _ | Sync => true | _ => false end.

(** The slot holds the text of the list in memory. *)
Definition mirrored (w : World) : Prop :=
  storage w = persist (receipts (app w)).

(** [r'] is [r] with, at most, its status turned to "synced". *)
Definition same_but_synced (r r' : obj) : Prop :=
  (forall k, k <> "status" -> lookup k r' = lookup k r)
  /\ (lookup "status" r' = lookup "status" r
      \/ lookup "status" r' = Some (VStr "synced")).

(** [new] is [old] behind some added records, each old record in its
    place. *)
Definition kept (old new : list obj) : Prop :=
  exists added rest, new = added ++ rest /\ Forall2 same_but_synced old rest.

(** [step] before its render: the state and the alerts the handler of
    the event leaves, the time on the clock, and whether [receipts] was
    replaced, so that the second effect runs; [None] when the event has
    no handler in the state of [w]. *)
Definition handled (w : World) (ev : Event) : option (State * list string * Z * bool) :=
  let s := app w in
  match ev with
  | TapSheet => Some (with_view s history, alerts w, 0, false)
  | TapCamera => Some (with_scanning s true, alerts w, 0, false)
  | CancelCamera => Some (with_scanning s false, alerts w, 0, false)
  | Capture base64 ai now =>
      if isScanning s then
        Some (fst (handleCapture s (alerts w) ai now base64),
              snd (handleCapture s (alerts w) ai now base64), now, false)
      else None
  | Upload type dataUrl ai now =>
      match activeView s with
      | history =>
          Some (fst (handleFileUpload s (alerts w) ai now type dataUrl),
                snd (handleFileUpload s (alerts w) ai now type dataUrl), now, false)
      | _ => None
      end
  | Edit c =>
      match form s with
      | Some f => Some (with_form s (Some (onChange f c)), alerts w, 0, false)
      | None => None
      end
  | Done now =>
      match form s, currentEdit s with
      | Some f, Some d => Some (saveReceipt s (handleSubmit d f now), alerts w, now, true)
      | _, _ => None
      end
  | CancelEdit =>
      match form s with
      | Some _ => Some (with_view s history, alerts w, 0, false)
      | None => None
      end
  | Sync =>
      match activeView s with
      | history =>
          Some (fst (simulateSync s (alerts w)), snd (simulateSync s (alerts w)), 0,
                match receipts s with [] => false | _ => true end)
      | _ => None
      end
  | TapSetup =>
      Some (s, "Setting up Google Sheets OAuth integration..." :: alerts w, 0, false)
  end.

End Store.

Module Shape.
Import JSValue Defaults.

(** The record of the five defaults. *)
Definition all_defaults (now : Z) : obj :=
  List.map (fun k => (k, default_of now k)) field_names.

End Shape.

Module Wellformed.
Import JSNumber JSValue App.

(** The property names of a confirmed record, in order. *)
Definition record_keys : list string :=
  ["id"; "date"; "merchant"; "total"; "category"; "paymentSource"; "status"; "imageUrl"].

(** A record as [handleSubmit] builds it from a captured draft. *)
Definition well_formed (r : obj) : Prop :=
  List.map fst r = record_keys
  /\ (exists x, get r "total" = VNum x /\ is_nan x = false)
  /\ (get r "status" = VStr "pending" \/ get r "status" = VStr "synced")
  /\ (exists i, get r "id" = VStr i)
  /\ (exists u, get r "imageUrl" = VStr u).

(** A draft as [handleCapture] builds it. *)
Definition captured (d : obj) : Prop :=
  (exists i, get d "id" = VStr i) /\ (exists u, get d "imageUrl" = VStr u).

(** Every record has the property [P], and the draft, when there is
    one, is a captured one. *)
Definition holds (P : obj -> Prop) (s : State) : Prop :=
  Forall P (receipts s)
  /\ forall d, currentEdit s = Some d -> captured d.

Definition sound (s : State) : Prop := holds well_formed s.

(** The total of a record is a Number, and its identifier can be
    turned into a string. *)
Definition numeric (r : obj) : bool :=
  match get r "total" with VNum _ => true | _ => false end.

Definition keyed (r : obj) : bool :=
  match HistoryView.key r with inr _ => true | inl _ => false end.

Definition listable (r : obj) : bool := numeric r && keyed r.

(** The [useState] argument of the edit form returns on the draft [d],
    at any time. *)
Definition converts (d : obj) : Prop :=
  forall now, exists f, ReceiptEdit.initialFormData d now = inr f.

(** A mounted form is shown, on a draft on which its [useState]
    argument returns. *)
Definition mounted (s : State) : Prop :=
  forall f, form s = Some f ->
    activeView s = Types.edit /\ exists d, currentEdit s = Some d /\ converts d.

End Wellformed.

Module Flow.
Import JSString JSValue ReceiptEdit App.

(** The draft [handleCapture] makes of an extraction result. *)
Definition draft (extractedData : obj) (base64 : string) (now : Z) : obj :=
  spread extractedData [("imageUrl", VStr base64); ("id", VStr (integer now))].

(** The form that shows the fields of [r] as they are, with [text] for
    the total. *)
Definition shows (r : obj) (text : string) : FormData :=
  {| date := get r "date"; merchant := get r "merchant"; total := text;
     category := get r "category"; paymentSource := get r "paymentSource" |}.

(** The clock readings of the captures and uploads among [evs]. *)
Definition capture_times (evs : list Event) : list Z :=
  flat_map (fun ev => match ev with
                      | Capture _ _ now | Upload _ _ _ now => [now]
                      | _ => []
                      end) evs.

Definition ids (rs : list obj) : list value := List.map (fun r => get r "id") rs.

(** Every stored identifier is the reading of a clock in [used], no two
    are equal, and the draft, when there is one, has such an identifier
    that is not stored yet. *)
Definition fresh_ids (s : State) (used : list Z) : Prop :=
  NoDup (ids (receipts s))
  /\ (forall i, In i (ids (receipts s)) -> exists t, In t used /\ i = VStr (integer t))
  /\ (forall d, currentEdit s = Some d ->
        (exists t, In t used /\ get d "id" = VStr (integer t))
        /\ ~ In (get d "id") (ids (receipts s))).

End Flow.

Module Screens.
Import JSValue Types App.

(** The application between two events: on the list without a form, or
    on the form with its draft; no work in progress. *)
Definition settled (s : State) : Prop :=
  isProcessing s = false
  /\ ((activeView s = history /\ form s = None)
      \/ (activeView s = edit /\ currentEdit s <> None /\ form s <> None)).

(** What [render] needs of the state a handler leaves. *)
Definition routed (s : State) : Prop :=
  isProcessing s = false
  /\ (activeView s = history \/ (activeView s = edit /\ currentEdit s <> None)).

End Screens.

(** ** More inputs and states used in examples *)

Module Scenes.
Import JSString JSNumber JSValue GeminiService ReceiptEdit App HistoryView.
Import CameraView Files Examples Flow.

(** The state a run ends in, or the state it began in when it does
    not end running. *)
Definition after (w : World) (evs : list Event) : World :=
  match run w evs with Running w' => w' | _ => w end.

(** A photo is taken and the extraction answers. *)
Definition capture : list Event :=
  [TapCamera; Capture photo (answers cafe_luna) 1710036000000].

(** The form is edited and given up, a text file is dropped, and two
    tabs are tapped. *)
Definition nothing_saved : list Event :=
  capture ++ [Edit (ChangeTotal "9.99"); CancelEdit;
              Upload "text/plain" None unreachable 1710036030000; TapSetup; TapSheet].

(** The receipt is confirmed, a second one is captured, corrected and
    confirmed, and the list is synced. *)
Definition two_receipts_synced : list Event :=
  capture ++ [Done 1710036000001; TapCamera;
              Capture photo (answers groceries) 1710036060000;
              Edit (ChangeTotal "2.75"); Done 1710036060001; Sync].

(** What the answer [cafe_luna] is extracted to on 2024-03-10, and the
    form that opens on it. *)
Definition cafe_luna_result : obj :=
  [("date", VStr "2024-03-10"); ("merchant", VStr "Cafe Luna");
   ("total", VNum (of_decimal false 125 (-1))); ("category", VStr "Other");
   ("paymentSource", VStr "Unknown")].

Definition cafe_luna_form : FormData :=
  {| date := VStr "2024-03-10"; merchant := VStr "Cafe Luna"; total := "12.5";
     category := VStr "Other"; paymentSource := VStr "Unknown" |}.

(** What the answer [groceries] is extracted to a minute later. *)
Definition groceries_result : obj :=
  [("date", VStr "2024-03-10"); ("merchant", VStr "Unknown Merchant");
   ("total", VNum (of_decimal true 5 0)); ("category", VStr "Groceries");
   ("paymentSource", VStr "Unknown")].

(** The total and the category are corrected. *)
Definition two_edits : list Change := [ChangeTotal "12.75"; ChangeCategory Types.FOOD].

(** The camera opened again over the form of the first capture. *)
Definition camera_over_form : World := after fresh (capture ++ [TapCamera]).

(** What the list view shows of two receipts. *)
Definition shown_two : Shown :=
  match view [receipt2; receipt1] with
  | inr shown => shown
  | inl _ => {| header_total := EmptyString; table := None |}
  end.

Definition synced_rows : list TableRow :=
  match rows (markAllSynced [receipt2; receipt1]) with inr t => t | inl _ => [] end.

(** A video before its first frame, and one that shows a frame whose
    JPEG file is four bytes long. *)
Definition video_without_frames : Video :=
  {| videoWidth := 0; videoHeight := 0; frame := [] |}.

Definition video_with_frames : Video :=
  {| videoWidth := 640; videoHeight := 480; frame := [xff; xd8; xff; xe0] |}.

Definition png_file : File :=
  {| type := "image/png"; content := Some [x89; x50; x4e; x47] |}.

End Scenes.

(** * Properties *)

(** ** Objects and [||] *)

Module ObjectFacts.
Import JSValue.

Lemma lookup_set_same k v o : lookup k (set k v o) = Some v.
Proof.
  induction o as [|[k' v'] o IH]; simpl.
  - now rewrite String.eqb_refl.
  - destruct (String.eqb_spec k k') as [->|Hne]; simpl.
    + now rewrite String.eqb_refl.
    + destruct (precedes k k'); simpl.
      * now rewrite String.eqb_refl.
      * apply String.eqb_neq in Hne. now rewrite Hne.
Qed.

Lemma lookup_set_other k k' v o : k' <> k -> lookup k' (set k v o) = lookup k' o.
Proof.
  intros Hne. induction o as [|[k0 v0] o IH]; simpl.
  - apply String.eqb_neq in Hne. now rewrite Hne.
  - destruct (String.eqb_spec k k0) as [->|Hk]; simpl.
    + apply String.eqb_neq in Hne. now rewrite Hne.
    + destruct (precedes k k0); simpl.
      * apply String.eqb_neq in Hne. now rewrite Hne.
      * now rewrite IH.
Qed.

Lemma get_set_same k v o : get (set k v o) k = v.
Proof. unfold get. now rewrite lookup_set_same. Qed.

Lemma get_set_other k k' v o : k' <> k -> get (set k v o) k' = get o k'.
Proof. intros H. unfold get. now rewrite lookup_set_other. Qed.

Lemma truthy_defined v : truthy v = true -> v <> VUndefined.
Proof. intros H ->. discriminate H. Qed.

Lemma or_else_defined a b : b <> VUndefined -> or_else a b <> VUndefined.
Proof.
  unfold or_else. destruct (truthy a) eqn:E; [intros _; now apply truthy_defined | auto].
Qed.

Lemma or_else_cases a b : or_else a b = a \/ or_else a b = b.
Proof. unfold or_else. destruct (truthy a); auto. Qed.

End ObjectFacts.

(** ** Splitting strings *)

Module StringFacts.
Import JSString Calendar.

Lemma chars_app a b : chars (a ++ b)%string = chars a ++ chars b.
Proof. induction a as [|c a IH]; simpl; [reflexivity | now rewrite <- IH]. Qed.

Lemma split_chars_free sep l cur :
  free_of sep l = true -> split_chars sep l cur = [of_chars (rev cur ++ l)].
Proof.
  revert cur. induction l as [|c l IH]; simpl; intros cur H.
  - now rewrite app_nil_r.
  - apply andb_true_iff in H as [Hc Hl]. apply negb_true_iff in Hc. rewrite Hc.
    rewrite (IH _ Hl). simpl. now rewrite <- app_assoc.
Qed.

Lemma split_chars_at sep p q cur :
  free_of sep p = true ->
  split_chars sep (p ++ sep :: q) cur = of_chars (rev cur ++ p) :: split_chars sep q [].
Proof.
  revert cur. induction p as [|c p IH]; simpl; intros cur H.
  - rewrite Ascii.eqb_refl. now rewrite app_nil_r.
  - apply andb_true_iff in H as [Hc Hp]. apply negb_true_iff in Hc. rewrite Hc.
    rewrite (IH _ Hp). simpl. now rewrite <- app_assoc.
Qed.

Lemma free_of_app c a b : free_of c (a ++ b) = free_of c a && free_of c b.
Proof. apply forallb_app. Qed.

Lemma free_of_repeat c d n : Ascii.eqb d c = false -> free_of c (chars (repeat_char d n)) = true.
Proof. intros H. induction n as [|n IH]; simpl; [reflexivity | now rewrite H, IH]. Qed.

Lemma digits_of_uint (d : Decimal.uint) :
  forallb is_digit (chars (NilEmpty.string_of_uint d)) = true.
Proof. induction d; simpl; auto. Qed.

Lemma decimal_digits n : forallb is_digit (chars (decimal n)) = true.
Proof.
  unfold decimal, NilZero.string_of_uint.
  destruct (N.to_uint (Z.to_N n)) eqn:E; try reflexivity;
    rewrite <- E; apply digits_of_uint.
Qed.

Lemma digit_is_not c x : is_digit c = false -> forallb is_digit x = true -> free_of c x = true.
Proof.
  intros Hc. induction x as [|d x IH]; simpl; [reflexivity|].
  intros H. apply andb_true_iff in H as [Hd Hx]. rewrite (IH Hx), andb_true_r.
  apply negb_true_iff. destruct (Ascii.eqb_spec d c) as [->|]; [congruence | reflexivity].
Qed.

Lemma free_of_pad c w n : is_digit c = false -> free_of c (chars (pad w n)) = true.
Proof.
  intros Hc. unfold pad. rewrite chars_app, free_of_app.
  rewrite (digit_is_not c _ Hc (decimal_digits n)), andb_true_r.
  apply free_of_repeat. destruct (Ascii.eqb_spec "0"%char c) as [<-|]; [discriminate Hc | reflexivity].
Qed.

End StringFacts.

(** ** The day of [toISOString] *)

Module DateFacts.
Import JSString JSValue JSDate Types Calendar StringFacts.

Lemma utc_day_free t : free_of "T" (chars (utc_day t)) = true.
Proof.
  unfold utc_day. destruct (civil_from_days (t / msPerDay)) as [[y m] d].
  rewrite !chars_app, !free_of_app, !free_of_pad by reflexivity.
  unfold year_string.
  destruct ((0 <=? y) && (y <=? 9999)).
  - now rewrite free_of_pad.
  - rewrite chars_app, free_of_app, free_of_pad by reflexivity. now destruct (y <? 0).
Qed.

Lemma toISOString_day t :
  exists time, chars (toISOString t) = chars (utc_day t) ++ "T"%char :: time.
Proof.
  unfold toISOString, utc_day. destruct (civil_from_days (t / msPerDay)) as [[y m] d].
  eexists. rewrite !chars_app. rewrite <- !app_assoc. simpl app. reflexivity.
Qed.

(** [new Date().toISOString().split('T')[0]] is the UTC calendar day. *)
Lemma today_utc now : GeminiService.today now = VStr (utc_day now).
Proof.
  unfold GeminiService.today, split.
  destruct (toISOString_day now) as [time ->].
  rewrite (split_chars_at "T" _ time [] (utc_day_free now)).
  simpl. unfold index. simpl. f_equal. apply string_of_list_ascii_of_string.
Qed.

End DateFacts.

(** ** JSON text read back *)

Module JSONFacts.
Import JSString JSNumber JSValue JSON Exact Examples.

Lemma print_VArr l : print (VArr l) = "["%char :: elements_text l ++ ["]"%char].
Proof. reflexivity. Qed.

Lemma print_VObj o : print (VObj o) = "{"%char :: members_text o true ++ ["}"%char].
Proof. reflexivity. Qed.

Lemma elements_text_cons x y r :
  elements_text (x :: y :: r) = print x ++ ","%char :: elements_text (y :: r).
Proof. reflexivity. Qed.

(** Character classes, by enumeration of the 256 characters. *)
Lemma number_char_class c :
  is_number_char c = true ->
  is_ws c = false /\ Ascii.eqb c "{" = false /\ Ascii.eqb c "[" = false
  /\ Ascii.eqb c dquote = false /\ Ascii.eqb c "n" = false
  /\ Ascii.eqb c "t" = false /\ Ascii.eqb c "f" = false
  /\ Ascii.eqb c "]" = false /\ Ascii.eqb c "}" = false.
Proof.
  destruct c as [[] [] [] [] [] [] [] []]; vm_compute; intros H;
    solve [ discriminate H | repeat split; reflexivity ].
Qed.

Lemma quote_char_parses c tail acc :
  parse_string (quote_char c ++ tail) acc = parse_string tail (c :: acc).
Proof.
  destruct c as [[] [] [] [] [] [] [] []]; reflexivity.
Qed.

Lemma number_char_class' c :
  is_number_char c = true ->
  Ascii.eqb "n" c = false /\ Ascii.eqb "t" c = false /\ Ascii.eqb "f" c = false.
Proof.
  intros H. destruct (number_char_class c H) as (_ & _ & _ & _ & Hn & Ht & Hf & _).
  rewrite (Ascii.eqb_sym "n" c), (Ascii.eqb_sym "t" c), (Ascii.eqb_sym "f" c). auto.
Qed.

Lemma char_of_code_code c : char_of_code (code c) = c.
Proof. unfold char_of_code, code. rewrite N2Z.id. apply ascii_N_embedding. Qed.

Lemma hex_value_digit n : 0 <= n < 16 -> hex_value (hex_digit n) = Some n.
Proof.
  intros H. rewrite <- (Z2Nat.id n) by lia.
  assert (L : (Z.to_nat n < 16)%nat) by lia.
  revert L. generalize (Z.to_nat n). intros k L.
  do 16 (destruct k as [|k]; [reflexivity|]). lia.
Qed.

Lemma hex4_escape u :
  0 <= u < 65536 ->
  hex4 (hex_digit (u / 4096)) (hex_digit ((u / 256) mod 16))
       (hex_digit ((u / 16) mod 16)) (hex_digit (u mod 16)) = Some u.
Proof.
  intros H. unfold hex4.
  rewrite !hex_value_digit by (Z.to_euclidean_division_equations; lia).
  f_equal. Z.to_euclidean_division_equations; lia.
Qed.

(** The bytes of a surrogate that stands alone. *)
Lemma surrogate_bytes a b c u :
  surrogate a b c = Some u ->
  code a = 237 /\ 160 <= code b <= 191 /\ 128 <= code c <= 191
  /\ u = 53248 + (code b - 128) * 64 + (code c - 128).
Proof.
  unfold surrogate.
  destruct ((code a =? 237) && (160 <=? code b) && (code b <=? 191)
            && (128 <=? code c) && (code c <=? 191)) eqn:E; [|discriminate].
  intros H.
  assert (Hu : Some (53248 + (code b - 128) * 64 + (code c - 128)) = Some u) by exact H.
  apply (f_equal (fun o => match o with Some x => x | None => 0 end)) in Hu.
  rewrite !andb_true_iff, Z.eqb_eq, !Z.leb_le in E. lia.
Qed.

Lemma surrogate_range a b c u : surrogate a b c = Some u -> 55296 <= u <= 57343.
Proof. intros H. apply surrogate_bytes in H. lia. Qed.

Lemma utf8_surrogate a b c u : surrogate a b c = Some u -> utf8 u = [a; b; c].
Proof.
  intros H. apply surrogate_bytes in H as (Ha & Hb & Hc & Hu).
  unfold utf8.
  destruct (Z.ltb_spec u 128); [lia|]. destruct (Z.ltb_spec u 2048); [lia|].
  destruct (Z.ltb_spec u 65536); [|lia].
  replace (224 + u / 4096) with (code a) by (Z.to_euclidean_division_equations; lia).
  replace (128 + (u / 64) mod 64) with (code b) by (Z.to_euclidean_division_equations; lia).
  replace (128 + u mod 64) with (code c) by (Z.to_euclidean_division_equations; lia).
  now rewrite !char_of_code_code.
Qed.

Lemma starts_low_first c l : Ascii.eqb c "\" = false -> starts_low (c :: l) = false.
Proof.
  intros H. unfold starts_low. rewrite H.
  now destruct l as [|? [|? [|? [|? [|? ?]]]]].
Qed.

Lemma starts_low_second c v l : Ascii.eqb v "u" = false -> starts_low (c :: v :: l) = false.
Proof.
  intros H. unfold starts_low. rewrite H, andb_false_r.
  now destruct l as [|? [|? [|? [|? ?]]]].
Qed.

Lemma starts_low_quote_char c l : starts_low (quote_char c ++ l) = false.
Proof.
  destruct c as [[] [] [] [] [] [] [] []];
    first [ reflexivity
          | apply starts_low_first; reflexivity
          | apply (starts_low_second "\"%char); reflexivity ].
Qed.

Lemma starts_low_escape u l :
  0 <= u < 65536 ->
  starts_low (unicode_escape u ++ l) = (56320 <=? u) && (u <=? 57343).
Proof.
  intros H. unfold unicode_escape. cbn [chars list_ascii_of_string app starts_low].
  now rewrite (hex4_escape u H).
Qed.

(** The escape of a surrogate is read as that surrogate when no escape
    of a trailing one follows. *)
Lemma escape_parses a b c u tail acc :
  surrogate a b c = Some u ->
  ((55296 <=? u) && (u <=? 56319) = true -> starts_low tail = false) ->
  parse_string (unicode_escape u ++ tail) acc = parse_string tail (c :: b :: a :: acc).
Proof.
  intros Hs Hl. pose proof (surrogate_range _ _ _ _ Hs) as R.
  unfold unicode_escape. cbn [chars list_ascii_of_string app parse_string].
  change (Ascii.eqb "\" dquote) with false. change (Ascii.eqb "\" "\") with true.
  change (Ascii.eqb "u" dquote) with false. change (Ascii.eqb "u" "\") with false.
  change (Ascii.eqb "u" "/") with false. change (Ascii.eqb "u" "b") with false.
  change (Ascii.eqb "u" "f") with false. change (Ascii.eqb "u" "n") with false.
  change (Ascii.eqb "u" "r") with false. change (Ascii.eqb "u" "t") with false.
  change (Ascii.eqb "u" "u") with true. cbv iota.
  rewrite (hex4_escape u) by lia. rewrite (utf8_surrogate _ _ _ _ Hs). cbn [rev app].
  destruct ((55296 <=? u) && (u <=? 56319)) eqn:Hh; [|reflexivity].
  specialize (Hl eq_refl). unfold starts_low in Hl.
  destruct tail as [|t1 [|t2 [|g1 [|g2 [|g3 [|g4 r3]]]]]]; try reflexivity.
  destruct (Ascii.eqb t1 "\" && Ascii.eqb t2 "u"); [|reflexivity]. cbn [andb] in Hl.
  destruct (hex4 g1 g2 g3 g4) as [w|]; [|reflexivity]. now rewrite Hl.
Qed.

Lemma paired_tail a r : paired (a :: r) = true -> paired r = true.
Proof.
  cbn [paired]. destruct r as [|b [|c [|d [|e [|f r']]]]]; trivial.
  destruct (surrogate a b c), (surrogate d e f); trivial.
  intros H. now apply andb_true_iff in H as [_ H].
Qed.

Lemma quote_chars_short a r :
  (List.length r < 2)%nat -> quote_chars (a :: r) = quote_char a ++ quote_chars r.
Proof. destruct r as [|b [|c r']]; simpl; trivial; lia. Qed.

Lemma quote_chars_three a b c r :
  quote_chars (a :: b :: c :: r)
  = match surrogate a b c with
    | Some u => unicode_escape u ++ quote_chars r
    | None => quote_char a ++ quote_chars (b :: c :: r)
    end.
Proof. reflexivity. Qed.

Lemma starts_low_quote_chars l tail :
  starts_low (quote_chars l ++ dquote :: tail)
  = match l with
    | d :: e :: f :: _ =>
        match surrogate d e f with
        | Some w => (56320 <=? w) && (w <=? 57343)
        | None => false
        end
    | _ => false
    end.
Proof.
  destruct l as [|d [|e [|f r]]].
  - now apply starts_low_first.
  - rewrite quote_chars_short, <- app_assoc by (simpl; lia). apply starts_low_quote_char.
  - rewrite quote_chars_short, <- app_assoc by (simpl; lia). apply starts_low_quote_char.
  - rewrite quote_chars_three.
    destruct (surrogate d e f) as [w|] eqn:S; rewrite <- app_assoc.
    + apply starts_low_escape. pose proof (surrogate_range _ _ _ _ S). lia.
    + apply starts_low_quote_char.
Qed.

Lemma parse_string_quoted n : forall l tail acc,
  (List.length l <= n)%nat -> paired l = true ->
  parse_string (quote_chars l ++ dquote :: tail) acc
  = Some (of_chars (rev acc ++ l), tail).
Proof.
  induction n as [|n IH]; intros l tail acc Hn Hp.
  - destruct l; [|simpl in Hn; lia]. simpl. now rewrite app_nil_r.
  - destruct l as [|a r]; [simpl; now rewrite app_nil_r|].
    assert (Hr : paired r = true) by exact (paired_tail a r Hp).
    assert (One : parse_string (quote_char a ++ quote_chars r ++ dquote :: tail) acc
                  = Some (of_chars (rev acc ++ a :: r), tail)).
    { rewrite quote_char_parses, IH by (simpl in Hn; trivial; lia).
      simpl rev. now rewrite <- app_assoc. }
    destruct r as [|b [|c r']].
    { rewrite quote_chars_short, <- app_assoc by (simpl; lia). exact One. }
    { rewrite quote_chars_short, <- app_assoc by (simpl; lia). exact One. }
    rewrite quote_chars_three.
    destruct (surrogate a b c) as [u|] eqn:S; rewrite <- app_assoc; [|exact One].
    rewrite (escape_parses a b c u _ _ S).
    + rewrite IH.
      * simpl rev. now rewrite <- !app_assoc.
      * simpl in Hn. lia.
      * exact (paired_tail c r' (paired_tail b (c :: r') Hr)).
    + intros Hh. rewrite starts_low_quote_chars.
      destruct r' as [|d [|e [|f r'']]]; trivial.
      destruct (surrogate d e f) as [w|] eqn:S'; trivial.
      cbn [paired] in Hp. rewrite S, S' in Hp.
      apply andb_true_iff in Hp as [Hp _]. apply negb_true_iff in Hp.
      apply andb_true_iff in Hh as [_ Hh]. rewrite Hh in Hp. cbn [andb] in Hp.
      now rewrite Hp.
Qed.

Lemma of_chars_chars s : of_chars (chars s) = s.
Proof. apply string_of_list_ascii_of_string. Qed.

Lemma chars_of_chars l : chars (of_chars l) = l.
Proof. apply list_ascii_of_string_of_list_ascii. Qed.

Lemma length_of_chars l : String.length (of_chars l) = List.length l.
Proof. induction l as [|c l IH]; simpl; [reflexivity | now rewrite <- IH]. Qed.

Lemma parse_string_quote s tail :
  paired_string s = true -> parse_string (tl (quote s) ++ tail) [] = Some (s, tail).
Proof.
  intros H. unfold quote. simpl tl. rewrite <- app_assoc. simpl app.
  rewrite (parse_string_quoted (List.length (chars s))) by trivial.
  simpl. now rewrite of_chars_chars.
Qed.

Lemma eqb_eq x y : eqb x y = true -> x = y.
Proof.
  destruct x as [a|a| |a m e], y as [b|b| |b m' e']; simpl; try discriminate.
  - intros H. apply Bool.eqb_prop in H. now subst.
  - intros H. apply Bool.eqb_prop in H. now subst.
  - reflexivity.
  - rewrite !andb_true_iff. intros [[H1 H2] H3].
    apply Bool.eqb_prop in H1. apply Pos.eqb_eq in H2. apply Z.eqb_eq in H3.
    now subst.
Qed.

Lemma span_all (p : ascii -> bool) l rest :
  forallb p l = true ->
  match rest with [] => True | c :: _ => p c = false end ->
  span p (l ++ rest) = (l, rest).
Proof.
  intros Hl Hr. induction l as [|c l IH]; simpl in *.
  - destruct rest as [|c r]; [reflexivity|]. simpl. now rewrite Hr.
  - apply andb_true_iff in Hl as [Hc Hl]. now rewrite Hc, (IH Hl).
Qed.

Lemma reads_back_spec x :
  reads_back x = true ->
  exists c t, chars (toString x) = c :: t
    /\ forallb is_number_char (c :: t) = true /\ number_token (c :: t) = Some x.
Proof.
  unfold reads_back. intros H. apply andb_true_iff in H as [Hall Htok].
  destruct (chars (toString x)) as [|c t] eqn:E.
  - discriminate Htok.
  - exists c, t. repeat split; [exact Hall|].
    destruct (number_token (c :: t)) as [y|]; [|discriminate].
    now rewrite (eqb_eq _ _ Htok).
Qed.

Lemma print_starts v rest : exact v = true -> starts_value (print v ++ rest).
Proof.
  destruct v as [| |b|x|s|l|o]; simpl exact; intros H; try discriminate H.
  - repeat split.
  - destruct b; repeat split.
  - apply andb_true_iff in H as [Hf Hr]. simpl print. rewrite Hf.
    destruct (reads_back_spec x Hr) as (c & t & -> & Hall & _).
    simpl in Hall. apply andb_true_iff in Hall as [Hc _].
    destruct (number_char_class c Hc) as (? & _ & _ & _ & _ & _ & _ & ? & ?).
    simpl. auto.
  - repeat split.
  - repeat split.
  - repeat split.
Qed.

Lemma skip_ws_starts l : starts_value l -> skip_ws l = l.
Proof. destruct l as [|c r]; simpl; [tauto|]. intros (-> & _). reflexivity. Qed.

Lemma print_length v : exact v = true -> (1 <= List.length (print v))%nat.
Proof.
  intros H. pose proof (print_starts v [] H) as S. rewrite app_nil_r in S.
  destruct (print v); simpl in *; [tauto | lia].
Qed.

Lemma reparses_null : reparses VNull.
Proof.
  intros [|f] rest Hf _; simpl in Hf; [lia|]. reflexivity.
Qed.

Lemma reparses_bool b : reparses (VBool b).
Proof.
  intros [|f] rest Hf _; destruct b; simpl in Hf; try lia; reflexivity.
Qed.

Lemma reparses_str s : paired_string s = true -> reparses (VStr s).
Proof.
  intros Ht [|f] rest Hf _; [simpl in Hf; lia|].
  change (print (VStr s)) with (quote s).
  change (quote s) with (dquote :: tl (quote s)).
  cbn [parse_value app skip_ws]. change (is_ws dquote) with false. cbv iota.
  change (Ascii.eqb dquote "{") with false. change (Ascii.eqb dquote "[") with false.
  change (Ascii.eqb dquote dquote) with true. cbv iota.
  now rewrite parse_string_quote.
Qed.

Lemma reparses_num x : exact (VNum x) = true -> reparses (VNum x).
Proof.
  simpl exact. intros H fuel rest Hf Hd.
  apply andb_true_iff in H as [Hfin Hr].
  destruct (reads_back_spec x Hr) as (c & t & E & Hall & Htok).
  simpl print in *. rewrite Hfin in *. rewrite E in *.
  destruct fuel as [|f]; [simpl in Hf; lia|].
  pose proof Hall as Hall'. simpl in Hall'. apply andb_true_iff in Hall' as [Hc _].
  destruct (number_char_class c Hc) as (W & B1 & B2 & Q & _).
  destruct (number_char_class' c Hc) as (N & T & F).
  cbn [parse_value app skip_ws]. rewrite W, B1, B2, Q.
  cbn [starts_with chars list_ascii_of_string]. rewrite N, T, F.
  unfold parse_number.
  change (c :: t ++ rest) with ((c :: t) ++ rest).
  rewrite (span_all is_number_char (c :: t) rest Hall Hd), Htok. reflexivity.
Qed.

Lemma delimited_comma r : delimited (","%char :: r).
Proof. reflexivity. Qed.
Lemma delimited_bracket r : delimited ("]"%char :: r).
Proof. reflexivity. Qed.
Lemma delimited_brace r : delimited ("}"%char :: r).
Proof. reflexivity. Qed.

Lemma parse_elements_print l :
  l <> [] ->
  Forall (fun v => exact v = true /\ reparses v) l ->
  forall fuel rest acc,
    (List.length (elements_text l) + 1 <= fuel)%nat ->
    parse_elements fuel (elements_text l ++ "]"%char :: rest) acc
    = Some (VArr (rev acc ++ l), rest).
Proof.
  induction l as [|x l IH]; [congruence|]. intros _ HF fuel rest acc Hfuel.
  inversion HF as [|? ? [Hx Rx] HF']; subst.
  destruct fuel as [|f]; [lia|].
  destruct l as [|y r].
  - simpl elements_text in *. cbn [parse_elements].
    rewrite (Rx f ("]"%char :: rest)) by (try apply delimited_bracket; lia).
    reflexivity.
  - rewrite elements_text_cons in *. rewrite length_app in Hfuel. cbn [List.length] in Hfuel.
    cbn [parse_elements]. rewrite <- app_assoc. simpl app.
    rewrite (Rx f) by (try apply delimited_comma; lia).
    cbn [skip_ws]. change (is_ws ",") with false. cbv iota.
    change (Ascii.eqb "," ",") with true. cbv iota.
    rewrite IH by (try discriminate; try assumption; lia).
    simpl rev. now rewrite <- app_assoc.
Qed.

Lemma reparses_arr l :
  Forall (fun v => exact v = true /\ reparses v) l -> reparses (VArr l).
Proof.
  intros HF fuel rest Hfuel _. rewrite print_VArr in *.
  destruct fuel as [|f]; [simpl in Hfuel; lia|].
  cbn [List.length] in Hfuel. rewrite length_app in Hfuel. cbn [List.length] in Hfuel.
  cbn [app]. rewrite <- app_assoc. cbn [app].
  cbn [parse_value skip_ws]. change (is_ws "[") with false. cbv iota.
  change (Ascii.eqb "[" "{") with false. change (Ascii.eqb "[" "[") with true. cbv iota.
  destruct l as [|x r].
  - reflexivity.
  - assert (S : starts_value (elements_text (x :: r) ++ "]"%char :: rest)).
    { inversion HF as [|? ? [Hx _] _]; subst.
      destruct r as [|y r]; [apply print_starts; exact Hx|].
      rewrite elements_text_cons, <- app_assoc. apply print_starts; exact Hx. }
    rewrite (skip_ws_starts _ S).
    destruct (elements_text (x :: r) ++ "]"%char :: rest) as [|c t] eqn:E; [destruct S|].
    destruct S as (_ & -> & _). rewrite <- E.
    rewrite parse_elements_print by (try discriminate; try assumption; lia).
    reflexivity.
Qed.

Lemma members_text_cons k x r first :
  exact x = true ->
  members_text ((k, x) :: r) first
  = (if first then [] else [","%char]) ++ quote k ++ ":"%char :: print x ++ members_text r false.
Proof. destruct x; intros H; try reflexivity; discriminate H. Qed.

Lemma members_text_false k x r :
  exact x = true ->
  members_text ((k, x) :: r) false = ","%char :: members_text ((k, x) :: r) true.
Proof. intros H. now rewrite !members_text_cons. Qed.

Lemma set_fresh k x acc :
  plain_key k = true -> ~ In k (List.map fst acc) -> set k x acc = acc ++ [(k, x)].
Proof.
  unfold plain_key. intros Hk Hin. induction acc as [|[k' v'] acc IH]; [reflexivity|].
  simpl in *. destruct (String.eqb_spec k k') as [->|Hne]; [tauto|].
  unfold precedes. destruct (array_index k); [discriminate|].
  rewrite IH by tauto. reflexivity.
Qed.

Lemma distinct_NoDup ks : distinct ks = true -> NoDup ks.
Proof.
  induction ks as [|k r IH]; simpl; intros H; constructor;
    apply andb_true_iff in H as [Hk Hr]; [|auto].
  intros Hin. apply negb_true_iff in Hk.
  assert (E : existsb (String.eqb k) r = true)
    by (apply existsb_exists; exists k; split; [exact Hin | apply String.eqb_refl]).
  congruence.
Qed.

Lemma parse_members_print o :
  o <> [] ->
  Forall (fun kv => (plain_key (fst kv) = true /\ paired_string (fst kv) = true)
                   /\ exact (snd kv) = true /\ reparses (snd kv)) o ->
  forall fuel rest acc,
    NoDup (List.map fst (acc ++ o)) ->
    (List.length (members_text o true) + 1 <= fuel)%nat ->
    parse_members fuel (members_text o true ++ "}"%char :: rest) acc
    = Some (VObj (acc ++ o), rest).
Proof.
  induction o as [|[k x] o IH]; [congruence|]. intros _ HF fuel rest acc Hnd Hfuel.
  inversion HF as [|? ? ((Hk & Ht) & Hx & Rx) HF']; subst.
  simpl fst in Hk, Ht; simpl snd in Hx, Rx.
  destruct fuel as [|f]; [lia|].
  assert (Hfresh : ~ In k (List.map fst acc)).
  { rewrite map_app in Hnd. simpl in Hnd. apply NoDup_remove_2 in Hnd.
    intros Hin. apply Hnd, in_or_app. now left. }
  rewrite members_text_cons in * by assumption. cbn [app] in *.
  rewrite length_app in Hfuel. cbn [List.length] in Hfuel. rewrite length_app in Hfuel.
  change (quote k) with (dquote :: tl (quote k)) in *. cbn [List.length] in Hfuel.
  cbn [app parse_members skip_ws]. change (is_ws dquote) with false. cbv iota.
  change (Ascii.eqb dquote dquote) with true. cbv iota.
  rewrite <- !app_assoc. rewrite (parse_string_quote k _ Ht).
  cbn [app skip_ws]. change (is_ws ":") with false. cbv iota.
  change (Ascii.eqb ":" ":") with true. cbv iota.
  rewrite <- app_assoc.
  destruct o as [|[k' x'] o'].
  - cbn [members_text app].
    rewrite (Rx f) by (try apply delimited_brace; lia).
    cbn [skip_ws]. change (is_ws "}") with false. cbv iota.
    change (Ascii.eqb "}" ",") with false. change (Ascii.eqb "}" "}") with true. cbv iota.
    now rewrite (set_fresh k x acc Hk Hfresh).
  - assert (Hx' : exact x' = true) by (inversion HF' as [|? ? (_ & H & _) _]; exact H).
    rewrite (members_text_false k' x' o' Hx') in *. cbn [app List.length] in *.
    rewrite (Rx f) by (try apply delimited_comma; lia).
    cbn [skip_ws]. change (is_ws ",") with false. cbv iota.
    change (Ascii.eqb "," ",") with true. cbv iota.
    rewrite (set_fresh k x acc Hk Hfresh).
    rewrite IH; try discriminate; try assumption; try lia.
    + now rewrite <- app_assoc.
    + now rewrite <- app_assoc.
Qed.

Lemma reparses_obj o :
  Forall (fun kv => (plain_key (fst kv) = true /\ paired_string (fst kv) = true)
                   /\ exact (snd kv) = true /\ reparses (snd kv)) o ->
  NoDup (List.map fst o) -> reparses (VObj o).
Proof.
  intros HF Hnd fuel rest Hfuel _. rewrite print_VObj in *.
  destruct fuel as [|f]; [simpl in Hfuel; lia|].
  cbn [List.length] in Hfuel. rewrite length_app in Hfuel. cbn [List.length] in Hfuel.
  cbn [app]. rewrite <- app_assoc. cbn [app].
  cbn [parse_value skip_ws]. change (is_ws "{") with false. cbv iota.
  change (Ascii.eqb "{" "{") with true. cbv iota.
  destruct o as [|[k x] r].
  - reflexivity.
  - assert (Hx : exact x = true) by (inversion HF as [|? ? (_ & H & _) _]; exact H).
    assert (PM : parse_members f (members_text ((k, x) :: r) true ++ "}"%char :: rest) []
                 = Some (VObj ((k, x) :: r), rest)).
    { apply (parse_members_print ((k, x) :: r)); [discriminate | exact HF | exact Hnd | lia]. }
    rewrite (members_text_cons k x r true Hx) in PM |- *. cbn [app] in PM |- *.
    change (quote k) with (dquote :: tl (quote k)) in PM |- *.
    cbn [app skip_ws] in PM |- *. change (is_ws dquote) with false. cbv iota.
    change (Ascii.eqb dquote "}") with false. cbv iota.
    now rewrite PM.
Qed.

Lemma exact_reparses v : exact v = true -> reparses v.
Proof.
  induction v as [| |b|x|s|l IH|o IH] using value_nested_ind; intros H.
  - discriminate H.
  - apply reparses_null.
  - apply reparses_bool.
  - now apply reparses_num.
  - now apply reparses_str.
  - apply reparses_arr. simpl in H. rewrite forallb_forall in H.
    rewrite Forall_forall in *. intros v Hv. split; [|apply IH]; auto.
  - simpl in H. apply andb_true_iff in H as [Hall Hd].
    rewrite forallb_forall in Hall.
    apply reparses_obj; [|now apply distinct_NoDup].
    rewrite Forall_forall in *. intros kv Hkv.
    specialize (Hall kv Hkv). apply andb_true_iff in Hall as [Hk Hx].
    apply andb_true_iff in Hk as [Hk Ht]. repeat split; auto.
Qed.

(** A surrogate that stands alone is written as its escape, and read
    back from it. *)
Lemma lone_surrogate_is_escaped :
  stringify (VStr lone_surrogate) = Some lone_surrogate_text
  /\ parse lone_surrogate_text = inr (VStr lone_surrogate).
Proof. split; reflexivity. Qed.

(** [JSON.parse(JSON.stringify(v))] is [v] for an exact value. *)
Lemma parse_stringify v :
  exact v = true -> exists text, stringify v = Some text /\ parse text = inr v.
Proof.
  intros H. exists (of_chars (print v)). split.
  - destruct v; try reflexivity; discriminate H.
  - unfold parse. rewrite chars_of_chars, length_of_chars.
    pose proof (exact_reparses v H (S (List.length (print v))) [] ltac:(lia) I) as R.
    rewrite app_nil_r in R. now rewrite R.
Qed.

End JSONFacts.

(** ** The extraction client *)

Module ExtractionFacts.
Import JSString JSNumber JSValue Types GeminiService Calendar Defaults Examples.
Import ObjectFacts StringFacts DateFacts.

Lemma defaults_fields o now :
  defaults (VObj o) now
  = inr [("date", or_else (get o "date") (today now));
         ("merchant", or_else (get o "merchant") (VStr "Unknown Merchant"));
         ("total", or_else (get o "total") (VNum zero));
         ("category", or_else (get o "category") (VStr "Other"));
         ("paymentSource", or_else (get o "paymentSource") (VStr "Unknown"))].
Proof. reflexivity. Qed.

Lemma defaults_get o now r k :
  defaults (VObj o) now = inr r -> In k field_names ->
  get r k = or_else (get o k) (default_of now k).
Proof.
  rewrite defaults_fields. intros [= <-] Hk. simpl in Hk.
  rewrite today_utc.
  destruct Hk as [<-|[<-|[<-|[<-|[<-|[]]]]]]; reflexivity.
Qed.

Lemma default_defined now k : default_of now k <> VUndefined.
Proof.
  unfold default_of.
  repeat match goal with |- context [if ?b then _ else _] => destruct b end; discriminate.
Qed.

Lemma processReceipt_parsed ai now img t v :
  ai (request img) = inr t -> JSON.parse (response_text t) = inr v ->
  processReceipt ai now img = defaults v now.
Proof. intros Ha Hp. unfold processReceipt. now rewrite Ha, Hp. Qed.

Lemma cafe_luna_parses : JSON.parse (response_text (Some cafe_luna)) = inr (VObj cafe_luna_object).
Proof. vm_compute. reflexivity. Qed.

(** The scenario of the specification: a response with merchant and
    total only, at 02:00 UTC on 10 March 2024. *)
Example cafe_luna_scenario :
  processReceipt (answers cafe_luna) 1710036000000 photo
  = inr [("date", VStr "2024-03-10"); ("merchant", VStr "Cafe Luna");
         ("total", VNum (of_decimal false 125 (-1))); ("category", VStr "Other");
         ("paymentSource", VStr "Unknown")].
Proof. vm_compute. reflexivity. Qed.

(** C1, as amended: for every response text that parses to an object,
    whichever of the five fields it lacks, [processReceipt] resolves
    to a record in which each of date, merchant, total, category and
    paymentSource is the extracted value when that is truthy and
    otherwise the default -- today as the ISO calendar day in UTC,
    "Unknown Merchant", the number 0, "Other", "Unknown" -- and in
    which no field is undefined. *)
Theorem processReceipt_populates_every_field :
  forall (ai : Service) (now : Z) (img : string) (t : option string) (o : obj),
    ai (request img) = inr t ->
    JSON.parse (response_text t) = inr (VObj o) ->
    exists r,
      processReceipt ai now img = inr r
      /\ forall k, In k field_names ->
           get r k = or_else (get o k) (default_of now k)
           /\ (get r k = get o k \/ get r k = default_of now k)
           /\ (lookup k o = None -> get r k = default_of now k)
           /\ get r k <> VUndefined.
Proof.
  intros ai now img t o Ha Hp.
  rewrite (processReceipt_parsed ai now img t _ Ha Hp).
  destruct (defaults (VObj o) now) as [e|r] eqn:E; [rewrite defaults_fields in E; discriminate|].
  exists r. split; [reflexivity|]. intros k Hk.
  rewrite (defaults_get o now r k E Hk). repeat split.
  - apply or_else_cases.
  - intros Hnone. unfold get. now rewrite Hnone.
  - apply or_else_defined, default_defined.
Qed.

Lemma processReceipt_populates_every_field_witness :
  exists r,
    processReceipt (answers cafe_luna) 1710036000000 photo = inr r
    /\ forall k, In k field_names ->
         get r k = or_else (get cafe_luna_object k) (default_of 1710036000000 k)
         /\ (get r k = get cafe_luna_object k \/ get r k = default_of 1710036000000 k)
         /\ (lookup k cafe_luna_object = None -> get r k = default_of 1710036000000 k)
         /\ get r k <> VUndefined.
Proof.
  apply (processReceipt_populates_every_field
           (answers cafe_luna) 1710036000000 photo (Some cafe_luna) cafe_luna_object).
  - reflexivity.
  - vm_compute. reflexivity.
Defined.

(** C1, as stated, fails: at 02:00 UTC on 10 March 2024 a caller five
    hours behind UTC is still on 9 March, and the date filled in for a
    response without one is 10 March. *)
Lemma default_date_is_not_the_local_day :
  exists r,
    processReceipt (answers cafe_luna) 1710036000000 photo = inr r
    /\ lookup "date" cafe_luna_object = None
    /\ get r "date" = VStr "2024-03-10"
    /\ local_day 1710036000000 (-300) = "2024-03-09"
    /\ get r "date" <> VStr (local_day 1710036000000 (-300)).
Proof.
  eexists. split; [vm_compute; reflexivity|].
  split; [reflexivity|]. split; [reflexivity|]. split; [vm_compute; reflexivity|].
  vm_compute. discriminate.
Qed.

(** C10: a field that is present but holds the empty string (or, for
    total, the number 0) is replaced by the documented default exactly
    as a missing field is: two responses that differ only in that one
    has the empty field and the other lacks it give the same result,
    in which that field is the default. *)
Theorem empty_field_is_defaulted_like_a_missing_one :
  forall (ai1 ai2 : Service) (now : Z) (img : string)
         (t1 t2 : option string) (o1 o2 : obj) (k : string),
    In k field_names ->
    ai1 (request img) = inr t1 -> JSON.parse (response_text t1) = inr (VObj o1) ->
    ai2 (request img) = inr t2 -> JSON.parse (response_text t2) = inr (VObj o2) ->
    (lookup k o1 = Some (VStr EmptyString)
     \/ (k = "total" /\ lookup k o1 = Some (VNum zero))) ->
    lookup k o2 = None ->
    (forall k', In k' field_names -> k' <> k -> get o1 k' = get o2 k') ->
    processReceipt ai1 now img = processReceipt ai2 now img
    /\ exists r, processReceipt ai1 now img = inr r /\ get r k = default_of now k.
Proof.
  intros ai1 ai2 now img t1 t2 o1 o2 k Hk Ha1 Hp1 Ha2 Hp2 Hempty Hmissing Hsame.
  rewrite (processReceipt_parsed ai1 now img t1 _ Ha1 Hp1).
  rewrite (processReceipt_parsed ai2 now img t2 _ Ha2 Hp2).
  assert (Hfalsy : truthy (get o1 k) = false).
  { unfold get. destruct Hempty as [-> | [_ ->]]; reflexivity. }
  assert (Hundef : get o2 k = VUndefined) by (unfold get; now rewrite Hmissing).
  assert (Heq : forall k', In k' field_names ->
                 or_else (get o1 k') (default_of now k') = or_else (get o2 k') (default_of now k')).
  { intros k' Hk'. destruct (string_dec k' k) as [->|Hne].
    - unfold or_else. now rewrite Hfalsy, Hundef.
    - now rewrite (Hsame k' Hk' Hne). }
  split.
  - rewrite !defaults_fields, !today_utc.
    pose proof (Heq "date") as E1. pose proof (Heq "merchant") as E2.
    pose proof (Heq "total") as E3. pose proof (Heq "category") as E4.
    pose proof (Heq "paymentSource") as E5.
    unfold default_of in E1, E2, E3, E4, E5. simpl in E1, E2, E3, E4, E5.
    rewrite E1, E2, E3, E4, E5; simpl; auto 6.
  - rewrite defaults_fields. eexists. split; [reflexivity|].
    rewrite (defaults_get o1 now _ k (defaults_fields o1 now) Hk).
    unfold or_else. now rewrite Hfalsy.
Qed.

Lemma empty_field_is_defaulted_like_a_missing_one_witness :
  processReceipt (answers (json "{'merchant': '', 'total': 12.5}")) 1710036000000 photo
  = processReceipt (answers (json "{'total': 12.5}")) 1710036000000 photo
  /\ exists r,
       processReceipt (answers (json "{'merchant': '', 'total': 12.5}")) 1710036000000 photo = inr r
       /\ get r "merchant" = default_of 1710036000000 "merchant".
Proof.
  apply (empty_field_is_defaulted_like_a_missing_one
           (answers (json "{'merchant': '', 'total': 12.5}"))
           (answers (json "{'total': 12.5}"))
           1710036000000 photo
           (Some (json "{'merchant': '', 'total': 12.5}"))
           (Some (json "{'total': 12.5}"))
           [("merchant", VStr EmptyString); ("total", VNum (of_decimal false 125 (-1)))]
           [("total", VNum (of_decimal false 125 (-1)))]
           "merchant").
  - simpl. tauto.
  - reflexivity.
  - vm_compute. reflexivity.
  - reflexivity.
  - vm_compute. reflexivity.
  - left. reflexivity.
  - reflexivity.
  - intros k' Hk' Hne. simpl in Hk'.
    destruct Hk' as [<-|[<-|[<-|[<-|[<-|[]]]]]]; try reflexivity. now elim Hne.
Defined.

(** The same for the other fields, by evaluation: an empty date,
    category or paymentSource and a total of 0. *)
Example empty_fields_scenario :
  processReceipt (answers (json "{'date': '', 'category': '', 'paymentSource': '', 'total': 0}"))
    1710036000000 photo
  = processReceipt (answers (json "{}")) 1710036000000 photo.
Proof. vm_compute. reflexivity. Qed.

Lemma inlineData_prefixed prefix payload :
  free_of "," (chars prefix) = true -> free_of "," (chars payload) = true ->
  payload <> EmptyString ->
  inlineData (prefix ++ "," ++ payload) = VStr payload.
Proof.
  intros Hp Hq Hne. unfold inlineData, split.
  rewrite chars_app. simpl chars.
  change (list_ascii_of_string payload) with (chars payload).
  rewrite (split_chars_at "," _ _ [] Hp), (split_chars_free "," _ [] Hq).
  simpl. unfold index. simpl. unfold or_else. simpl.
  unfold of_chars, chars. rewrite string_of_list_ascii_of_string.
  destruct (String.eqb_spec payload EmptyString); [contradiction | reflexivity].
Qed.

Lemma inlineData_raw raw :
  free_of "," (chars raw) = true -> inlineData raw = VStr raw.
Proof.
  intros H. unfold inlineData, split. rewrite (split_chars_free "," _ [] H). reflexivity.
Qed.

(** C8, as amended: when the image string is a prefix that contains no
    comma, a comma, and a payload that is not empty and contains no
    comma, the request carries exactly the payload; when the string
    contains no comma at all, the request carries it unchanged; and
    the service is given nothing but that request. *)
Theorem request_carries_the_payload :
  (forall prefix payload : string,
      free_of "," (chars prefix) = true -> free_of "," (chars payload) = true ->
      payload <> EmptyString ->
      data (request (prefix ++ "," ++ payload)) = VStr payload)
  /\ (forall raw : string,
        free_of "," (chars raw) = true -> data (request raw) = VStr raw)
  /\ (forall (ai ai' : Service) (now : Z) (img : string),
        ai (request img) = ai' (request img) ->
        processReceipt ai now img = processReceipt ai' now img).
Proof.
  split; [|split].
  - intros. now apply inlineData_prefixed.
  - intros. now apply inlineData_raw.
  - intros ai ai' now img H. unfold processReceipt. now rewrite H.
Qed.

Lemma request_carries_the_payload_witness :
  data (request ("data:image/jpeg;base64" ++ "," ++ "/9j/4AAQ")) = VStr "/9j/4AAQ"
  /\ data (request "/9j/4AAQ") = VStr "/9j/4AAQ".
Proof.
  destruct request_carries_the_payload as (Hprefixed & Hraw & _). split.
  - apply Hprefixed; [reflexivity | reflexivity | discriminate].
  - apply Hraw. reflexivity.
Defined.

(** C8, as stated, fails: the string a canvas without pixels yields,
    and the data URL of an empty image file, carry a prefix and an
    empty payload, and the request carries the whole string, prefix
    included. *)
Lemma empty_payload_keeps_its_prefix :
  data (request "data:,") = VStr "data:,"
  /\ data (request "data:image/png;base64,") = VStr "data:image/png;base64,"
  /\ data (request "data:,") <> VStr EmptyString.
Proof. split; [reflexivity|]. split; [reflexivity | discriminate]. Qed.

End ExtractionFacts.

(** ** The edit form *)

Module FormFacts.
Import Input JSString JSNumber JSValue Types GeminiService ReceiptEdit Calendar Defaults Examples.
Import ObjectFacts ExtractionFacts.

Lemma handleSubmit_fields d f now :
  handleSubmit d f now
  = [("id", or_else (get d "id") (VStr (integer now)));
     ("date", date f);
     ("merchant", merchant f);
     ("total", or_else (VNum (parseFloat (total f))) (VNum zero));
     ("category", category f);
     ("paymentSource", paymentSource f);
     ("status", VStr "pending");
     ("imageUrl", get d "imageUrl")].
Proof. reflexivity. Qed.

Lemma or_zero x : or_else (VNum x) (VNum zero) = VNum (if is_zero x || is_nan x then zero else x).
Proof. unfold or_else. simpl. now destruct (is_zero x || is_nan x). Qed.

Lemma handleSubmit_total_value d f now :
  get (handleSubmit d f now) "total" = VNum (total_of_text (total f)).
Proof. rewrite handleSubmit_fields. unfold total_of_text. simpl. apply or_zero. Qed.

Lemma total_of_text_not_nan s : is_nan (total_of_text s) = false.
Proof.
  unfold total_of_text. destruct (parseFloat s); reflexivity.
Qed.

Lemma initialFormData_fields d now f :
  initialFormData d now = inr f ->
  date f = or_else (get d "date") (today now)
  /\ merchant f = or_else (get d "merchant") (VStr EmptyString)
  /\ category f = or_else (get d "category") (VStr "Other")
  /\ paymentSource f = or_else (get d "paymentSource") (VStr "Credit Card").
Proof.
  unfold initialFormData.
  destruct (match get d "total" with
            | VUndefined | VNull => inr VUndefined
            | v => match ReceiptEdit.toString v with inr s => inr (VStr s) | inl e => inl e end
            end) as [e|t]; [discriminate|].
  intros [= <-]. simpl. auto.
Qed.

Lemma bare_form_opens : initialFormData bare_draft 0 = inr bare_form.
Proof. reflexivity. Qed.

(** C9, as amended: when the response has no paymentSource, the
    extraction client's output has "Unknown"; when the draft the edit
    form is opened on has no paymentSource, the form starts with
    "Credit Card", and the record produced by confirming it carries
    what the form holds, "Credit Card" if the field was not changed. *)
Theorem paymentSource_defaults :
  (forall (ai : Service) (now : Z) (img : string) (t : option string) (o : obj),
      ai (request img) = inr t ->
      JSON.parse (response_text t) = inr (VObj o) ->
      lookup "paymentSource" o = None ->
      exists r, processReceipt ai now img = inr r /\ get r "paymentSource" = VStr "Unknown")
  /\ (forall (d : obj) (now : Z) (f : FormData),
        lookup "paymentSource" d = None ->
        initialFormData d now = inr f ->
        paymentSource f = VStr "Credit Card"
        /\ forall now', get (handleSubmit d f now') "paymentSource" = VStr "Credit Card")
  /\ (forall (d : obj) (f : FormData) (now : Z),
        get (handleSubmit d f now) "paymentSource" = paymentSource f).
Proof.
  split; [|split].
  - intros ai now img t o Ha Hp Hnone.
    rewrite (processReceipt_parsed ai now img t _ Ha Hp), defaults_fields.
    eexists. split; [reflexivity|].
    simpl. unfold get. now rewrite Hnone.
  - intros d now f Hnone Hf.
    destruct (initialFormData_fields d now f Hf) as (_ & _ & _ & Hp).
    assert (E : paymentSource f = VStr "Credit Card").
    { rewrite Hp. unfold get. now rewrite Hnone. }
    split; [exact E|]. intros now'. rewrite handleSubmit_fields. simpl. exact E.
  - intros. now rewrite handleSubmit_fields.
Qed.

Lemma paymentSource_defaults_witness :
  (exists r,
      processReceipt (answers cafe_luna) 0 photo = inr r
      /\ get r "paymentSource" = VStr "Unknown")
  /\ paymentSource bare_form = VStr "Credit Card"
  /\ get (handleSubmit bare_draft bare_form 1) "paymentSource" = VStr "Credit Card".
Proof.
  destruct paymentSource_defaults as (Hclient & Hform & _). split.
  - apply (Hclient _ 0 photo (Some cafe_luna) cafe_luna_object).
    + reflexivity.
    + vm_compute. reflexivity.
    + reflexivity.
  - destruct (Hform bare_draft 0 bare_form) as [H1 H2]; [reflexivity | reflexivity |].
    split; [exact H1 | exact (H2 1)].
Defined.

(** C9, as stated, fails for the form: confirming the form opened on a
    draft without paymentSource stores "Credit Card", not "Unknown". *)
Lemma form_default_is_credit_card :
  lookup "paymentSource" bare_draft = None
  /\ initialFormData bare_draft 0 = inr bare_form
  /\ get (handleSubmit bare_draft bare_form 1) "paymentSource" = VStr "Credit Card"
  /\ get (handleSubmit bare_draft bare_form 1) "paymentSource" <> VStr "Unknown".
Proof.
  split; [reflexivity|]. split; [reflexivity|]. split; [reflexivity | discriminate].
Qed.

(** C4: when the form is confirmed with the text "12.x" in its total
    field, the stored total is 0.  The field is a number field: for a
    text that is not a valid number it hands the empty string to the
    form, and whatever text the form holds, the stored total is 0 when
    [parseFloat] finds no number in it.  A valid number with a finite
    value other than zero is stored as that value. *)
Theorem handleSubmit_total :
  (forall (d : obj) (f : FormData) (now : Z),
      is_nan (parseFloat (total f)) = true ->
      get (handleSubmit d f now) "total" = VNum zero)
  /\ (forall (d : obj) (f : FormData) (typed : string) (now : Z),
        valid_number typed = false ->
        get (handleSubmit d (onChange f (ChangeTotal typed)) now) "total" = VNum zero)
  /\ (forall (d : obj) (f : FormData) (now : Z),
        get (handleSubmit d (onChange f (ChangeTotal "12.x")) now) "total" = VNum zero)
  /\ (forall (d : obj) (f : FormData) (typed : string) (now : Z),
        valid_number typed = true ->
        is_finite (parseFloat typed) = true -> is_zero (parseFloat typed) = false ->
        get (handleSubmit d (onChange f (ChangeTotal typed)) now) "total"
        = VNum (parseFloat typed))
  /\ (forall (w : App.World) (d : obj) (f : FormData) (now : Z),
        App.activeView (App.app w) = edit ->
        App.currentEdit (App.app w) = Some d -> App.form (App.app w) = Some f ->
        exists w' r,
          App.run w [App.Edit (ChangeTotal "12.x"); App.Done now] = App.Running w'
          /\ App.receipts (App.app w') = r :: App.receipts (App.app w)
          /\ get r "total" = VNum zero).
Proof.
  assert (Hnan : forall d f now, is_nan (parseFloat (total f)) = true ->
                                 get (handleSubmit d f now) "total" = VNum zero).
  { intros d f now H. rewrite handleSubmit_total_value. unfold total_of_text.
    rewrite H. now rewrite orb_true_r. }
  assert (Hbad : forall d f typed now, valid_number typed = false ->
            get (handleSubmit d (onChange f (ChangeTotal typed)) now) "total" = VNum zero).
  { intros d f typed now H. apply Hnan. cbn [onChange total]. unfold number_value.
    now rewrite H. }
  split; [exact Hnan|]. split; [exact Hbad|]. split; [|split].
  - intros d f now. now apply Hbad.
  - intros d f typed now Hv Hf Hz. rewrite handleSubmit_total_value.
    cbn [onChange total]. unfold number_value, total_of_text. rewrite Hv, Hz.
    destruct (parseFloat typed); try discriminate; reflexivity.
  - intros w d f now V C F. eexists. eexists. split.
    + cbn [App.run]. unfold App.step at 1. rewrite F. unfold App.render, App.with_form.
      cbn [App.activeView App.currentEdit App.form]. rewrite V, C.
      unfold App.step. cbn [App.app App.form App.currentEdit].
      unfold App.render, App.saveReceipt. cbn [App.activeView]. reflexivity.
    + cbn [App.app App.receipts]. split; [reflexivity|]. now apply Hbad.
Qed.

Lemma handleSubmit_total_witness :
  get (handleSubmit bare_draft (onChange bare_form (ChangeTotal "x12")) 1) "total" = VNum zero
  /\ get (handleSubmit bare_draft (onChange bare_form (ChangeTotal "12.5")) 1) "total"
     = VNum (parseFloat "12.5")
  /\ exists w' r,
       App.run (Scenes.after fresh Scenes.capture)
         [App.Edit (ChangeTotal "12.x"); App.Done 1710036000001] = App.Running w'
       /\ App.receipts (App.app w') = r :: App.receipts (App.app (Scenes.after fresh Scenes.capture))
       /\ get r "total" = VNum zero.
Proof.
  destruct handleSubmit_total as (_ & Hbad & _ & Hgood & Hrun).
  split; [|split].
  - apply Hbad. reflexivity.
  - apply Hgood; reflexivity.
  - refine (Hrun (Scenes.after fresh Scenes.capture)
              (Flow.draft Scenes.cafe_luna_result photo 1710036000000)
              Scenes.cafe_luna_form 1710036000001 _ _ _);
      vm_compute; reflexivity.
Defined.

Lemma Category_value_listed c : In (Category_value c) Category_values.
Proof. destruct c; simpl; tauto. Qed.

(** C6, as amended: in the record that confirming the form stores,
    total is a number and never NaN (it can be negative or infinite);
    category is what the form holds: the draft's category when that is
    truthy, "Other" when the draft has none, and a member of the
    closed set once the user has picked one from the select. *)
Theorem stored_total_and_category :
  (forall (d : obj) (f : FormData) (now : Z),
      exists x, get (handleSubmit d f now) "total" = VNum x /\ is_nan x = false)
  /\ (forall (d : obj) (f : FormData) (now : Z),
        get (handleSubmit d f now) "category" = category f)
  /\ (forall (d : obj) (now : Z) (f : FormData),
        initialFormData d now = inr f ->
        category f = or_else (get d "category") (VStr "Other"))
  /\ (forall (f : FormData) (c : Category),
        exists s, category (onChange f (ChangeCategory c)) = VStr s /\ In s Category_values).
Proof.
  split; [|split; [|split]].
  - intros d f now. exists (total_of_text (total f)). split.
    + apply handleSubmit_total_value.
    + apply total_of_text_not_nan.
  - intros. now rewrite handleSubmit_fields.
  - intros d now f Hf. now destruct (initialFormData_fields d now f Hf) as (_ & _ & H & _).
  - intros f c. exists (Category_value c). split; [reflexivity | apply Category_value_listed].
Qed.

Lemma stored_total_and_category_witness :
  category bare_form = or_else (get bare_draft "category") (VStr "Other").
Proof.
  destruct stored_total_and_category as (_ & _ & H & _).
  apply (H bare_draft 0 bare_form). reflexivity.
Defined.

End FormFacts.

(** ** The call of the list view *)

Module ViewFacts.
Import JSString JSNumber JSValue Types ReceiptEdit HistoryView.
Import Defaults Wellformed ObjectFacts FormFacts.

Lemma totalSpent_numbers rs : forall x,
  forallb numeric rs = true ->
  exists y, fold_left
              (fun acc r => match acc with inl e => inl e | inr sum => plus sum (get r "total") end)
              rs (inr (VNum x)) = inr (VNum y).
Proof.
  induction rs as [|r rs IH]; simpl; intros x H; [eauto|].
  apply andb_true_iff in H as [Hr H]. unfold numeric in Hr.
  destruct (get r "total") as [| | |t| | |]; try discriminate. simpl. now apply IH.
Qed.

Lemma rows_listable rs : forallb listable rs = true <-> exists t, rows rs = inr t.
Proof.
  induction rs as [|r rs IH]; cbn [forallb rows].
  - split; eauto.
  - unfold row, listable, numeric, keyed, toFixed2.
    destruct (get r "total") as [| | |t| | |]; cbn [andb];
      try (split; [discriminate | intros [? [=]]]).
    destruct (key r) as [e|k]; cbn [andb]; [split; [discriminate | intros [? [=]]]|].
    rewrite IH. split.
    + intros [t' ->]. eauto.
    + destruct (rows rs); [intros [? [=]] | eauto].
Qed.

Lemma listable_numeric rs : forallb listable rs = true -> forallb numeric rs = true.
Proof.
  rewrite !forallb_forall. intros H r Hr. specialize (H r Hr).
  unfold listable in H. now apply andb_true_iff in H as [H _].
Qed.

Lemma view_listable rs : forallb listable rs = true -> exists shown, view rs = inr shown.
Proof.
  intros H. unfold view, totalSpent.
  destruct (totalSpent_numbers rs zero (listable_numeric rs H)) as [y ->]. cbn [toFixed2].
  destruct rs as [|r rs']; [eauto|].
  apply rows_listable in H as [t ->]. eauto.
Qed.

Lemma view_returned rs shown : view rs = inr shown -> forallb listable rs = true.
Proof.
  unfold view. destruct (totalSpent rs); [discriminate|]. destruct (toFixed2 v); [discriminate|].
  destruct rs as [|r rs']; [reflexivity|]. intros H.
  apply rows_listable. destruct (rows (r :: rs')); [discriminate | eauto].
Qed.

Lemma listable_synced r : listable r = true -> listable (set "status" (VStr "synced") r) = true.
Proof.
  unfold listable, numeric, keyed, key. now rewrite !get_set_other by discriminate.
Qed.

Lemma listable_submit d f now i :
  get d "id" = VStr i -> listable (handleSubmit d f now) = true.
Proof.
  intros Hi. unfold listable, numeric, keyed, key.
  rewrite handleSubmit_total_value, handleSubmit_fields. unfold get at 1. simpl. rewrite Hi.
  unfold or_else. now destruct (truthy (VStr i)).
Qed.

End ViewFacts.

(** ** The application: the store and the views *)

Module AppFacts.
Import JSString JSNumber JSValue Types GeminiService ReceiptEdit HistoryView App.
Import Exact Calendar Defaults Examples Wellformed.
Import ObjectFacts JSONFacts ExtractionFacts FormFacts ViewFacts.

Lemma objects_map rs : objects (List.map VObj rs) = Some rs.
Proof. induction rs as [|r rs IH]; simpl; [reflexivity | now rewrite IH]. Qed.

Lemma exact_array rs : exact (array rs) = forallb exact_record rs.
Proof. unfold array. simpl. induction rs as [|r rs IH]; simpl; [reflexivity | now rewrite IH]. Qed.

Lemma persist_text rs : persist rs = Some (of_chars (JSON.print (array rs))).
Proof. reflexivity. Qed.

(** The start on JSON text of an array of records goes through the
    call of the list view on them. *)
Lemma start_parsed s rs :
  s <> EmptyString -> JSON.parse s = inr (array rs) ->
  start (Some s) = match view rs with
                   | inl e => Threw e
                   | inr _ => Running (loaded rs)
                   end.
Proof.
  intros Hne Hp. unfold start, load.
  destruct (String.eqb_spec s EmptyString) as [|_]; [contradiction|].
  rewrite Hp. unfold array. now rewrite objects_map.
Qed.

Lemma start_listable s rs :
  s <> EmptyString -> JSON.parse s = inr (array rs) -> forallb listable rs = true ->
  start (Some s) = Running (loaded rs).
Proof.
  intros Hne Hp Hl. rewrite (start_parsed s rs Hne Hp).
  now destruct (view_listable rs Hl) as [shown ->].
Qed.

(** A process that starts on what [persist] wrote finds the same
    records, when the list view can be called on them. *)
Lemma start_persist rs :
  forallb exact_record rs = true -> forallb listable rs = true ->
  start (persist rs) = Running (loaded rs).
Proof.
  intros H Hl. rewrite <- exact_array in H.
  destruct (parse_stringify (array rs) H) as (text & Hs & Hp).
  rewrite persist_text. unfold JSON.stringify, array in Hs. injection Hs as <-.
  apply start_listable; [|exact Hp|exact Hl].
  unfold array. rewrite print_VArr. discriminate.
Qed.




Lemma step_done w d f now :
  form (app w) = Some f -> currentEdit (app w) = Some d ->
  step w (Done now)
  = Running {| app := {| activeView := history;
                         receipts := handleSubmit d f now :: receipts (app w);
                         isScanning := isScanning (app w);
                         isProcessing := isProcessing (app w);
                         currentEdit := None; form := None |};
               storage := persist (handleSubmit d f now :: receipts (app w));
               alerts := alerts w |}.
Proof. intros Hf Hd. unfold step. rewrite Hf, Hd. reflexivity. Qed.

(** C3, as amended: [saveReceipt] puts the record first and leaves
    the rest of the sequence as it was, for every sequence and every
    record; confirming the form appends in this way and writes the
    whole sequence to the slot at once; and a new process that starts
    on the slot written after [append(r1); append(r2)] finds exactly
    [r2, r1], in that order, in front of the records that were there
    before, provided JSON text represents every record exactly (no
    undefined property, every number finite and read back from its
    decimal text) and the list view can be called on every record
    (its total is a Number, its identifier can be made a key). *)
Theorem append_is_newest_first_and_survives_reload :
  (forall (s : State) (r : obj), receipts (saveReceipt s r) = r :: receipts s)
  /\ (forall (w : World) (d : obj) (f : FormData) (now : Z),
        form (app w) = Some f -> currentEdit (app w) = Some d ->
        exists w', step w (Done now) = Running w'
                   /\ receipts (app w') = handleSubmit d f now :: receipts (app w)
                   /\ storage w' = persist (receipts (app w')))
  /\ (forall (s : State) (r1 r2 : obj),
        forallb exact_record (r2 :: r1 :: receipts s) = true ->
        forallb listable (r2 :: r1 :: receipts s) = true ->
        start (persist (receipts (saveReceipt (saveReceipt s r1) r2)))
        = Running (loaded (r2 :: r1 :: receipts s))).
Proof.
  split; [|split].
  - reflexivity.
  - intros w d f now Hf Hd. rewrite (step_done w d f now Hf Hd).
    eexists. split; [reflexivity|]. split; reflexivity.
  - intros s r1 r2 He Hl. cbn [saveReceipt receipts]. now apply start_persist.
Qed.

Lemma append_is_newest_first_and_survives_reload_witness :
  start (persist (receipts (saveReceipt (saveReceipt initial receipt1) receipt2)))
  = Running (loaded [receipt2; receipt1]).
Proof.
  destruct append_is_newest_first_and_survives_reload as (_ & _ & Hreload).
  apply (Hreload initial receipt1 receipt2); vm_compute; reflexivity.
Defined.

(** C3, as stated, fails: an answer with the total 1e999 is a total of
    Infinity, which the form stores; [JSON.stringify] writes it as
    null, so the slot written after the two appends does not hold the
    second record, and a new process on that slot does not return
    [r2, r1]: the list view throws on the total that was read back. *)
Lemma infinite_total_is_not_read_back :
  exists w r1 r2,
    run fresh [TapCamera; Capture photo (answers cafe_luna) 1710036000000; Done 1710036000001;
               TapCamera; Capture photo (answers huge_total) 1710036060000; Done 1710036060001]
    = Running w
    /\ receipts (app w) = [r2; r1]
    /\ get r2 "total" = VNum (Infinity false)
    /\ exact_record r2 = false
    /\ start (storage w) = Threw TypeError
    /\ start (storage w) <> Running (loaded [r2; r1]).
Proof.
  eexists. eexists. eexists. split; [vm_compute; reflexivity|].
  split; [reflexivity|]. split; [reflexivity|]. split; [vm_compute; reflexivity|].
  split; [vm_compute; reflexivity|]. vm_compute. discriminate.
Qed.

(** Two receipts captured and confirmed one after the other, then a
    new process on the slot they left. *)
Example two_receipts_survive_a_restart :
  exists w r1 r2,
    run fresh [TapCamera; Capture photo (answers cafe_luna) 1710036000000; Done 1710036000001;
               TapCamera; Capture photo (answers groceries) 1710036060000;
               Edit (ChangeTotal "2.75"); Edit (ChangeCategory TRANSPORT); Done 1710036060001]
    = Running w
    /\ receipts (app w) = [r2; r1]
    /\ get r1 "merchant" = VStr "Cafe Luna" /\ get r2 "category" = VStr "Transport"
    /\ start (storage w) = Running (loaded [r2; r1]).
Proof.
  eexists. eexists. eexists. split; [vm_compute; reflexivity|].
  split; [reflexivity|]. split; [reflexivity|]. split; [reflexivity|].
  vm_compute. reflexivity.
Qed.

(** The scenario of the specification: a file that is not an image is
    refused with a notice, and nothing else changes. *)
Example text_file_upload_is_refused :
  step fresh (Upload "text/plain" (Some "data:text/plain;base64,aGk=") unreachable 0)
  = Running {| app := app fresh; storage := storage fresh;
               alerts := ["Please upload an image file."] |}.
Proof. reflexivity. Qed.

Lemma markAllSynced_nth prev i r :
  nth_error prev i = Some r ->
  nth_error (markAllSynced prev) i = Some (set "status" (VStr "synced") r).
Proof. intros H. unfold markAllSynced. now rewrite nth_error_map, H. Qed.

(** C5: on an empty store [simulateSync] changes nothing; on a store
    of N records the result has N records, the i-th of which is the
    i-th record of before with status "synced" and every other
    property as it was; the rest of the state is untouched, and the
    result is written to the slot. *)
Theorem markAllSynced_only_sets_status :
  (forall (s : State) (al : list string), receipts s = [] -> simulateSync s al = (s, al))
  /\ (forall prev : list obj, List.length (markAllSynced prev) = List.length prev)
  /\ (forall (prev : list obj) (i : nat) (r : obj),
        nth_error prev i = Some r ->
        exists r', nth_error (markAllSynced prev) i = Some r'
                   /\ get r' "status" = VStr "synced"
                   /\ forall k, k <> "status" -> lookup k r' = lookup k r)
  /\ (forall (s : State) (al : list string),
        receipts (fst (simulateSync s al)) = markAllSynced (receipts s)
        /\ activeView (fst (simulateSync s al)) = activeView s
        /\ isScanning (fst (simulateSync s al)) = isScanning s
        /\ currentEdit (fst (simulateSync s al)) = currentEdit s
        /\ form (fst (simulateSync s al)) = form s)
  /\ (forall w : World,
        activeView (app w) = history -> receipts (app w) <> [] ->
        exists w', step w Sync = Running w'
                   /\ receipts (app w') = markAllSynced (receipts (app w))
                   /\ storage w' = persist (markAllSynced (receipts (app w)))).
Proof.
  split; [|split; [|split; [|split]]].
  - intros s al H. unfold simulateSync. now rewrite H.
  - intros prev. apply length_map.
  - intros prev i r H. exists (set "status" (VStr "synced") r). split; [|split].
    + now apply markAllSynced_nth.
    + apply get_set_same.
    + intros k Hk. now apply lookup_set_other.
  - intros s al. unfold simulateSync. destruct (receipts s) eqn:E; simpl; rewrite ?E; auto.
  - intros w Hv Hne. unfold step. rewrite Hv. unfold simulateSync.
    destruct (receipts (app w)) as [|r rs] eqn:E; [congruence|].
    unfold render. simpl. rewrite Hv. simpl.
    eexists. split; [reflexivity|]. split; reflexivity.
Qed.

Lemma markAllSynced_only_sets_status_witness :
  simulateSync initial [] = (initial, [])
  /\ exists r', nth_error (markAllSynced [receipt2; receipt1]) 1 = Some r'
                /\ get r' "status" = VStr "synced"
                /\ forall k, k <> "status" -> lookup k r' = lookup k receipt1.
Proof.
  destruct markAllSynced_only_sets_status as (Hempty & _ & Hnth & _). split.
  - apply (Hempty initial []). reflexivity.
  - apply (Hnth [receipt2; receipt1] 1%nat receipt1). reflexivity.
Defined.

(** C6, as stated, fails: the service answers with a negative total
    and a category outside the closed set, the user confirms the form
    as it opens, and the stored record has that total and category. *)
Lemma stored_record_can_be_negative_and_uncategorised :
  exists w r x,
    run fresh [TapCamera; Capture photo (answers groceries) 1710036000000; Done 1710036000001]
    = Running w
    /\ receipts (app w) = [r]
    /\ get r "total" = VNum x /\ is_negative x = true
    /\ get r "category" = VStr "Groceries"
    /\ ~ In "Groceries" Category_values.
Proof.
  eexists. eexists. eexists. split; [vm_compute; reflexivity|].
  split; [reflexivity|]. split; [reflexivity|]. split; [reflexivity|].
  split; [reflexivity|]. simpl. intuition discriminate.
Qed.

Lemma handleCapture_failure s al ai now img e :
  GeminiService.processReceipt ai now img = inl e ->
  handleCapture s al ai now img
  = ({| activeView := activeView s; receipts := receipts s; isScanning := false;
        isProcessing := false; currentEdit := currentEdit s; form := form s |},
     notice_failed :: al).
Proof. intros H. unfold handleCapture. now rewrite H. Qed.

(** C7, as amended: an exception of the remote call, or of
    [JSON.parse] on the response text, makes [processReceipt] reject
    with that exception, and so does the response text [null]; on a
    rejection [handleCapture] shows the notice, leaves the receipts and
    the draft as they were, closes both overlays and leaves the active
    view where it was -- the list when the capture was started from the
    list. *)
Theorem extraction_failure_is_rejected_and_reported :
  (forall (ai : Service) (now : Z) (img : string) (e : Error),
      ai (request img) = inl e -> processReceipt ai now img = inl e)
  /\ (forall (ai : Service) (now : Z) (img : string) (t : option string) (e : Error),
        ai (request img) = inr t -> JSON.parse (response_text t) = inl e ->
        processReceipt ai now img = inl e)
  /\ (forall (ai : Service) (now : Z) (img : string) (t : option string),
        ai (request img) = inr t -> JSON.parse (response_text t) = inr VNull ->
        processReceipt ai now img = inl TypeError)
  /\ (forall (s : State) (al : list string) (ai : Service) (now : Z) (img : string) (e : Error),
        processReceipt ai now img = inl e ->
        snd (handleCapture s al ai now img) = notice_failed :: al
        /\ receipts (fst (handleCapture s al ai now img)) = receipts s
        /\ currentEdit (fst (handleCapture s al ai now img)) = currentEdit s
        /\ activeView (fst (handleCapture s al ai now img)) = activeView s
        /\ isScanning (fst (handleCapture s al ai now img)) = false
        /\ isProcessing (fst (handleCapture s al ai now img)) = false)
  /\ (forall (w : World) (img : string) (ai : Service) (now : Z) (e : Error),
        isScanning (app w) = true -> activeView (app w) = history ->
        processReceipt ai now img = inl e ->
        exists w', step w (Capture img ai now) = Running w'
                   /\ activeView (app w') = history
                   /\ receipts (app w') = receipts (app w)
                   /\ storage w' = storage w
                   /\ alerts w' = notice_failed :: alerts w).
Proof.
  split; [|split; [|split; [|split]]].
  - intros ai now img e H. unfold processReceipt. now rewrite H.
  - intros ai now img t e Ha Hp. unfold processReceipt. now rewrite Ha, Hp.
  - intros ai now img t Ha Hp. unfold processReceipt. now rewrite Ha, Hp.
  - intros s al ai now img e He. rewrite (handleCapture_failure s al ai now img e He).
    simpl. auto 7.
  - intros w img ai now e Hs Hv He. unfold step.
    rewrite Hs, (handleCapture_failure _ _ ai now img e He).
    unfold render. simpl. rewrite Hv. simpl.
    eexists. split; [reflexivity|]. simpl. auto.
Qed.

Lemma extraction_failure_is_rejected_and_reported_witness :
  processReceipt unreachable 0 photo = inl (ServiceError "fetch failed")
  /\ processReceipt (answers "{") 0 photo = inl SyntaxError
  /\ processReceipt (answers "null") 0 photo = inl TypeError
  /\ activeView (fst (handleCapture (app scanning) [] unreachable 0 photo)) = history
  /\ exists w', step scanning (Capture photo unreachable 0) = Running w'
                /\ activeView (app w') = history
                /\ receipts (app w') = receipts (app scanning)
                /\ storage w' = storage scanning
                /\ alerts w' = notice_failed :: alerts scanning.
Proof.
  destruct extraction_failure_is_rejected_and_reported
    as (Hcall & Hparse & Hnull & Hhandler & Hstep).
  split; [|split; [|split; [|split]]].
  - apply Hcall. reflexivity.
  - apply (Hparse _ 0 photo (Some "{")); reflexivity.
  - apply (Hnull _ 0 photo (Some "null")); reflexivity.
  - destruct (Hhandler (app scanning) [] unreachable 0 photo (ServiceError "fetch failed"))
      as (_ & _ & _ & Hview & _); [reflexivity | exact Hview].
  - apply (Hstep scanning photo unreachable 0 (ServiceError "fetch failed")); reflexivity.
Defined.

(** C7, as stated, fails: a capture started while the edit form is
    open (the camera button stays in reach) and failing leaves the
    view on the edit form; it does not return to the list. *)
Lemma failed_capture_from_the_form_stays_on_the_form :
  exists w,
    run fresh [TapCamera; Capture photo (answers groceries) 1710036000000;
               TapCamera; Capture photo unreachable 1710036060000]
    = Running w
    /\ activeView (app w) = edit
    /\ activeView (app w) <> history
    /\ alerts w = [notice_failed]
    /\ receipts (app w) = [].
Proof.
  eexists. split; [vm_compute; reflexivity|].
  split; [reflexivity|]. split; [discriminate|]. split; reflexivity.
Qed.

End AppFacts.

(** ** The store along a run *)

Module StoreFacts.
Import JSString JSNumber JSValue Types GeminiService ReceiptEdit App.
Import Exact Examples Store Scenes ObjectFacts AppFacts.

Lemma render_keeps s now s' :
  render s now = inr s' ->
  activeView s' = activeView s /\ receipts s' = receipts s
  /\ isScanning s' = isScanning s /\ isProcessing s' = isProcessing s
  /\ currentEdit s' = currentEdit s.
Proof.
  unfold render. intros H.
  destruct (activeView s) eqn:V; destruct (currentEdit s) as [d|] eqn:C;
    try (injection H as <-; simpl; repeat split; reflexivity).
  destruct (form s) as [f|].
  - injection H as <-. rewrite V, C. repeat split; reflexivity.
  - destruct (initialFormData d now) as [e|f]; [discriminate|].
    injection H as <-. simpl. repeat split; reflexivity.
Qed.

Lemma handleCapture_receipts s al ai now img :
  receipts (fst (handleCapture s al ai now img)) = receipts s.
Proof. unfold handleCapture. now destruct (processReceipt ai now img). Qed.

Lemma handleFileUpload_receipts s al ai now type dataUrl :
  receipts (fst (handleFileUpload s al ai now type dataUrl)) = receipts s.
Proof.
  unfold handleFileUpload. destruct (negb (is_prefix "image/" type)); [reflexivity|].
  destruct dataUrl as [b|]; [|reflexivity].
  destruct (String.eqb b EmptyString); [reflexivity | apply handleCapture_receipts].
Qed.

Lemma render_draft_returned s now s' : render_draft s now = inr s' -> render s now = inr s'.
Proof.
  unfold render_draft.
  destruct (activeView s), (currentEdit s) as [d|], (form s) as [f|]; trivial.
  now destruct (initialFormData d now).
Qed.

Lemma shown_draft s now (w w' : World) al :
  match render_draft s now with
  | inl e => Threw e
  | inr s'' => Running {| app := s''; storage := storage w; alerts := al |}
  end = Running w' ->
  match render s now with
  | inl e => Threw e
  | inr s'' => Running {| app := s''; storage := storage w; alerts := al |}
  end = Running w'.
Proof.
  destruct (render_draft s now) as [e|s''] eqn:R; [discriminate|].
  now rewrite (render_draft_returned _ _ _ R).
Qed.

(** A step that returns is the handler of the event and then [render]. *)
Lemma step_handled w ev w' :
  step w ev = Running w' ->
  match handled w ev with
  | None => Running w
  | Some (s', al, now, stored) =>
      match render s' now with
      | inl e => Threw e
      | inr s'' =>
          Running {| app := s'';
                     storage := if stored then persist (receipts s'') else storage w;
                     alerts := al |}
      end
  end = Running w'.
Proof.
  unfold step, handled. destruct ev; auto.
  - destruct (isScanning (app w)); [|auto].
    destruct (handleCapture (app w) (alerts w) ai now base64) as [s' al]. apply shown_draft.
  - destruct (activeView (app w)); auto.
    destruct (handleFileUpload (app w) (alerts w) ai now type dataUrl) as [s' al].
    apply shown_draft.
  - destruct (form (app w)); auto.
  - destruct (form (app w)), (currentEdit (app w)); auto.
  - destruct (form (app w)); auto.
  - destruct (activeView (app w)); auto.
    destruct (simulateSync (app w) (alerts w)); auto.
Qed.

Lemma handled_receipts w ev s' al now stored :
  handled w ev = Some (s', al, now, stored) ->
  (stored = false -> receipts s' = receipts (app w))
  /\ (writes_store ev = false -> stored = false).
Proof.
  unfold handled. destruct ev; simpl.
  - intros [= <- <- <- <-]. auto.
  - intros [= <- <- <- <-]. auto.
  - intros [= <- <- <- <-]. auto.
  - destruct (isScanning (app w)); [|discriminate]. intros [= <- <- <- <-].
    split; [intros _; apply handleCapture_receipts | auto].
  - destruct (activeView (app w)); try discriminate. intros [= <- <- <- <-].
    split; [intros _; apply handleFileUpload_receipts | auto].
  - destruct (form (app w)); [|discriminate]. intros [= <- <- <- <-]. auto.
  - destruct (form (app w)), (currentEdit (app w)); try discriminate.
    intros [= <- <- <- <-]. split; [discriminate | discriminate].
  - destruct (form (app w)); [|discriminate]. intros [= <- <- <- <-]. auto.
  - destruct (activeView (app w)); try discriminate. intros [= <- <- <- <-].
    split; [|discriminate]. unfold simulateSync.
    destruct (receipts (app w)) eqn:E; [intros _; exact E | discriminate].
  - intros [= <- <- <- <-]. auto.
Qed.

Lemma step_quiet w ev w' :
  writes_store ev = false -> step w ev = Running w' ->
  receipts (app w') = receipts (app w) /\ storage w' = storage w.
Proof.
  intros Hev. intros Hstep; apply step_handled in Hstep; revert Hstep.
  destruct (handled w ev) as [[[[s' al] now] stored]|] eqn:H.
  - destruct (handled_receipts _ _ _ _ _ _ H) as (Hsame & Hw).
    rewrite (Hw Hev) in *.
    destruct (render s' now) as [e|s''] eqn:R; [discriminate|]. intros [= <-]. simpl.
    destruct (render_keeps _ _ _ R) as (_ & -> & _). auto.
  - intros [= <-]. auto.
Qed.

(** X1.  Of all events only the confirmation of the form and the sync
    change the list of receipts or the storage slot: a run of other
    events, whatever they are and however many, leaves both as they
    were. *)
Theorem only_done_and_sync_write_the_store :
  forall (evs : list Event) (w w' : World),
    forallb (fun ev => negb (writes_store ev)) evs = true ->
    run w evs = Running w' ->
    receipts (app w') = receipts (app w) /\ storage w' = storage w.
Proof.
  induction evs as [|ev evs IH]; cbn [run forallb]; intros w w' Q.
  - intros [= <-]. auto.
  - apply andb_true_iff in Q as [Qev Q]. apply negb_true_iff in Qev.
    destruct (step w ev) as [w1| |] eqn:S; try discriminate. intros H.
    destruct (step_quiet _ _ _ Qev S) as [<- <-]. exact (IH _ _ Q H).
Qed.

Lemma only_done_and_sync_write_the_store_witness :
  receipts (app (after fresh nothing_saved)) = receipts (app fresh)
  /\ storage (after fresh nothing_saved) = storage fresh.
Proof.
  apply (only_done_and_sync_write_the_store nothing_saved fresh);
    vm_compute; reflexivity.
Defined.

Lemma step_mirrored w ev w' : mirrored w -> step w ev = Running w' -> mirrored w'.
Proof.
  unfold mirrored. intros M. intros Hstep; apply step_handled in Hstep; revert Hstep.
  destruct (handled w ev) as [[[[s' al] now] stored]|] eqn:H.
  - destruct (handled_receipts _ _ _ _ _ _ H) as (Hsame & _).
    destruct (render s' now) as [e|s''] eqn:R; [discriminate|]. intros [= <-]. simpl.
    destruct (render_keeps _ _ _ R) as (_ & Hr & _).
    destruct stored; [reflexivity|]. now rewrite Hr, (Hsame eq_refl).
  - now intros [= <-].
Qed.

Lemma run_mirrored evs : forall w w', mirrored w -> run w evs = Running w' -> mirrored w'.
Proof.
  induction evs as [|ev evs IH]; simpl; intros w w' M.
  - now intros [= <-].
  - destruct (step w ev) as [w1| |] eqn:S; try discriminate.
    apply IH. exact (step_mirrored _ _ _ M S).
Qed.

Lemma start_mirrored slot w : start slot = Running w -> mirrored w.
Proof.
  unfold start. destruct (load slot) as [e|[v|]]; [discriminate| |now intros [= <-]].
  destruct v; try discriminate. destruct (objects l) as [rs|]; [|discriminate].
  destruct (HistoryView.view rs); [discriminate|]. now intros [= <-].
Qed.

(** X2.  After any run of events from the start of the process, on any
    content of the slot, the storage slot holds the JSON text of the
    list of receipts in memory. *)
Theorem storage_always_mirrors_the_list :
  forall (slot : option string) (w : World) (evs : list Event) (w' : World),
    start slot = Running w -> run w evs = Running w' ->
    storage w' = persist (receipts (app w')).
Proof.
  intros slot w evs w' Hs Hr. exact (run_mirrored evs w w' (start_mirrored slot w Hs) Hr).
Qed.

Lemma storage_always_mirrors_the_list_witness :
  storage (after fresh two_receipts_synced)
  = persist (receipts (app (after fresh two_receipts_synced))).
Proof.
  apply (storage_always_mirrors_the_list None fresh two_receipts_synced);
    vm_compute; reflexivity.
Defined.

Lemma same_but_synced_refl r : same_but_synced r r.
Proof. split; auto. Qed.

Lemma same_but_synced_trans a b c :
  same_but_synced a b -> same_but_synced b c -> same_but_synced a c.
Proof.
  intros (H1 & S1) (H2 & S2). split.
  - intros k Hk. now rewrite (H2 k Hk), (H1 k Hk).
  - destruct S2 as [E|E]; [rewrite E; exact S1 | now right].
Qed.

Lemma same_but_synced_mark r : same_but_synced r (set "status" (VStr "synced") r).
Proof.
  split.
  - intros k Hk. now apply lookup_set_other.
  - right. apply lookup_set_same.
Qed.

Lemma Forall2_refl_synced rs : Forall2 same_but_synced rs rs.
Proof. induction rs; constructor; auto using same_but_synced_refl. Qed.

Lemma Forall2_mark rs : Forall2 same_but_synced rs (markAllSynced rs).
Proof. induction rs; simpl; constructor; auto using same_but_synced_mark. Qed.

Lemma Forall2_trans_synced a : forall b c,
  Forall2 same_but_synced a b -> Forall2 same_but_synced b c -> Forall2 same_but_synced a c.
Proof.
  induction a as [|x a IH]; intros b c H1 H2; inversion H1; subst; inversion H2; subst;
    constructor; eauto using same_but_synced_trans.
Qed.

Lemma kept_refl rs : kept rs rs.
Proof. exists [], rs. split; [reflexivity | apply Forall2_refl_synced]. Qed.

Lemma kept_trans a b c : kept a b -> kept b c -> kept a c.
Proof.
  intros (add1 & r1 & -> & F1) (add2 & r2 & -> & F2).
  apply Forall2_app_inv_l in F2 as (x & y & Fx & Fy & ->).
  exists (add2 ++ x), y. split; [now rewrite app_assoc|].
  eapply Forall2_trans_synced; eauto.
Qed.

Lemma step_kept w ev w' : step w ev = Running w' -> kept (receipts (app w)) (receipts (app w')).
Proof.
  destruct (writes_store ev) eqn:Hev.
  - unfold step. destruct ev; try discriminate Hev.
    + destruct (form (app w)) as [f|], (currentEdit (app w)) as [d|];
        try (intros [= <-]; apply kept_refl).
      unfold render. simpl. intros [= <-]. simpl.
      exists [handleSubmit d f now], (receipts (app w)). split; [reflexivity|].
      apply Forall2_refl_synced.
    + destruct (activeView (app w)) eqn:V; try (intros [= <-]; apply kept_refl).
      unfold simulateSync. destruct (receipts (app w)) as [|r rs] eqn:E.
      * intros H. destruct (render (app w) 0) as [e|s''] eqn:R; [discriminate|].
        injection H as <-. simpl. destruct (render_keeps _ _ _ R) as (_ & -> & _).
        rewrite E. apply kept_refl.
      * unfold render. simpl. rewrite V. intros [= <-]. simpl.
        exists [], (markAllSynced (r :: rs)). split; [reflexivity | apply Forall2_mark].
  - intros H. destruct (step_quiet _ _ _ Hev H) as [-> _]. apply kept_refl.
Qed.

(** X3.  No run of events removes or reorders records: the records
    held before are all there afterwards, in the same order, behind
    those added in front, each with the same properties except a
    status that may have turned to synced. *)
Theorem records_are_never_removed_or_reordered :
  forall (evs : list Event) (w w' : World),
    run w evs = Running w' -> kept (receipts (app w)) (receipts (app w')).
Proof.
  induction evs as [|ev evs IH]; simpl; intros w w'.
  - intros [= <-]. apply kept_refl.
  - destruct (step w ev) as [w1| |] eqn:S; try discriminate.
    intros H. eapply kept_trans; [exact (step_kept _ _ _ S) | exact (IH _ _ H)].
Qed.

Lemma records_are_never_removed_or_reordered_witness :
  kept [receipt2; receipt1] (receipts (app (after (loaded [receipt2; receipt1]) [Sync]))).
Proof.
  apply (records_are_never_removed_or_reordered [Sync] (loaded [receipt2; receipt1]));
    vm_compute; reflexivity.
Defined.

Lemma set_twice k v o : set k v (set k v o) = set k v o.
Proof.
  induction o as [|[k' v'] o IH]; simpl.
  - now rewrite String.eqb_refl.
  - destruct (String.eqb k k') eqn:E; simpl.
    + now rewrite String.eqb_refl.
    + destruct (precedes k k') eqn:P; simpl.
      * now rewrite String.eqb_refl.
      * now rewrite E, P, IH.
Qed.

(** X4.  Syncing twice gives the list that syncing once gives, and
    after a sync every record has the status synced. *)
Theorem markAllSynced_is_idempotent :
  forall rs : list obj,
    markAllSynced (markAllSynced rs) = markAllSynced rs
    /\ Forall (fun r => get r "status" = VStr "synced") (markAllSynced rs).
Proof.
  intros rs. split.
  - unfold markAllSynced. rewrite map_map. apply map_ext. intros r. apply set_twice.
  - unfold markAllSynced. apply Forall_forall. intros r Hr.
    apply in_map_iff in Hr as (r0 & <- & _). apply get_set_same.
Qed.

End StoreFacts.

(** ** What the extraction client answers and sends *)

Module ResponseFacts.
Import JSString JSNumber JSValue JSON JSDate Types GeminiService.
Import Calendar Defaults Examples Shape Scenes ObjectFacts StringFacts DateFacts JSONFacts ExtractionFacts.

Lemma parse_number_defined l v r : parse_number l = Some (v, r) -> exists x, v = VNum x.
Proof.
  unfold parse_number. destruct (span is_number_char l) as [tok rest].
  destruct (number_token tok); [|discriminate]. intros [= <- _]. eauto.
Qed.

Lemma parse_defined fuel :
  (forall l v r, parse_value fuel l = Some (v, r) -> v <> VUndefined)
  /\ (forall l acc v r, parse_elements fuel l acc = Some (v, r) -> v <> VUndefined)
  /\ (forall l acc v r, parse_members fuel l acc = Some (v, r) -> v <> VUndefined).
Proof.
  induction fuel as [|f (IHv & IHe & IHm)]; [repeat split; discriminate|].
  repeat split.
  - intros l v r. cbn [parse_value].
    destruct (skip_ws l) as [|c t]; [discriminate|].
    destruct (Ascii.eqb c "{").
    { destruct (skip_ws t) as [|c' t']; [discriminate|].
      destruct (Ascii.eqb c' "}"); [intros [= <- _]; discriminate | apply IHm]. }
    destruct (Ascii.eqb c "[").
    { destruct (skip_ws t) as [|c' t']; [discriminate|].
      destruct (Ascii.eqb c' "]"); [intros [= <- _]; discriminate | apply IHe]. }
    destruct (Ascii.eqb c dquote).
    { destruct (parse_string t []) as [[s r']|]; [intros [= <- _]|]; discriminate. }
    destruct (starts_with (chars "null") (c :: t)); [intros [= <- _]; discriminate|].
    destruct (starts_with (chars "true") (c :: t)); [intros [= <- _]; discriminate|].
    destruct (starts_with (chars "false") (c :: t)); [intros [= <- _]; discriminate|].
    intros H. apply parse_number_defined in H as [x ->]. discriminate.
  - intros l acc v r. cbn [parse_elements].
    destruct (parse_value f l) as [[v0 r0]|]; [|discriminate].
    destruct (skip_ws r0) as [|c t]; [discriminate|].
    destruct (Ascii.eqb c ","); [apply IHe|].
    destruct (Ascii.eqb c "]"); [intros [= <- _]|]; discriminate.
  - intros l acc v r. cbn [parse_members].
    destruct (skip_ws l) as [|q r0]; [discriminate|].
    destruct (Ascii.eqb q dquote); [|discriminate].
    destruct (parse_string r0 []) as [[k r1]|]; [|discriminate].
    destruct (skip_ws r1) as [|colon r2]; [discriminate|].
    destruct (Ascii.eqb colon ":"); [|discriminate].
    destruct (parse_value f r2) as [[v0 r3]|]; [|discriminate].
    destruct (skip_ws r3) as [|c t]; [discriminate|].
    destruct (Ascii.eqb c ","); [apply IHm|].
    destruct (Ascii.eqb c "}"); [intros [= <- _]|]; discriminate.
Qed.

(** [JSON.parse] never returns undefined. *)
Lemma parse_not_undefined text v : JSON.parse text = inr v -> v <> VUndefined.
Proof.
  unfold JSON.parse.
  destruct (parse_value (S (String.length text)) (chars text)) as [[v0 r]|] eqn:E; [|discriminate].
  destruct (skip_ws r); [|discriminate]. intros [= <-].
  exact (proj1 (parse_defined _) _ _ _ E).
Qed.

Lemma defaults_resolves v now :
  v <> VNull -> v <> VUndefined -> exists r, defaults v now = inr r.
Proof. destruct v; try congruence; intros _ _; unfold defaults; eauto. Qed.

Lemma defaults_plain v now :
  v <> VNull -> v <> VUndefined -> (forall o, v <> VObj o) ->
  defaults v now = inr (all_defaults now).
Proof.
  intros N U O. unfold all_defaults, field_names, default_of. cbn [List.map String.eqb Ascii.eqb Bool.eqb].
  rewrite <- today_utc.
  destruct v; try congruence; try reflexivity; exfalso; eapply O; reflexivity.
Qed.

Lemma defaults_empty now : defaults (VObj []) now = inr (all_defaults now).
Proof.
  unfold all_defaults, field_names, default_of. cbn [List.map String.eqb Ascii.eqb Bool.eqb].
  now rewrite <- today_utc.
Qed.

Lemma utc_day_not_empty t : utc_day t <> EmptyString.
Proof.
  unfold utc_day. destruct (civil_from_days (t / msPerDay)) as [[y m] d].
  destruct (year_string y); discriminate.
Qed.

Lemma truthy_text s : s <> EmptyString -> truthy (VStr s) = true.
Proof. intros H. simpl. now destruct (String.eqb_spec s EmptyString). Qed.

Lemma or_else_truthy a b : truthy b = true -> truthy (or_else a b) = true.
Proof. unfold or_else. now destruct (truthy a) eqn:E. Qed.


Lemma processReceipt_inv ai now img r :
  processReceipt ai now img = inr r ->
  exists t v, ai (request img) = inr t /\ JSON.parse (response_text t) = inr v
              /\ defaults v now = inr r.
Proof.
  unfold processReceipt. destruct (ai (request img)) as [e|t] eqn:Ht; [discriminate|].
  destruct (JSON.parse (response_text t)) as [e|v] eqn:Hv; [discriminate|].
  intros H. exists t, v. repeat split; trivial.
Qed.

(** X6.  [processReceipt] resolves exactly when the service answers and
    the text of the answer, or [{}] in its place, is JSON other than
    [null]. *)
Theorem processReceipt_resolves_on_any_json_but_null :
  forall (ai : Service) (now : Z) (img : string),
    (exists r, processReceipt ai now img = inr r)
    <-> (exists t v, ai (request img) = inr t
                     /\ JSON.parse (response_text t) = inr v /\ v <> VNull).
Proof.
  intros ai now img. split.
  - intros [r H]. apply processReceipt_inv in H as (t & v & Ht & Hv & Hd).
    exists t, v. repeat split; trivial. intros ->. discriminate.
  - intros (t & v & Ht & Hv & N). rewrite (processReceipt_parsed _ _ _ _ _ Ht Hv).
    apply defaults_resolves; [exact N | exact (parse_not_undefined _ _ Hv)].
Qed.

Lemma processReceipt_resolves_on_any_json_but_null_witness :
  exists r, processReceipt (answers cafe_luna) 1710036000000 photo = inr r.
Proof.
  apply (proj2 (processReceipt_resolves_on_any_json_but_null
                  (answers cafe_luna) 1710036000000 photo)).
  exists (Some cafe_luna), (VObj cafe_luna_object).
  split; [reflexivity|]. split; [vm_compute; reflexivity | discriminate].
Defined.

(** X7.  An answer without text, and an answer that is JSON but neither
    an object nor [null], both give the record of the five defaults. *)
Theorem answer_without_fields_gives_the_defaults :
  forall (ai : Service) (now : Z) (img : string),
    (ai (request img) = inr None \/ ai (request img) = inr (Some EmptyString)
     \/ exists t v, ai (request img) = inr (Some t) /\ JSON.parse t = inr v
                    /\ v <> VNull /\ forall o, v <> VObj o) ->
    processReceipt ai now img = inr (all_defaults now).
Proof.
  intros ai now img [H|[H|(t & v & H & Hv & N & O)]].
  - rewrite (processReceipt_parsed _ _ _ None (VObj []) H) by reflexivity.
    apply defaults_empty.
  - rewrite (processReceipt_parsed _ _ _ (Some EmptyString) (VObj []) H) by reflexivity.
    apply defaults_empty.
  - assert (E : response_text (Some t) = t).
    { unfold response_text. destruct (String.eqb_spec t EmptyString) as [->|]; [|reflexivity].
      discriminate Hv. }
    rewrite (processReceipt_parsed _ _ _ (Some t) v H) by now rewrite E.
    apply defaults_plain; trivial. exact (parse_not_undefined _ _ Hv).
Qed.

Lemma answer_without_fields_gives_the_defaults_witness :
  processReceipt (answers "[]") 1710036000000 photo = inr (all_defaults 1710036000000).
Proof.
  apply (answer_without_fields_gives_the_defaults (answers "[]") 1710036000000 photo).
  right. right. exists "[]", (VArr []).
  split; [reflexivity|]. split; [vm_compute; reflexivity|]. split; discriminate.
Defined.

Lemma defaults_shape v now r :
  defaults v now = inr r ->
  List.map fst r = field_names
  /\ (forall k, In k field_names -> k <> "total" -> truthy (get r k) = true)
  /\ (truthy (get r "total") = true \/ get r "total" = VNum zero).
Proof.
  intros H.
  assert (T : truthy (today now) = true).
  { rewrite today_utc. apply truthy_text, utc_day_not_empty. }
  assert (exists o, r = [("date", or_else (get o "date") (today now));
         ("merchant", or_else (get o "merchant") (VStr "Unknown Merchant"));
         ("total", or_else (get o "total") (VNum zero));
         ("category", or_else (get o "category") (VStr "Other"));
         ("paymentSource", or_else (get o "paymentSource") (VStr "Unknown"))]) as [o ->].
  { destruct v; try discriminate H;
      try (exists []; unfold defaults in H; injection H as <-; reflexivity).
    exists o. rewrite defaults_fields in H. now injection H as <-. }
  split; [reflexivity|]. split.
  - intros k [<-|[<-|[<-|[<-|[<-|[]]]]]] N; try congruence;
      unfold get; simpl; now apply or_else_truthy.
  - change (get _ "total") with (or_else (get o "total") (VNum zero)).
    unfold or_else. destruct (truthy (get o "total")) eqn:E; auto.
Qed.

Lemma resolved_shape ai now img r :
  processReceipt ai now img = inr r ->
  List.map fst r = field_names
  /\ (forall k, In k field_names -> k <> "total" -> truthy (get r k) = true)
  /\ (truthy (get r "total") = true \/ get r "total" = VNum zero).
Proof.
  intros H. apply processReceipt_inv in H as (t & v & _ & _ & Hd).
  exact (defaults_shape _ _ _ Hd).
Qed.

(** X8.  A resolved result has exactly the five fields, in the order of
    the literal; date, merchant, category and paymentSource are truthy,
    and total is truthy or the number 0. *)
Theorem resolved_result_has_five_usable_fields :
  forall (ai : Service) (now : Z) (img : string) (r : obj),
    processReceipt ai now img = inr r ->
    List.map fst r = field_names
    /\ (forall k, In k field_names -> k <> "total" -> truthy (get r k) = true)
    /\ (truthy (get r "total") = true \/ get r "total" = VNum zero).
Proof.
  intros ai now img r. apply resolved_shape.
Qed.

Lemma resolved_result_has_five_usable_fields_witness :
  List.map fst cafe_luna_result = field_names
  /\ (forall k, In k field_names -> k <> "total" -> truthy (get cafe_luna_result k) = true)
  /\ (truthy (get cafe_luna_result "total") = true
      \/ get cafe_luna_result "total" = VNum zero).
Proof.
  apply (resolved_result_has_five_usable_fields
           (answers cafe_luna) 1710036000000 photo cafe_luna_result).
  vm_compute. reflexivity.
Defined.

(** *** The image data *)

Lemma first_sep c l :
  free_of c l = true \/ exists p q, l = p ++ c :: q /\ free_of c p = true.
Proof.
  induction l as [|a l IH]; [now left|].
  destruct (Ascii.eqb_spec a c) as [->|N].
  - right. exists [], l. split; reflexivity.
  - destruct IH as [F|(p & q & -> & F)].
    + left. simpl. rewrite F. now destruct (Ascii.eqb_spec a c).
    + right. exists (a :: p), q. split; [reflexivity|]. simpl. rewrite F.
      now destruct (Ascii.eqb_spec a c).
Qed.

Lemma inlineData_pieces a p b :
  free_of "," a = true -> free_of "," p = true ->
  (b = [] \/ exists b', b = ","%char :: b') ->
  inlineData (of_chars (a ++ ","%char :: p ++ b))
  = or_else (VStr (of_chars p)) (VStr (of_chars (a ++ ","%char :: p ++ b))).
Proof.
  intros Ha Hp Hb. unfold inlineData, split. rewrite chars_of_chars.
  rewrite (split_chars_at "," _ _ [] Ha).
  destruct Hb as [->|[b' ->]].
  - rewrite app_nil_r, (split_chars_free "," _ [] Hp). reflexivity.
  - rewrite (split_chars_at "," _ _ [] Hp). reflexivity.
Qed.

(** X9.  What is sent as image data is always a string: the whole image
    string, or the piece between its first and its second comma when
    that piece is not empty; and taking the data of what was sent
    gives it again. *)
Theorem data_is_the_second_piece_or_everything :
  forall img : string,
    exists p,
      data (request img) = VStr p
      /\ data (request p) = VStr p
      /\ (p = img
          \/ (p <> EmptyString /\ free_of "," (chars p) = true
              /\ exists a b, img = (a ++ "," ++ p ++ b)%string
                             /\ free_of "," (chars a) = true
                             /\ (b = EmptyString \/ exists b', b = String "," b'))).
Proof.
  intros img. cbn [data request].
  destruct (first_sep "," (chars img)) as [F|(a & q & E & Fa)].
  { exists img. rewrite (inlineData_raw _ F). auto. }
  assert (exists p b, q = p ++ b /\ free_of "," p = true
                      /\ (b = [] \/ exists b', b = ","%char :: b')) as (p & b & -> & Fp & Hb).
  { destruct (first_sep "," q) as [F|(p & b' & -> & F)].
    - exists q, []. rewrite app_nil_r. auto.
    - exists p, (","%char :: b'). eauto. }
  assert (I : img = of_chars (a ++ ","%char :: p ++ b)) by now rewrite <- E, of_chars_chars.
  assert (D : inlineData img = or_else (VStr (of_chars p)) (VStr img)).
  { rewrite I. now apply inlineData_pieces. }
  rewrite D. unfold or_else. cbn [truthy].
  destruct (String.eqb_spec (of_chars p) EmptyString) as [Z|N]; cbn [negb].
  - exists img. split; [reflexivity|]. split; [|now left].
    rewrite D. unfold or_else. cbn [truthy]. now rewrite Z.
  - exists (of_chars p). split; [reflexivity|]. split.
    + apply inlineData_raw. now rewrite chars_of_chars.
    + right. split; [exact N|]. rewrite chars_of_chars. split; [exact Fp|].
      exists (of_chars a), (of_chars b). split; [|split].
      * rewrite I. apply (f_equal of_chars) in E. 
        rewrite <- (of_chars_chars (of_chars a ++ "," ++ of_chars p ++ of_chars b)%string).
        f_equal. rewrite !chars_app, !chars_of_chars. reflexivity.
      * now rewrite chars_of_chars.
      * destruct Hb as [->|[b' ->]]; [now left | right; exists (of_chars b'); reflexivity].
Qed.

End ResponseFacts.

(** ** The records the application stores *)

Module RecordFacts.
Import JSString JSNumber JSValue Types GeminiService ReceiptEdit App HistoryView.
Import Exact Defaults Examples Store Wellformed Scenes.
Import ObjectFacts FormFacts ViewFacts AppFacts StoreFacts.

Lemma set_keys k v o :
  array_index k = None -> lookup k o <> None -> List.map fst (set k v o) = List.map fst o.
Proof.
  intros Hk. induction o as [|[k' v'] o IH]; simpl; [congruence|].
  destruct (String.eqb_spec k k') as [->|Hne]; [reflexivity|].
  intros H. unfold precedes. rewrite Hk. simpl. now rewrite IH.
Qed.

Lemma get_lookup r k v : get r k = v -> v <> VUndefined -> lookup k r <> None.
Proof. unfold get. destruct (lookup k r); [discriminate | congruence]. Qed.

Lemma well_formed_synced r : well_formed r -> well_formed (set "status" (VStr "synced") r).
Proof.
  intros (Hk & (x & Hx & Hn) & Hs & (i & Hi) & (u & Hu)).
  split; [|split; [|split; [|split]]].
  - rewrite set_keys; [exact Hk | reflexivity |].
    destruct Hs as [Hs|Hs]; eapply get_lookup; try exact Hs; discriminate.
  - exists x. now rewrite get_set_other by discriminate.
  - right. apply get_set_same.
  - exists i. now rewrite get_set_other by discriminate.
  - exists u. now rewrite get_set_other by discriminate.
Qed.

Lemma well_formed_submit d f now : captured d -> well_formed (handleSubmit d f now).
Proof.
  intros ((i & Hi) & (u & Hu)). rewrite handleSubmit_fields.
  split; [reflexivity|]. split; [|split; [|split]].
  - exists (total_of_text (total f)). split; [|apply total_of_text_not_nan].
    rewrite <- handleSubmit_fields. apply handleSubmit_total_value.
  - left. reflexivity.
  - rewrite Hi. unfold get at 1. simpl. unfold or_else. destruct (truthy (VStr i)); eauto.
  - exists u. exact Hu.
Qed.

Lemma captured_draft extractedData base64 now :
  captured (spread extractedData [("imageUrl", VStr base64); ("id", VStr (integer now))]).
Proof.
  unfold spread. simpl. split.
  - eexists. apply get_set_same.
  - eexists. rewrite get_set_other by discriminate. apply get_set_same.
Qed.

Section Kept.

Variable P : obj -> Prop.
Hypothesis P_synced : forall r, P r -> P (set "status" (VStr "synced") r).
Hypothesis P_submit : forall d f now, captured d -> P (handleSubmit d f now).

Lemma handleCapture_holds s al ai now img :
  holds P s -> holds P (fst (handleCapture s al ai now img)).
Proof.
  intros (Hr & Hd). unfold handleCapture. destruct (processReceipt ai now img); simpl.
  - split; [exact Hr | exact Hd].
  - split; [exact Hr|]. intros d [= <-]. apply captured_draft.
Qed.

Lemma handled_holds w ev s' al now stored :
  holds P (app w) -> handled w ev = Some (s', al, now, stored) -> holds P s'.
Proof.
  intros S. pose proof S as (Hr & Hd). unfold handled. destruct ev.
  - intros [= <- _ _ _]. exact S.
  - intros [= <- _ _ _]. exact S.
  - intros [= <- _ _ _]. exact S.
  - destruct (isScanning (app w)); [|discriminate]. intros [= <- _ _ _].
    now apply handleCapture_holds.
  - destruct (activeView (app w)); try discriminate. intros [= <- _ _ _].
    unfold handleFileUpload. destruct (negb (is_prefix "image/" type)); [exact S|].
    destruct dataUrl as [b|]; [|exact S].
    destruct (String.eqb b EmptyString); [exact S | now apply handleCapture_holds].
  - destruct (form (app w)); [|discriminate]. intros [= <- _ _ _]. exact S.
  - destruct (form (app w)) as [f|], (currentEdit (app w)) as [d|] eqn:C; try discriminate.
    intros [= <- _ _ _]. split; simpl; [|discriminate].
    constructor; [|exact Hr]. apply P_submit. now apply Hd.
  - destruct (form (app w)); [|discriminate]. intros [= <- _ _ _]. exact S.
  - destruct (activeView (app w)); try discriminate. intros [= <- _ _ _].
    unfold simulateSync. destruct (receipts (app w)) as [|r rs] eqn:E; cbn [fst]; [exact S|].
    split; [|exact Hd]. cbn [receipts]. unfold markAllSynced.
    apply Forall_forall. intros x Hx.
    apply in_map_iff in Hx as (r0 & <- & Hin).
    apply P_synced. rewrite Forall_forall in Hr. now apply Hr.
  - intros [= <- _ _ _]. exact S.
Qed.

Lemma step_holds w ev w' : holds P (app w) -> step w ev = Running w' -> holds P (app w').
Proof.
  intros S. intros Hstep; apply step_handled in Hstep; revert Hstep.
  destruct (handled w ev) as [[[[s' al] now] stored]|] eqn:H.
  - destruct (render s' now) as [e|s''] eqn:R; [discriminate|]. intros [= <-]. simpl.
    destruct (handled_holds _ _ _ _ _ _ S H) as (Hr & Hd).
    destruct (render_keeps _ _ _ R) as (_ & E1 & _ & _ & E2).
    split; [now rewrite E1 | now rewrite E2].
  - now intros [= <-].
Qed.

Lemma run_holds evs : forall w w', holds P (app w) -> run w evs = Running w' -> holds P (app w').
Proof.
  induction evs as [|ev evs IH]; simpl; intros w w' S.
  - now intros [= <-].
  - destruct (step w ev) as [w1| |] eqn:E; try discriminate.
    apply IH. exact (step_holds _ _ _ S E).
Qed.

End Kept.

Lemma run_sound evs w w' : sound (app w) -> run w evs = Running w' -> sound (app w').
Proof. exact (run_holds well_formed well_formed_synced well_formed_submit evs w w'). Qed.

Lemma fresh_sound : sound (app fresh).
Proof. split; [constructor | discriminate]. Qed.

(** X10.  Every record of a store that the application built from an
    empty one has exactly the eight properties of a receipt, in the
    order id, date, merchant, total, category, paymentSource, status,
    imageUrl; its total is a Number other than NaN, its status is
    pending or synced, and its id and imageUrl are strings. *)
Theorem records_built_by_the_application_are_well_formed :
  forall (evs : list Event) (w : World),
    run fresh evs = Running w -> Forall well_formed (receipts (app w)).
Proof.
  intros evs w H. exact (proj1 (run_sound evs fresh w fresh_sound H)).
Qed.

Lemma records_built_by_the_application_are_well_formed_witness :
  Forall well_formed (receipts (app (after fresh two_receipts_synced))).
Proof.
  apply (records_built_by_the_application_are_well_formed two_receipts_synced).
  vm_compute. reflexivity.
Defined.


(** The records of a process that has started can be listed at every
    moment of its run: the call of the list view, which [start] makes
    on the loaded records, would not throw at any later render. *)
Lemma run_listable slot w evs w' :
  start slot = Running w -> run w evs = Running w' ->
  forallb listable (receipts (app w')) = true.
Proof.
  intros Hs Hr.
  assert (S : holds (fun r => listable r = true) (app w)).
  { revert Hs. unfold start. destruct (load slot) as [e|[v|]]; [discriminate| |].
    - destruct v; try discriminate. destruct (objects l) as [rs|]; [|discriminate].
      destruct (view rs) as [e|shown] eqn:V; [discriminate|]. intros [= <-].
      split; [|discriminate]. cbn [app receipts].
      apply Forall_forall, forallb_forall. exact (view_returned rs shown V).
    - intros [= <-]. split; [constructor | discriminate]. }
  apply forallb_forall, Forall_forall.
  refine (proj1 (run_holds _ _ _ evs w w' S Hr)).
  - intros r. apply listable_synced.
  - intros d f now ((i & Hi) & _). exact (listable_submit d f now i Hi).
Qed.

(** X5.  A new process on the slot a run left finds the list that was in
    memory, on the list view and without a draft, provided JSON text
    represents every record of the list exactly. *)
Theorem restart_restores_the_list :
  forall (slot : option string) (w : World) (evs : list Event) (w' : World),
    start slot = Running w -> run w evs = Running w' ->
    forallb exact_record (receipts (app w')) = true ->
    start (storage w') = Running (loaded (receipts (app w'))).
Proof.
  intros slot w evs w' Hs Hr He.
  rewrite (run_mirrored evs w w' (start_mirrored slot w Hs) Hr).
  apply start_persist; [exact He | exact (run_listable slot w evs w' Hs Hr)].
Qed.

Lemma restart_restores_the_list_witness :
  start (storage (after fresh two_receipts_synced))
  = Running (loaded (receipts (app (after fresh two_receipts_synced)))).
Proof.
  apply (restart_restores_the_list None fresh two_receipts_synced);
    vm_compute; reflexivity.
Defined.

End RecordFacts.

(** ** From the capture to the stored record *)

Module FlowFacts.
Import JSString JSNumber JSValue Types GeminiService ReceiptEdit App.
Import Defaults Examples Store Wellformed Flow Scenes.
Import ObjectFacts FormFacts AppFacts StoreFacts ResponseFacts.

Lemma decimal_not_empty n : decimal n <> EmptyString.
Proof.
  unfold decimal, NilZero.string_of_uint.
  destruct (N.to_uint (Z.to_N n)) as [|u|u|u|u|u|u|u|u|u|u]; discriminate.
Qed.

Lemma integer_not_empty n : integer n <> EmptyString.
Proof.
  unfold integer. destruct (n <? 0); [discriminate | apply decimal_not_empty].
Qed.

Lemma draft_id r img now : get (draft r img now) "id" = VStr (integer now).
Proof. unfold draft, spread. simpl. apply get_set_same. Qed.

Lemma draft_imageUrl r img now : get (draft r img now) "imageUrl" = VStr img.
Proof. unfold draft, spread. simpl. rewrite get_set_other by discriminate. apply get_set_same. Qed.

Lemma draft_field r img now k :
  k <> "id" -> k <> "imageUrl" -> get (draft r img now) k = get r k.
Proof.
  intros H1 H2. unfold draft, spread. simpl. now rewrite !get_set_other by congruence.
Qed.

Lemma or_else_left a b : truthy a = true -> or_else a b = a.
Proof. unfold or_else. now intros ->. Qed.

(** The record confirmed on a captured draft. *)
Lemma handleSubmit_draft r img now f now' :
  handleSubmit (draft r img now) f now'
  = [("id", VStr (integer now)); ("date", date f); ("merchant", merchant f);
     ("total", VNum (total_of_text (total f))); ("category", category f);
     ("paymentSource", paymentSource f); ("status", VStr "pending");
     ("imageUrl", VStr img)].
Proof.
  rewrite handleSubmit_fields, draft_id, draft_imageUrl, or_zero.
  rewrite or_else_left by apply truthy_text, integer_not_empty. reflexivity.
Qed.

Lemma handleCapture_success s al ai now img r :
  processReceipt ai now img = inr r ->
  handleCapture s al ai now img
  = ({| activeView := edit; receipts := receipts s; isScanning := false;
        isProcessing := false; currentEdit := Some (draft r img now); form := form s |}, al).
Proof. unfold handleCapture. now intros ->. Qed.

Lemma initialFormData_draft r img now text :
  List.map fst r = field_names ->
  (forall k, In k field_names -> k <> "total" -> truthy (get r k) = true) ->
  (truthy (get r "total") = true \/ get r "total" = VNum zero) ->
  ReceiptEdit.toString (get r "total") = inr text ->
  initialFormData (draft r img now) now = inr (shows r text).
Proof.
  intros _ T Tt Htext. unfold initialFormData.
  rewrite !draft_field by discriminate.
  assert (D : match get r "total" with
              | VUndefined | VNull => inr VUndefined
              | v => match ReceiptEdit.toString v with inr s => inr (VStr s) | inl e => inl e end
              end = (inr (VStr text) : Error + value)).
  { destruct Tt as [Tt|Tt]; [|rewrite Tt in *; now rewrite Htext].
    destruct (get r "total"); try discriminate Tt; now rewrite Htext. }
  rewrite D. unfold shows. f_equal. f_equal.
  - apply or_else_left, T; simpl; intuition discriminate.
  - apply or_else_left, T; simpl; intuition discriminate.
  - unfold or_else. simpl. now destruct (String.eqb_spec text EmptyString) as [->|].
  - apply or_else_left, T; simpl; intuition discriminate.
  - apply or_else_left, T; simpl; intuition discriminate.
Qed.

(** X11.  A capture that succeeds while the camera is open and no form is
    mounted closes the camera, keeps the list, the slot and the alerts,
    and opens the form on the extracted date, merchant, category and
    paymentSource and on the text of the extracted total; when that
    text cannot be made, because [toString] throws on the total, the
    exception leaves the render instead. *)
Theorem capture_opens_the_form_on_the_result :
  forall (w : World) (img : string) (ai : Service) (now : Z) (r : obj),
    isScanning (app w) = true -> form (app w) = None ->
    processReceipt ai now img = inr r ->
    match ReceiptEdit.toString (get r "total") with
    | inr text =>
        step w (Capture img ai now)
        = Running {| app := {| activeView := edit; receipts := receipts (app w);
                               isScanning := false; isProcessing := false;
                               currentEdit := Some (draft r img now);
                               form := Some (shows r text) |};
                     storage := storage w; alerts := alerts w |}
    | inl e => step w (Capture img ai now) = Threw e
    end.
Proof.
  intros w img ai now r Hs Hf Hr.
  destruct (resolved_shape _ _ _ _ Hr) as (K & T & Tt).
  unfold step. rewrite Hs, (handleCapture_success _ _ _ _ _ _ Hr).
    unfold render_draft, render.
  cbn [activeView currentEdit form]. rewrite Hf.
  destruct (ReceiptEdit.toString (get r "total")) as [e|text] eqn:E.
  - unfold initialFormData. rewrite !draft_field by discriminate.
    destruct Tt as [Tt|Tt]; [|rewrite Tt in E; discriminate E].
    destruct (get r "total"); try discriminate Tt; now rewrite E.
  - now rewrite (initialFormData_draft _ _ _ _ K T Tt E).
Qed.

Lemma capture_opens_the_form_on_the_result_witness :
  match ReceiptEdit.toString (get cafe_luna_result "total") with
  | inr text =>
      step scanning (Capture photo (answers cafe_luna) 1710036000000)
      = Running {| app := {| activeView := edit; receipts := receipts (app scanning);
                             isScanning := false; isProcessing := false;
                             currentEdit := Some (draft cafe_luna_result photo 1710036000000);
                             form := Some (shows cafe_luna_result text) |};
                   storage := storage scanning; alerts := alerts scanning |}
  | inl e => step scanning (Capture photo (answers cafe_luna) 1710036000000) = Threw e
  end.
Proof.
  apply (capture_opens_the_form_on_the_result
           scanning photo (answers cafe_luna) 1710036000000 cafe_luna_result);
    vm_compute; reflexivity.
Defined.


(** X12.  A capture that succeeds while the form is open leaves the form
    as it is, and confirming it stores the fields of that form under
    the identifier and the image of the new capture.  The form is drawn
    again on the new draft: when [toString] throws on the extracted
    total, the exception leaves the render of the capture instead. *)
Theorem capture_under_an_open_form_keeps_the_old_fields :
  forall (w : World) (f : FormData) (img : string) (ai : Service) (now now' : Z) (r : obj),
    isScanning (app w) = true -> form (app w) = Some f ->
    processReceipt ai now img = inr r ->
    match ReceiptEdit.toString (get r "total") with
    | inr _ =>
        exists w1 w2,
          step w (Capture img ai now) = Running w1
          /\ form (app w1) = Some f
          /\ currentEdit (app w1) = Some (draft r img now)
          /\ step w1 (Done now') = Running w2
          /\ receipts (app w2)
             = [("id", VStr (integer now)); ("date", date f); ("merchant", merchant f);
                ("total", VNum (total_of_text (total f))); ("category", category f);
                ("paymentSource", paymentSource f); ("status", VStr "pending");
                ("imageUrl", VStr img)] :: receipts (app w)
    | inl e => step w (Capture img ai now) = Threw e
    end.
Proof.
  intros w f img ai now now' r Hs Hf Hr.
  destruct (resolved_shape _ _ _ _ Hr) as (K & T & Tt).
  destruct (ReceiptEdit.toString (get r "total")) as [e|text] eqn:E.
  - unfold step. rewrite Hs, (handleCapture_success _ _ _ _ _ _ Hr).
    unfold render_draft. cbn [activeView currentEdit form]. rewrite Hf.
    unfold initialFormData. rewrite !draft_field by discriminate.
    destruct Tt as [Tt|Tt]; [|rewrite Tt in E; discriminate E].
    destruct (get r "total"); try discriminate Tt; now rewrite E.
  - eexists. eexists. split.
    { unfold step. rewrite Hs, (handleCapture_success _ _ _ _ _ _ Hr).
      unfold render_draft, render. cbn [activeView currentEdit form]. rewrite Hf.
      rewrite (initialFormData_draft _ _ _ _ K T Tt E). reflexivity. }
    split; [reflexivity|]. split; [reflexivity|]. split.
    { apply step_done; reflexivity. }
    cbn [app receipts]. now rewrite handleSubmit_draft.
Qed.

Lemma capture_under_an_open_form_keeps_the_old_fields_witness :
  match ReceiptEdit.toString (get groceries_result "total") with
  | inr _ =>
      exists w1 w2,
        step camera_over_form (Capture photo (answers groceries) 1710036060000) = Running w1
        /\ form (app w1) = Some cafe_luna_form
        /\ currentEdit (app w1) = Some (draft groceries_result photo 1710036060000)
        /\ step w1 (Done 1710036060001) = Running w2
        /\ receipts (app w2)
           = [("id", VStr (integer 1710036060000)); ("date", date cafe_luna_form);
              ("merchant", merchant cafe_luna_form);
              ("total", VNum (total_of_text (total cafe_luna_form)));
              ("category", category cafe_luna_form);
              ("paymentSource", paymentSource cafe_luna_form); ("status", VStr "pending");
              ("imageUrl", VStr photo)] :: receipts (app camera_over_form)
  | inl e => step camera_over_form (Capture photo (answers groceries) 1710036060000) = Threw e
  end.
Proof.
  apply (capture_under_an_open_form_keeps_the_old_fields
           camera_over_form cafe_luna_form photo (answers groceries)
           1710036060000 1710036060001 groceries_result);
    vm_compute; reflexivity.
Defined.

(** An extracted total without a text makes the render of the capture
    throw, over an open form as over the list. *)
Lemma capture_of_an_unprintable_total_throws :
  step camera_over_form (Capture photo (answers unprintable_total) 1710036060000)
  = Threw TypeError
  /\ step scanning (Capture photo (answers unprintable_total) 1710036060000)
     = Threw TypeError.
Proof. split; vm_compute; reflexivity. Qed.

(** X13.  Confirming the form as it opened on a capture stores the
    extracted fields, the total read back from its text, under the
    identifier and the image of the capture, and the slot holds the
    new list. *)
Theorem confirming_at_once_stores_the_extracted_fields :
  forall (w : World) (img : string) (ai : Service) (now now' : Z) (r : obj) (text : string),
    isScanning (app w) = true -> form (app w) = None ->
    processReceipt ai now img = inr r ->
    ReceiptEdit.toString (get r "total") = inr text ->
    exists w',
      run w [Capture img ai now; Done now'] = Running w'
      /\ receipts (app w')
         = [("id", VStr (integer now)); ("date", get r "date"); ("merchant", get r "merchant");
            ("total", VNum (total_of_text text)); ("category", get r "category");
            ("paymentSource", get r "paymentSource"); ("status", VStr "pending");
            ("imageUrl", VStr img)] :: receipts (app w)
      /\ activeView (app w') = history
      /\ storage w' = persist (receipts (app w')).
Proof.
  intros w img ai now now' r text Hs Hf Hr Ht.
  destruct (resolved_shape _ _ _ _ Hr) as (K & T & Tt).
  assert (S1 : step w (Capture img ai now)
               = Running {| app := {| activeView := edit; receipts := receipts (app w);
                                      isScanning := false; isProcessing := false;
                                      currentEdit := Some (draft r img now);
                                      form := Some (shows r text) |};
                            storage := storage w; alerts := alerts w |}).
  { unfold step. rewrite Hs, (handleCapture_success _ _ _ _ _ _ Hr).
    unfold render_draft, render.
    cbn [activeView currentEdit form]. rewrite Hf.
    now rewrite (initialFormData_draft _ _ _ _ K T Tt Ht). }
  eexists. split.
  { cbn [run]. rewrite S1. rewrite (step_done _ (draft r img now) (shows r text) now');
      reflexivity. }
  cbn [app receipts activeView storage]. rewrite handleSubmit_draft. repeat split.
Qed.

Lemma confirming_at_once_stores_the_extracted_fields_witness :
  exists w',
    run scanning [Capture photo (answers cafe_luna) 1710036000000; Done 1710036000001]
    = Running w'
    /\ receipts (app w')
       = [("id", VStr (integer 1710036000000)); ("date", get cafe_luna_result "date");
          ("merchant", get cafe_luna_result "merchant");
          ("total", VNum (total_of_text "12.5"));
          ("category", get cafe_luna_result "category");
          ("paymentSource", get cafe_luna_result "paymentSource");
          ("status", VStr "pending"); ("imageUrl", VStr photo)] :: receipts (app scanning)
    /\ activeView (app w') = history
    /\ storage w' = persist (receipts (app w')).
Proof.
  apply (confirming_at_once_stores_the_extracted_fields
           scanning photo (answers cafe_luna) 1710036000000 1710036000001
           cafe_luna_result "12.5");
    vm_compute; reflexivity.
Defined.

Lemma step_edit w d f c :
  activeView (app w) = edit -> currentEdit (app w) = Some d -> form (app w) = Some f ->
  step w (Edit c)
  = Running {| app := with_form (app w) (Some (onChange f c));
               storage := storage w; alerts := alerts w |}.
Proof.
  intros V C F. unfold step. rewrite F. unfold render, with_form.
  cbn [activeView currentEdit form]. rewrite V, C. reflexivity.
Qed.

Lemma run_edits cs : forall w d f,
  activeView (app w) = edit -> currentEdit (app w) = Some d -> form (app w) = Some f ->
  run w (List.map Edit cs)
  = Running {| app := with_form (app w) (Some (fold_left onChange cs f));
               storage := storage w; alerts := alerts w |}.
Proof.
  induction cs as [|c cs IH]; intros w d f V C F; cbn [List.map run fold_left].
  - unfold with_form. rewrite <- F. now destruct w as [[] ? ?].
  - rewrite (step_edit w d f c V C F). now rewrite (IH _ d (onChange f c)).
Qed.

Lemma run_app evs1 : forall evs2 w w1,
  run w evs1 = Running w1 -> run w (evs1 ++ evs2) = run w1 evs2.
Proof.
  induction evs1 as [|ev evs1 IH]; intros evs2 w w1; cbn [run List.app].
  - now intros [= <-].
  - destruct (step w ev) as [w'| |]; try discriminate. apply IH.
Qed.

(** X14.  The edits of the form add up in the order they are made, and
    until the confirmation the list and the slot stay as they were;
    the record stored at the confirmation is made of the fields the
    form shows then. *)
Theorem edits_add_up_until_the_confirmation :
  forall (w : World) (d : obj) (f : FormData) (cs : list Change) (now : Z),
    activeView (app w) = edit -> currentEdit (app w) = Some d -> form (app w) = Some f ->
    (exists w1,
        run w (List.map Edit cs) = Running w1
        /\ form (app w1) = Some (fold_left onChange cs f)
        /\ receipts (app w1) = receipts (app w) /\ storage w1 = storage w)
    /\ (exists w2,
          run w (List.map Edit cs ++ [Done now]) = Running w2
          /\ receipts (app w2)
             = handleSubmit d (fold_left onChange cs f) now :: receipts (app w)
          /\ storage w2 = persist (receipts (app w2))).
Proof.
  intros w d f cs now V C F. pose proof (run_edits cs w d f V C F) as E. split.
  - eexists. split; [exact E|]. repeat split.
  - eexists. split.
    + rewrite (run_app _ _ _ _ E). cbn [run].
      rewrite (step_done _ d (fold_left onChange cs f) now); [reflexivity | reflexivity | exact C].
    + split; reflexivity.
Qed.

Lemma edits_add_up_until_the_confirmation_witness :
  exists w2,
    run (after fresh capture) (List.map Edit two_edits ++ [Done 1710036000001]) = Running w2
    /\ receipts (app w2)
       = handleSubmit (draft cafe_luna_result photo 1710036000000)
           (fold_left onChange two_edits cafe_luna_form) 1710036000001
         :: receipts (app (after fresh capture))
    /\ storage w2 = persist (receipts (app w2)).
Proof.
  refine (proj2 (edits_add_up_until_the_confirmation
                   (after fresh capture) (draft cafe_luna_result photo 1710036000000)
                   cafe_luna_form two_edits 1710036000001 _ _ _));
    vm_compute; reflexivity.
Defined.

(** *** The form that stays mounted

    [render] keeps a mounted form without evaluating its [useState]
    argument again.  In a process that has started this loses nothing:
    a form is mounted only on a draft on which the argument returns. *)

Lemma initialFormData_converts d now f : initialFormData d now = inr f -> converts d.
Proof.
  unfold converts, initialFormData. intros H now'.
  destruct (match get d "total" with
            | VUndefined | VNull => inr VUndefined
            | v => match ReceiptEdit.toString v with
                   | inr s => inr (VStr s)
                   | inl e => inl e
                   end
            end) as [e|t]; [discriminate | eauto].
Qed.

Lemma render_mounted s now s' :
  (forall f, form s = Some f -> activeView s = edit ->
             forall d, currentEdit s = Some d -> converts d) ->
  render s now = inr s' -> mounted s'.
Proof.
  intros K. unfold render.
  destruct (activeView s) eqn:V; destruct (currentEdit s) as [d|] eqn:C;
    try (intros [= <-]; intros f; discriminate).
  destruct (form s) as [f0|] eqn:F.
  - intros [= <-] f _. split; [exact V|]. exists d. split; [exact C|].
    exact (K f0 eq_refl eq_refl d eq_refl).
  - destruct (initialFormData d now) as [e|f1] eqn:E; [discriminate|].
    intros [= <-] f _. split; [reflexivity|]. exists d. split; [reflexivity|].
    exact (initialFormData_converts d now f1 E).
Qed.

Lemma render_draft_mounted s now s' : render_draft s now = inr s' -> mounted s'.
Proof.
  unfold render_draft. intros H. apply (render_mounted s now); [|revert H].
  - intros f F V d C. rewrite V, C, F in H.
    destruct (initialFormData d now) as [e|f1] eqn:E; [discriminate|].
    exact (initialFormData_converts d now f1 E).
  - destruct (activeView s), (currentEdit s) as [d|], (form s) as [f|]; trivial.
    now destruct (initialFormData d now).
Qed.

Lemma mounted_converts s f d :
  mounted s -> form s = Some f -> currentEdit s = Some d -> converts d.
Proof.
  intros M F C. destruct (M f F) as (_ & d0 & C0 & H).
  rewrite C0 in C. injection C as <-. exact H.
Qed.

Lemma step_mounted w ev w' : mounted (app w) -> step w ev = Running w' -> mounted (app w').
Proof.
  intros M.
  assert (Kept : forall s, (activeView s = edit -> form s <> None ->
                            form (app w) <> None /\ currentEdit s = currentEdit (app w)) ->
                 forall f, form s = Some f -> activeView s = edit ->
                           forall d, currentEdit s = Some d -> converts d).
  { intros s H f F V d C. destruct (H V) as (F0 & C0); [congruence|].
    destruct (form (app w)) as [f0|] eqn:E; [|congruence].
    apply (mounted_converts (app w) f0 d M E). congruence. }
  unfold step. destruct ev; cbv zeta.
  - destruct (render (with_view (app w) history) 0) as [e|s''] eqn:R; [discriminate|].
    intros [= <-]. refine (render_mounted _ _ _ (Kept _ _) R). intros V; discriminate V.
  - destruct (render (with_scanning (app w) true) 0) as [e|s''] eqn:R; [discriminate|].
    intros [= <-]. refine (render_mounted _ _ _ (Kept _ _) R). now split.
  - destruct (render (with_scanning (app w) false) 0) as [e|s''] eqn:R; [discriminate|].
    intros [= <-]. refine (render_mounted _ _ _ (Kept _ _) R). now split.
  - destruct (isScanning (app w)); [|now intros [= <-]].
    destruct (handleCapture (app w) (alerts w) ai now base64) as [s' al].
    destruct (render_draft s' now) as [e|s''] eqn:R; [discriminate|].
    intros [= <-]. exact (render_draft_mounted _ _ _ R).
  - destruct (activeView (app w)); try (now intros [= <-]).
    destruct (handleFileUpload (app w) (alerts w) ai now type dataUrl) as [s' al].
    destruct (render_draft s' now) as [e|s''] eqn:R; [discriminate|].
    intros [= <-]. exact (render_draft_mounted _ _ _ R).
  - destruct (form (app w)) as [f|] eqn:F; [|now intros [= <-]].
    destruct (render (with_form (app w) (Some (onChange f c))) 0) as [e|s''] eqn:R;
      [discriminate|].
    intros [= <-]. refine (render_mounted _ _ _ (Kept _ _) R).
    intros _ _. split; [congruence | reflexivity].
  - destruct (form (app w)) as [f|] eqn:F; [|now intros [= <-]].
    destruct (currentEdit (app w)) as [d|] eqn:C; [|now intros [= <-]].
    destruct (render (saveReceipt (app w) (handleSubmit d f now)) now) as [e|s''] eqn:R;
      [discriminate|].
    intros [= <-]. refine (render_mounted _ _ _ _ R). intros f0 _ V. discriminate V.
  - destruct (form (app w)) as [f|] eqn:F; [|now intros [= <-]].
    destruct (render (with_view (app w) history) 0) as [e|s''] eqn:R; [discriminate|].
    intros [= <-]. refine (render_mounted _ _ _ (Kept _ _) R). intros V; discriminate V.
  - destruct (activeView (app w)) eqn:V; try (now intros [= <-]).
    destruct (simulateSync (app w) (alerts w)) as [s' al] eqn:S.
    destruct (render s' 0) as [e|s''] eqn:R; [discriminate|].
    intros [= <-]. refine (render_mounted _ _ _ _ R). intros f0 _ V'.
    assert (E : activeView s' = activeView (app w)).
    { revert S. unfold simulateSync. destruct (receipts (app w)); now intros [= <- _]. }
    congruence.
  - destruct (render (app w) 0) as [e|s''] eqn:R; [discriminate|].
    intros [= <-]. refine (render_mounted _ _ _ (Kept _ _) R). now split.
Qed.

Lemma run_mounted_from evs : forall w w',
  mounted (app w) -> run w evs = Running w' -> mounted (app w').
Proof.
  induction evs as [|ev evs IH]; simpl; intros w w' M.
  - now intros [= <-].
  - destruct (step w ev) as [w1| |] eqn:E; try discriminate.
    apply IH. exact (step_mounted _ _ _ M E).
Qed.

(** In a process that has started, a mounted form is shown on a draft
    on which its [useState] argument returns. *)
Lemma run_mounted slot w evs w' :
  start slot = Running w -> run w evs = Running w' -> mounted (app w').
Proof.
  intros Hs. apply run_mounted_from. intros f F.
  assert (N : form (app w) = None); [|congruence].
  revert Hs. unfold start. destruct (load slot) as [e|[v|]]; [discriminate| |].
  - destruct v; try discriminate. destruct (objects l) as [rs|]; [|discriminate].
    destruct (HistoryView.view rs); [discriminate|]. now intros [= <-].
  - now intros [= <-].
Qed.

(** *** Identifiers *)

Lemma decimal_inj n m : 0 <= n -> 0 <= m -> decimal n = decimal m -> n = m.
Proof.
  unfold decimal. intros Hn Hm H.
  assert (NN : forall x : N, N.to_uint x <> Decimal.Nil).
  { intros [|p]; [discriminate | apply DecimalPos.Unsigned.to_uint_nonnil]. }
  apply (f_equal NilZero.uint_of_string) in H. rewrite !NilZero.usu in H by apply NN.
  injection H as H. apply DecimalN.Unsigned.to_uint_inj in H. lia.
Qed.

Lemma decimal_no_sign n t : decimal n <> String "-" t.
Proof.
  intros H. pose proof (StringFacts.decimal_digits n) as D. rewrite H in D. discriminate D.
Qed.

Lemma integer_inj n m : integer n = integer m -> n = m.
Proof.
  unfold integer. destruct (Z.ltb_spec n 0) as [Ln|Ln], (Z.ltb_spec m 0) as [Lm|Lm]; intros H.
  - injection H as E. apply decimal_inj in E; lia.
  - symmetry in H. now apply decimal_no_sign in H.
  - now apply decimal_no_sign in H.
  - apply decimal_inj in H; lia.
Qed.

Lemma fresh_ids_more s used used' : incl used used' -> fresh_ids s used -> fresh_ids s used'.
Proof.
  intros I (N & R & D). split; [exact N|]. split.
  - intros i Hi. destruct (R i Hi) as (t & Ht & E). exists t. auto.
  - intros d Hd. destruct (D d Hd) as ((t & Ht & E) & F). split; [exists t|]; auto.
Qed.

Lemma fresh_ids_same s s' used :
  receipts s' = receipts s -> currentEdit s' = currentEdit s ->
  fresh_ids s used -> fresh_ids s' used.
Proof. unfold fresh_ids. now intros -> ->. Qed.

Lemma ids_markAllSynced rs : ids (markAllSynced rs) = ids rs.
Proof.
  unfold ids, markAllSynced. rewrite map_map. apply map_ext. intros r.
  unfold spread. simpl. now rewrite get_set_other by discriminate.
Qed.

Lemma handleCapture_fresh_ids s al ai now img used :
  ~ In now used -> fresh_ids s used ->
  fresh_ids (fst (handleCapture s al ai now img)) (now :: used).
Proof.
  intros Hn F. destruct (processReceipt ai now img) as [e|r] eqn:P.
  - rewrite (handleCapture_failure _ _ _ _ _ _ P). cbn [fst].
    apply (fresh_ids_more _ used); [apply incl_tl, incl_refl|].
    revert F. now apply fresh_ids_same.
  - rewrite (handleCapture_success _ _ _ _ _ _ P). cbn [fst].
    destruct F as (N & R & _). split; [exact N|]. split.
    + intros i Hi. destruct (R i Hi) as (t & Ht & E). exists t. split; [now right | exact E].
    + intros d [= <-]. rewrite draft_id. split.
      * exists now. split; [now left | reflexivity].
      * intros Hi. destruct (R _ Hi) as (t & Ht & E). injection E as E.
        apply integer_inj in E. now subst t.
Qed.

Lemma handled_fresh_ids w ev s' al now stored used :
  fresh_ids (app w) used ->
  (forall t, In t (capture_times [ev]) -> ~ In t used) ->
  handled w ev = Some (s', al, now, stored) ->
  fresh_ids s' (capture_times [ev] ++ used).
Proof.
  intros F Hn. unfold handled. destruct ev; cbn [capture_times flat_map List.app] in *.
  - intros [= <- _ _ _]. exact F.
  - intros [= <- _ _ _]. exact F.
  - intros [= <- _ _ _]. exact F.
  - destruct (isScanning (app w)); [|discriminate]. intros [= <- _ _ _].
    apply handleCapture_fresh_ids; [apply Hn; now left | exact F].
  - destruct (activeView (app w)); try discriminate. intros [= <- _ _ _].
    assert (F' : fresh_ids (app w) (now0 :: used)).
    { revert F. apply fresh_ids_more, incl_tl, incl_refl. }
    unfold handleFileUpload. destruct (negb (is_prefix "image/" type)); [exact F'|].
    destruct dataUrl as [b|]; [|exact F'].
    destruct (String.eqb b EmptyString); [exact F'|].
    apply handleCapture_fresh_ids; [apply Hn; now left | exact F].
  - destruct (form (app w)); [|discriminate]. intros [= <- _ _ _]. exact F.
  - destruct (form (app w)) as [f|], (currentEdit (app w)) as [d|] eqn:C; try discriminate.
    intros [= <- _ _ _]. destruct F as (N & R & D).
    destruct (D d C) as ((t & Ht & E) & Hnew).
    assert (I : get (handleSubmit d f now0) "id" = get d "id").
    { rewrite handleSubmit_fields. unfold get at 1. simpl. rewrite E.
      apply or_else_left, truthy_text, integer_not_empty. }
    split; [|split].
    + cbn [saveReceipt receipts ids List.map]. rewrite I. constructor; assumption.
    + cbn [saveReceipt receipts ids List.map]. rewrite I. intros i [<-|Hi]; eauto.
    + discriminate.
  - destruct (form (app w)); [|discriminate]. intros [= <- _ _ _]. exact F.
  - destruct (activeView (app w)); try discriminate. intros [= <- _ _ _].
    unfold simulateSync. destruct (receipts (app w)) as [|r rs] eqn:E; cbn [fst]; [exact F|].
    destruct F as (N & R & D). rewrite E in *.
    split; [|split]; cbn [receipts currentEdit]; rewrite ?ids_markAllSynced; assumption.
  - intros [= <- _ _ _]. exact F.
Qed.

Lemma step_fresh_ids w ev w' used :
  fresh_ids (app w) used ->
  (forall t, In t (capture_times [ev]) -> ~ In t used) ->
  step w ev = Running w' ->
  fresh_ids (app w') (capture_times [ev] ++ used).
Proof.
  intros F Hn. intros Hstep; apply step_handled in Hstep; revert Hstep.
  destruct (handled w ev) as [[[[s' al] now] stored]|] eqn:H.
  - destruct (render s' now) as [e|s''] eqn:R; [discriminate|]. intros [= <-]. cbn [app].
    destruct (render_keeps _ _ _ R) as (_ & E1 & _ & _ & E2).
    apply (fresh_ids_same s'); trivial.
    exact (handled_fresh_ids _ _ _ _ _ _ _ F Hn H).
  - intros [= <-]. revert F. apply fresh_ids_more, incl_appr, incl_refl.
Qed.

Lemma NoDup_app_disjoint (A : Type) (l l' : list A) :
  NoDup (l ++ l') -> forall x, In x l -> ~ In x l'.
Proof.
  induction l as [|a l IH]; simpl; [contradiction|].
  intros N x [<-|Hx] Hx'.
  - inversion N as [|? ? Ha _]; subst. apply Ha, in_or_app. now right.
  - inversion N; subst. now apply (IH H2 x).
Qed.

Lemma capture_times_cons ev evs :
  capture_times (ev :: evs) = capture_times [ev] ++ capture_times evs.
Proof. unfold capture_times. simpl. now rewrite app_nil_r. Qed.

Lemma run_fresh_ids evs : forall w w' used,
  fresh_ids (app w) used ->
  NoDup (capture_times evs) ->
  (forall t, In t (capture_times evs) -> ~ In t used) ->
  run w evs = Running w' ->
  fresh_ids (app w') (capture_times evs ++ used).
Proof.
  induction evs as [|ev evs IH]; intros w w' used F N Hn.
  - simpl. now intros [= <-].
  - cbn [run]. destruct (step w ev) as [w1| |] eqn:S; try discriminate. intros Hrun.
    rewrite capture_times_cons in *.
    assert (F1 : fresh_ids (app w1) (capture_times [ev] ++ used)).
    { apply (step_fresh_ids w); trivial. intros t Ht. apply Hn, in_or_app. now left. }
    apply (fresh_ids_more _ (capture_times evs ++ capture_times [ev] ++ used)).
    { intros t Ht. rewrite !in_app_iff in *. tauto. }
    apply (IH w1); trivial.
    + now apply NoDup_app_remove_l in N.
    + intros t Ht Hu. apply in_app_or in Hu as [Hu|Hu].
      * exact (NoDup_app_disjoint _ _ _ N t Hu Ht).
      * apply (Hn t); trivial. apply in_or_app. now right.
Qed.

(** X15.  When the clock shows a different reading at every capture, no
    two stored records have the same identifier. *)
Theorem identifiers_are_distinct_when_capture_times_are :
  forall (evs : list Event) (w : World),
    NoDup (capture_times evs) ->
    run fresh evs = Running w ->
    NoDup (ids (receipts (app w))).
Proof.
  intros evs w N H.
  assert (F : fresh_ids (app fresh) []).
  { split; [constructor|]. split; [intros i []|discriminate]. }
  exact (proj1 (run_fresh_ids evs fresh w [] F N (fun _ _ H => H) H)).
Qed.

Lemma identifiers_are_distinct_when_capture_times_are_witness :
  NoDup (ids (receipts (app (after fresh two_receipts_synced)))).
Proof.
  apply (identifiers_are_distinct_when_capture_times_are two_receipts_synced).
  - vm_compute. constructor; [simpl; intros [H|[]]; discriminate H|].
    constructor; [simpl; tauto | constructor].
  - vm_compute. reflexivity.
Defined.

End FlowFacts.

(** ** The screens *)

Module ScreenFacts.
Import JSString JSNumber JSValue Types GeminiService ReceiptEdit App.
Import Examples Store Screens Scenes StoreFacts.

Lemma settled_routed s : settled s -> routed s.
Proof. intros (P & [(V & _)|(V & C & _)]); split; auto. Qed.

Lemma render_settled s now s' : routed s -> render s now = inr s' -> settled s'.
Proof.
  intros (P & V). unfold render.
  destruct V as [V|(V & C)].
  - rewrite V. intros [= <-]. split; [exact P | left; split; reflexivity].
  - destruct (currentEdit s) as [d|] eqn:E; [|congruence]. rewrite V.
    destruct (form s) as [f|] eqn:F.
    + intros [= <-]. split; [exact P|]. right. repeat split; congruence.
    + destruct (initialFormData d now) as [e|f]; [discriminate|]. intros [= <-].
      split; [exact P|]. right. cbn [activeView currentEdit form].
      repeat split; congruence.
Qed.

Lemma handleCapture_routed s al ai now img :
  routed s -> routed (fst (handleCapture s al ai now img)).
Proof.
  intros (P & V). unfold handleCapture. destruct (processReceipt ai now img); cbn [fst].
  - split; [reflexivity | exact V].
  - split; [reflexivity|]. right. split; [reflexivity | discriminate].
Qed.

Lemma handled_routed w ev s' al now stored :
  settled (app w) -> handled w ev = Some (s', al, now, stored) -> routed s'.
Proof.
  intros S. pose proof (settled_routed _ S) as R. pose proof R as (P & V).
  unfold handled. destruct ev.
  - intros [= <- _ _ _]. split; [exact P | now left].
  - intros [= <- _ _ _]. exact R.
  - intros [= <- _ _ _]. exact R.
  - destruct (isScanning (app w)); [|discriminate]. intros [= <- _ _ _].
    now apply handleCapture_routed.
  - destruct (activeView (app w)); try discriminate. intros [= <- _ _ _].
    unfold handleFileUpload. destruct (negb (is_prefix "image/" type)); [exact R|].
    destruct dataUrl as [b|]; [|exact R].
    destruct (String.eqb b EmptyString); [exact R | now apply handleCapture_routed].
  - destruct (form (app w)); [|discriminate]. intros [= <- _ _ _]. exact R.
  - destruct (form (app w)) as [f|], (currentEdit (app w)) as [d|]; try discriminate.
    intros [= <- _ _ _]. split; [exact P | now left].
  - destruct (form (app w)); [|discriminate]. intros [= <- _ _ _].
    split; [exact P | now left].
  - destruct (activeView (app w)) eqn:A; try discriminate. intros [= <- _ _ _].
    unfold simulateSync. destruct (receipts (app w)); cbn [fst]; [exact R|].
    split; [reflexivity|]. left. exact A.
  - intros [= <- _ _ _]. exact R.
Qed.

Lemma step_settled w ev w' : settled (app w) -> step w ev = Running w' -> settled (app w').
Proof.
  intros S. intros Hstep; apply step_handled in Hstep; revert Hstep.
  destruct (handled w ev) as [[[[s' al] now] stored]|] eqn:H.
  - destruct (render s' now) as [e|s''] eqn:R; [discriminate|]. intros [= <-]. cbn [app].
    exact (render_settled _ _ _ (handled_routed _ _ _ _ _ _ S H) R).
  - now intros [= <-].
Qed.

Lemma start_settled slot w : start slot = Running w -> settled (app w).
Proof.
  unfold start. destruct (load slot) as [e|[v|]]; [discriminate| |].
  - destruct v; try discriminate. destruct (objects l) as [rs|]; [|discriminate].
    destruct (HistoryView.view rs); [discriminate|].
    intros [= <-]. split; [reflexivity | left; split; reflexivity].
  - intros [= <-]. split; [reflexivity | left; split; reflexivity].
Qed.

Lemma run_settled evs : forall w w',
  settled (app w) -> run w evs = Running w' -> settled (app w').
Proof.
  induction evs as [|ev evs IH]; intros w w' S; cbn [run].
  - now intros [= <-].
  - destruct (step w ev) as [w1| |] eqn:E; try discriminate.
    apply IH. exact (step_settled _ _ _ S E).
Qed.

(** X16.  Between two events the application is on the list, with no form
    mounted, or on the form, with a draft to show; the views scan and
    settings are never entered and the spinner is never left on. *)
Theorem application_is_on_the_list_or_on_the_form :
  forall (slot : option string) (w : World) (evs : list Event) (w' : World),
    start slot = Running w -> run w evs = Running w' -> settled (app w').
Proof.
  intros slot w evs w' Hs Hr. exact (run_settled evs w w' (start_settled slot w Hs) Hr).
Qed.

Lemma application_is_on_the_list_or_on_the_form_witness :
  settled (app (after fresh capture)).
Proof.
  apply (application_is_on_the_list_or_on_the_form None fresh capture);
    vm_compute; reflexivity.
Defined.


End ScreenFacts.

(** ** The list view *)

Module HistoryFacts.
Import JSString JSNumber JSValue Types GeminiService ReceiptEdit App HistoryView.
Import Examples Store Wellformed Scenes ObjectFacts FormFacts ViewFacts StoreFacts RecordFacts.

(** X17.  The call of the list view returns exactly when the total of
    every record is a Number and every identifier can be made a key. *)
Theorem view_returns_exactly_on_listable_records :
  forall rs : list obj, forallb listable rs = true <-> exists shown, view rs = inr shown.
Proof.
  intros rs. split; [apply view_listable|].
  intros [shown H]. unfold view in H.
  destruct (totalSpent rs); [discriminate|]. destruct (toFixed2 v); [discriminate|].
  destruct rs as [|r rs']; [reflexivity|].
  apply rows_listable. destruct (rows (r :: rs')); [discriminate | eauto].
Qed.

Lemma view_returns_exactly_on_listable_records_witness :
  exists shown, view [receipt2; receipt1] = inr shown.
Proof.
  apply (proj1 (view_returns_exactly_on_listable_records [receipt2; receipt1])).
  vm_compute. reflexivity.
Defined.

Lemma well_formed_listable r : well_formed r -> listable r = true.
Proof.
  intros (_ & (x & Hx & _) & _ & (i & Hi) & _). unfold listable, numeric, keyed, key.
  now rewrite Hx, Hi.
Qed.

(** X18.  The call of the list view never throws on a store the
    application built. *)
Theorem view_of_a_built_store_never_throws :
  forall (evs : list Event) (w : World),
    run fresh evs = Running w -> exists shown, view (receipts (app w)) = inr shown.
Proof.
  intros evs w H.
  pose proof (proj1 (run_sound evs fresh w fresh_sound H)) as F.
  apply view_listable, forallb_forall. intros r Hr. apply well_formed_listable.
  rewrite Forall_forall in F. now apply F.
Qed.

Lemma view_of_a_built_store_never_throws_witness :
  exists shown, view (receipts (app (after fresh two_receipts_synced))) = inr shown.
Proof.
  apply (view_of_a_built_store_never_throws two_receipts_synced).
  vm_compute. reflexivity.
Defined.

(** *** The table of the list view *)

Lemma rows_nth rs : forall t,
  rows rs = inr t ->
  List.length t = List.length rs
  /\ forall i r, nth_error rs i = Some r ->
       exists x, nth_error t i = Some x /\ row r = inr x.
Proof.
  induction rs as [|r rs IH]; cbn [rows]; intros t.
  - intros [= <-]. split; [reflexivity|]. intros [|i] r; discriminate.
  - destruct (row r) as [e|x] eqn:E; [discriminate|].
    destruct (rows rs) as [e|xs]; [discriminate|]. intros [= <-].
    destruct (IH xs eq_refl) as (L & N). split; [simpl; now rewrite L|].
    intros [|i] r0; simpl.
    + intros [= <-]. eauto.
    + apply N.
Qed.

Lemma row_cells r x :
  row r = inr x ->
  key r = inr (row_key x)
  /\ cell_date x = get r "date" /\ cell_merchant x = get r "merchant"
  /\ toFixed2 (get r "total") = inr (cell_total x)
  /\ cell_category x = get r "category" /\ cell_status x = mark r.
Proof.
  unfold row. destruct (toFixed2 (get r "total")) as [e|t]; [discriminate|].
  destruct (key r) as [e|k]; [discriminate|].
  intros [= <-]. repeat split.
Qed.

(** X19.  The table is left out exactly when the list is empty; otherwise
    it has one row per record, in the order of the list, each with the
    fields of its record. *)
Theorem table_has_one_row_per_record :
  forall (rs : list obj) (shown : Shown),
    view rs = inr shown ->
    match table shown with
    | None => rs = []
    | Some t =>
        rs <> [] /\ List.length t = List.length rs
        /\ forall i r, nth_error rs i = Some r ->
             exists x, nth_error t i = Some x
                       /\ key r = inr (row_key x)
                       /\ cell_date x = get r "date" /\ cell_merchant x = get r "merchant"
                       /\ toFixed2 (get r "total") = inr (cell_total x)
                       /\ cell_category x = get r "category" /\ cell_status x = mark r
    end.
Proof.
  intros rs shown. unfold view.
  destruct (totalSpent rs) as [e|sum]; [discriminate|].
  destruct (toFixed2 sum) as [e|h]; [discriminate|].
  destruct rs as [|r rs]; [now intros [= <-]|].
  destruct (rows (r :: rs)) as [e|t] eqn:E; [discriminate|]. intros [= <-]. cbn [table].
  destruct (rows_nth _ _ E) as (L & N). split; [discriminate|]. split; [exact L|].
  intros i r0 H. destruct (N i r0 H) as (x & Hx & Hr). exists x. split; [exact Hx|].
  exact (row_cells _ _ Hr).
Qed.

Lemma table_has_one_row_per_record_witness :
  match table shown_two with
  | None => [receipt2; receipt1] = []
  | Some t =>
      [receipt2; receipt1] <> [] /\ List.length t = List.length [receipt2; receipt1]
      /\ forall i r, nth_error [receipt2; receipt1] i = Some r ->
           exists x, nth_error t i = Some x
                     /\ key r = inr (row_key x)
                     /\ cell_date x = get r "date" /\ cell_merchant x = get r "merchant"
                     /\ toFixed2 (get r "total") = inr (cell_total x)
                     /\ cell_category x = get r "category" /\ cell_status x = mark r
  end.
Proof.
  apply (table_has_one_row_per_record [receipt2; receipt1] shown_two).
  vm_compute. reflexivity.
Defined.

Lemma mark_synced r : mark r = Synced <-> get r "status" = VStr "synced".
Proof.
  unfold mark. destruct (get r "status") as [| | | |s| |]; try (split; discriminate).
  destruct (String.eqb_spec s "synced") as [->|N]; split; try reflexivity; try discriminate.
  intros [= E]. contradiction.
Qed.

(** X20.  A row is marked as synced exactly when the status of its record
    is "synced"; after a sync every row of the table is, and the row of
    a record that was just confirmed is not. *)
Theorem status_column_follows_the_sync :
  (forall r : obj, mark r = Synced <-> get r "status" = VStr "synced")
  /\ (forall (rs : list obj) (t : list TableRow),
        rows (markAllSynced rs) = inr t -> Forall (fun x => cell_status x = Synced) t)
  /\ (forall (d : obj) (f : FormData) (now : Z), mark (handleSubmit d f now) = PendingSync).
Proof.
  split; [exact mark_synced|]. split.
  - intros rs t H. apply Forall_forall. intros x Hx.
    apply In_nth_error in Hx as (i & Hi).
    destruct (rows_nth _ _ H) as (L & N).
    destruct (nth_error (markAllSynced rs) i) as [r|] eqn:E.
    + destruct (N i r E) as (x' & Hx' & Hr). rewrite Hi in Hx'. injection Hx' as <-.
      destruct (row_cells _ _ Hr) as (_ & _ & _ & _ & _ & ->). apply mark_synced.
      unfold markAllSynced in E. apply nth_error_In, in_map_iff in E as (r0 & <- & _).
      apply get_set_same.
    + apply nth_error_None in E. assert (i < List.length t)%nat by (apply nth_error_Some; congruence).
      lia.
  - intros d f now. rewrite handleSubmit_fields. reflexivity.
Qed.

Lemma status_column_follows_the_sync_witness :
  Forall (fun x => cell_status x = Synced) synced_rows.
Proof.
  destruct status_column_follows_the_sync as (_ & Hsync & _).
  apply (Hsync [receipt2; receipt1] synced_rows). vm_compute. reflexivity.
Defined.

(** The sum of the totals [xs], added in list order to [x]. *)
Lemma totalSpent_sum rs : forall xs x,
  Forall2 (fun r y => get r "total" = VNum y) rs xs ->
  fold_left
    (fun acc r => match acc with inl e => inl e | inr sum => plus sum (get r "total") end)
    rs (inr (VNum x))
  = inr (VNum (fold_left (SFadd prec emax) xs x)).
Proof.
  induction rs as [|r rs IH]; intros xs x F; inversion F as [|? y ? ys Hy Hrest]; subst.
  - reflexivity.
  - cbn [fold_left]. rewrite Hy. cbn [plus to_primitive to_number]. now apply IH.
Qed.

Lemma rows_totals rs : forall t,
  rows rs = inr t -> exists xs, Forall2 (fun r y => get r "total" = VNum y) rs xs.
Proof.
  induction rs as [|r rs IH]; cbn [rows]; intros t.
  - intros _. exists []. constructor.
  - unfold row, toFixed2. destruct (get r "total") as [| | |x| | |] eqn:E; try discriminate.
    destruct (key r); [discriminate|].
    destruct (rows rs) as [e|xs]; [discriminate|]. intros _.
    destruct (IH xs eq_refl) as [ys F]. exists (x :: ys). now constructor.
Qed.

(** X21.  The total in the header is the sum of the totals of the
    records, added one by one in the order of the list, starting from
    0, each addition rounded to binary64, and written with two digits
    after the point. *)
Theorem header_is_the_sum_in_list_order :
  forall (rs : list obj) (shown : Shown),
    view rs = inr shown ->
    exists xs,
      Forall2 (fun r y => get r "total" = VNum y) rs xs
      /\ header_total shown = toFixed 2 (fold_left (SFadd prec emax) xs zero).
Proof.
  intros rs shown. unfold view.
  destruct rs as [|r rs].
  - intros [= <-]. exists []. split; [constructor | reflexivity].
  - destruct (totalSpent (r :: rs)) as [e|sum] eqn:T; [discriminate|].
    destruct (toFixed2 sum) as [e|h] eqn:H; [discriminate|].
    destruct (rows (r :: rs)) as [e|t] eqn:R; [discriminate|]. intros [= <-].
    destruct (rows_totals _ _ R) as [xs F]. exists xs. split; [exact F|].
    unfold totalSpent in T. rewrite (totalSpent_sum _ _ _ F) in T. injection T as <-.
    cbn [toFixed2] in H. injection H as <-. reflexivity.
Qed.

Lemma header_is_the_sum_in_list_order_witness :
  exists xs,
    Forall2 (fun r y => get r "total" = VNum y) [receipt2; receipt1] xs
    /\ header_total shown_two = toFixed 2 (fold_left (SFadd prec emax) xs zero).
Proof.
  apply (header_is_the_sum_in_list_order [receipt2; receipt1] shown_two).
  vm_compute. reflexivity.
Defined.

End HistoryFacts.

(** ** The camera and the uploaded files *)

Module BrowserFacts.
Import JSString JSNumber JSValue Types GeminiService ReceiptEdit App.
Import Calendar Examples Browser CameraView Files Scenes StringFacts JSONFacts ExtractionFacts ResponseFacts.

Lemma sextet_plain n : Ascii.eqb (sextet n) "," = false.
Proof.
  unfold sextet.
  assert (H : forallb (fun c => negb (Ascii.eqb c ",")) ("A"%char :: chars alphabet) = true)
    by reflexivity.
  rewrite forallb_forall in H. apply negb_true_iff, H.
  destruct (nth_in_or_default (Z.to_nat n) (chars alphabet) "A"%char) as [I| ->].
  - now right.
  - now left.
Qed.

Lemma base64_step (P : list byte -> Prop) :
  P [] -> (forall a, P [a]) -> (forall a b, P [a; b]) ->
  (forall a b c rest, P rest -> P (a :: b :: c :: rest)) ->
  forall l, P l.
Proof.
  intros H0 H1 H2 H3.
  fix IH 1. intros [|a [|b [|c rest]]].
  - exact H0.
  - exact (H1 a).
  - exact (H2 a b).
  - exact (H3 a b c rest (IH rest)).
Qed.

Lemma base64_plain bytes : free_of "," (base64 bytes) = true.
Proof.
  induction bytes as [|a|a b|a b c rest IH] using base64_step;
    cbn [base64 free_of forallb]; rewrite ?sextet_plain; try reflexivity.
  exact IH.
Qed.

Lemma base64_not_empty bytes : bytes <> [] -> of_chars (base64 bytes) <> EmptyString.
Proof. destruct bytes as [|a [|b [|c rest]]]; [congruence| | |]; discriminate. Qed.

Lemma data_url_payload prefix bytes :
  free_of "," (chars prefix) = true -> bytes <> [] ->
  data (request (prefix ++ "," ++ of_chars (base64 bytes))) = VStr (of_chars (base64 bytes)).
Proof.
  intros Hp Hb. cbn [data request]. apply inlineData_prefixed; trivial.
  - rewrite chars_of_chars. apply base64_plain.
  - now apply base64_not_empty.
Qed.

Lemma data_url_empty prefix :
  free_of "," (chars prefix) = true ->
  data (request (prefix ++ ",")) = VStr (prefix ++ ",").
Proof.
  intros Hp. cbn [data request]. unfold inlineData, split.
  rewrite chars_app. change (chars ",") with [","%char].
  rewrite (split_chars_at "," _ _ [] Hp). reflexivity.
Qed.


(** X22.  Whatever [getUserMedia] answers, unmounting the camera view
    stops no track: the cleanup reads the [stream] of the first render,
    which is null, also when the component holds a stream. *)
Theorem camera_tracks_are_never_stopped :
  forall (access : Error + MediaStream) (al : list string) (stopped : list Track),
    unmount (fst (fst (startCamera access mount al))) stopped = stopped
    /\ forall mediaStream,
         access = inr mediaStream ->
         stream (shown (fst (fst (startCamera access mount al)))) = Some mediaStream
         /\ srcObject (fst (fst (startCamera access mount al))) = Some mediaStream.
Proof.
  intros [e|ms] al stopped; (split; [reflexivity|]); intros m [= <-]. now split.
Qed.

Lemma camera_tracks_are_never_stopped_witness :
  stream (shown (fst (fst (startCamera (inr [0%nat; 1%nat]) mount [])))) = Some [0%nat; 1%nat]
  /\ srcObject (fst (fst (startCamera (inr [0%nat; 1%nat]) mount []))) = Some [0%nat; 1%nat].
Proof.
  destruct (camera_tracks_are_never_stopped (inr [0%nat; 1%nat]) [] []) as (_ & Hheld).
  apply (Hheld [0%nat; 1%nat]). reflexivity.
Defined.

Lemma jpeg_prefix_plain : free_of "," (chars "data:image/jpeg;base64") = true.
Proof. reflexivity. Qed.

(** X23.  The photo of a video that has frames reaches the service as the
    Base64 text of the JPEG file alone; the photo taken before the
    first frame is the text [data:,] and reaches the service whole. *)
Theorem photo_reaches_the_service_without_its_prefix :
  forall video : Video,
    (videoWidth video = 0 \/ videoHeight video = 0 ->
     capturePhoto video = "data:,"
     /\ data (request (capturePhoto video)) = VStr "data:,")
    /\ (videoWidth video <> 0 -> videoHeight video <> 0 -> frame video <> [] ->
        capturePhoto video = ("data:image/jpeg;base64," ++ of_chars (base64 (frame video)))%string
        /\ data (request (capturePhoto video)) = VStr (of_chars (base64 (frame video)))).
Proof.
  intros video. unfold capturePhoto, toDataURL. split.
  - intros H. assert (E : (videoWidth video =? 0) || (videoHeight video =? 0) = true).
    { apply orb_true_iff. destruct H as [H|H]; [left|right]; now apply Z.eqb_eq. }
    rewrite E. split; reflexivity.
  - intros Hw Hh Hf. apply Z.eqb_neq in Hw, Hh. rewrite Hw, Hh. cbn [orb].
    split; [reflexivity|].
    exact (data_url_payload "data:image/jpeg;base64" _ jpeg_prefix_plain Hf).
Qed.

Lemma photo_reaches_the_service_without_its_prefix_witness :
  (capturePhoto video_without_frames = "data:,"
   /\ data (request (capturePhoto video_without_frames)) = VStr "data:,")
  /\ data (request (capturePhoto video_with_frames)) = VStr "/9j/4A==".
Proof.
  split.
  - destruct (photo_reaches_the_service_without_its_prefix video_without_frames) as (Hnone & _).
    apply Hnone. left. reflexivity.
  - destruct (photo_reaches_the_service_without_its_prefix video_with_frames) as (_ & Hsome).
    apply Hsome; vm_compute; discriminate.
Defined.

Lemma append_assoc (a b c : string) : ((a ++ b) ++ c = a ++ b ++ c)%string.
Proof. induction a as [|x a IH]; simpl; [reflexivity | now rewrite IH]. Qed.

Lemma file_prefix_plain type :
  free_of "," (chars type) = true -> free_of "," (chars ("data:" ++ type ++ ";base64")) = true.
Proof.
  intros H. rewrite !chars_app, !free_of_app, H. reflexivity.
Qed.

(** X24.  Of the files dropped or chosen only the first is read; when it
    is an image it is handled like a capture of its data URL, and its
    bytes reach the service as Base64 text alone, unless the file is
    empty, when the data URL is sent whole. *)
Theorem uploaded_image_reaches_the_service_without_its_prefix :
  forall (s : State) (al : list string) (ai : Service) (now : Z)
         (file : File) (rest : list File) (bytes : list byte),
    is_prefix "image/" (type file) = true ->
    free_of "," (chars (type file)) = true ->
    content file = Some bytes ->
    onUpload s al ai now (file :: rest)
    = handleCapture s al ai now (readAsDataURL (type file) bytes)
    /\ (bytes <> [] ->
        data (request (readAsDataURL (type file) bytes)) = VStr (of_chars (base64 bytes)))
    /\ (bytes = [] ->
        data (request (readAsDataURL (type file) bytes))
        = VStr (readAsDataURL (type file) bytes)).
Proof.
  intros s al ai now file rest bytes Ht Hc Hb.
  assert (E : forall b, readAsDataURL (type file) b
                        = (("data:" ++ type file ++ ";base64") ++ "," ++ of_chars (base64 b))%string).
  { intros b. unfold readAsDataURL. cbn [String.append]. now rewrite append_assoc. }
  split; [|split].
  - unfold onUpload, handleFileUpload. rewrite Ht, Hb. reflexivity.
  - intros Hne. rewrite E. apply data_url_payload; [now apply file_prefix_plain | exact Hne].
  - intros ->. rewrite E. cbn [base64 of_chars string_of_list_ascii].
    apply (data_url_empty ("data:" ++ type file ++ ";base64")). now apply file_prefix_plain.
Qed.

Lemma uploaded_image_reaches_the_service_without_its_prefix_witness :
  onUpload initial [] (answers cafe_luna) 1710036000000 [png_file]
  = handleCapture initial [] (answers cafe_luna) 1710036000000 "data:image/png;base64,iVBORw=="
  /\ data (request "data:image/png;base64,iVBORw==") = VStr "iVBORw==".
Proof.
  destruct (uploaded_image_reaches_the_service_without_its_prefix
              initial [] (answers cafe_luna) 1710036000000 png_file []
              [x89; x50; x4e; x47]) as (Hread & Hsent & _); try reflexivity.
  split; [exact Hread|]. apply Hsent. discriminate.
Defined.

End BrowserFacts.
